(** * Symbol extraction, graph construction and queries of mcp-server.js

    A shallow embedding of the symbol pipeline of [mcp-server.js]:
    the two extractors ([extractSymbols] / [extractMemberData] for
    SourceKitten trees, [extractObjCSymbols] for Clang trees), the type
    map, edge list and indexes built by [init_swift_repo], and the
    queries [findSymbol], [explain_symbol] and [search_symbols].

    Modelling conventions.
    - A string is the UTF-8 form of a JavaScript string without lone
      surrogates; equality, [includes], [startsWith], [endsWith] and
      [replace] agree under this reading.
    - A plain object that is read by key ([typeMap], [indexes.byName],
      [indexes.byKind], [indexes.byFile], [memberData], [kindToPlural])
      is a [gmap string _] holding its own properties; a read by key
      ([JsObject.get]) goes on to [Object.prototype] when the key is not
      an own one.
    - A write [o[k] = v] under the key [__proto__] adds no property: it
      installs [v] as the prototype of [o].  The maps record [v] under
      that key; [typeMap] is the one object that is read after such a
      write, by [readTypeMap].  A graph whose construction completes has
      no such key in [typeMap] and [byName].
    - The [files] object is iterated with [Object.entries]; it is an
      association list in insertion order, written with [obj_set].
    - Optional tags are [option]; [None] stands for an absent tag, for
      [undefined] and for [null].  A string tag is truthy when it is
      present and not empty.
    - A statement that can raise a [TypeError] is modelled in the
      [Result] monad.
    - [path.join] and [String.prototype.toLowerCase] belong to the host;
      they are parameters.  [JsString.toLowerCase] is the latter on ASCII
      text. *)

From Stdlib Require Import ZArith String Ascii List.
From stdpp Require Import gmap strings list fin_maps.
Import ListNotations.
Local Open Scope string_scope.
Local Open Scope list_scope.
Set Warnings "-register-all".

(** ** JavaScript string primitives *)

Module JsString.

(** [s.startsWith(p)] *)
Fixpoint startsWith (p s : string) : bool :=
  match p, s with
  | EmptyString, _ => true
  | String a p', String b s' => if Ascii.eqb a b then startsWith p' s' else false
  | String _ _, EmptyString => false
  end.

(** [s.includes(p)] *)
Fixpoint includes (p s : string) : bool :=
  if startsWith p s then true
  else match s with
       | EmptyString => false
       | String _ s' => includes p s'
       end.

Fixpoint drop (n : nat) (s : string) : string :=
  match n, s with
  | O, _ => s
  | S n', String _ s' => drop n' s'
  | S _, EmptyString => EmptyString
  end.

(** [s.replace(p, '')] for a string pattern: the first occurrence of
    [p] is removed. *)
Fixpoint remove_first (p s : string) : string :=
  if startsWith p s then drop (String.length p) s
  else match s with
       | EmptyString => EmptyString
       | String c s' => String c (remove_first p s')
       end.

(** [s.endsWith(p)] *)
Definition endsWith (p s : string) : bool :=
  if Nat.leb (String.length p) (String.length s)
  then String.eqb (drop (String.length s - String.length p) s) p
  else false.

Definition lower_ascii (c : ascii) : ascii :=
  let n := nat_of_ascii c in
  if (Nat.leb 65 n && Nat.leb n 90)%bool then ascii_of_nat (n + 32) else c.

(** [s.toLowerCase()] on ASCII text: the letters [A]-[Z] are mapped,
    every other byte is kept. *)
Fixpoint toLowerCase (s : string) : string :=
  match s with
  | EmptyString => EmptyString
  | String c s' => String (lower_ascii c) (toLowerCase s')
  end.

(** The last character of [s] is [c]. *)
Fixpoint lastIs (c : ascii) (s : string) : bool :=
  match s with
  | EmptyString => false
  | String a EmptyString => Ascii.eqb a c
  | String _ rest => lastIs c rest
  end.

(** Truthiness of an optional string tag. *)
Definition truthy (o : option string) : bool :=
  match o with
  | Some s => negb (String.eqb s "")
  | None => false
  end.

(** [o || ''] *)
Definition or_empty (o : option string) : string :=
  match o with
  | Some s => s
  | None => ""
  end.

End JsString.
Import JsString.

Arguments startsWith : simpl never.
Arguments includes : simpl never.
Arguments remove_first : simpl never.
Arguments endsWith : simpl never.
Arguments toLowerCase : simpl never.

(** ** Exceptions *)

Inductive Result (A : Type) : Type :=
| Ok (a : A)
| Throw.
Arguments Ok {A} a.
Arguments Throw {A}.

Definition rbind {A B} (r : Result A) (k : A -> Result B) : Result B :=
  match r with
  | Ok a => k a
  | Throw => Throw
  end.

#[global] Instance Result_bind : MBind Result := fun A B k r => rbind r k.

(** ** Plain objects *)

Module JsObject.

(** The function-valued properties that every plain object inherits
    from [Object.prototype]: the key, and the [name] and [length] of the
    function found there. *)
Definition prototypeFunctions : list (string * (string * nat)) :=
  [("constructor", ("Object", 1)); ("__defineGetter__", ("__defineGetter__", 2));
   ("__defineSetter__", ("__defineSetter__", 2)); ("hasOwnProperty", ("hasOwnProperty", 1));
   ("__lookupGetter__", ("__lookupGetter__", 1)); ("__lookupSetter__", ("__lookupSetter__", 1));
   ("isPrototypeOf", ("isPrototypeOf", 1));
   ("propertyIsEnumerable", ("propertyIsEnumerable", 1));
   ("toString", ("toString", 0)); ("valueOf", ("valueOf", 0));
   ("toLocaleString", ("toLocaleString", 0))].

(** What a read finds on [Object.prototype]: one of its functions, or,
    under the key [__proto__], the prototype object itself.  Both are
    truthy; neither has a property [file], [kind], [symbol], [push],
    [find] or an element [0], and neither is iterable. *)
Inductive Inherited :=
| InheritedFunction (fname : string) (flength : nat)
| InheritedPrototype.

Definition inherited (k : string) : option Inherited :=
  if String.eqb k "__proto__" then Some InheritedPrototype
  else (fun f => InheritedFunction f.2.1 f.2.2)
         <$> List.find (fun f => String.eqb f.1 k) prototypeFunctions.

(** [String(v)] of an inherited value. *)
Definition inheritedText (i : Inherited) : string :=
  match i with
  | InheritedFunction fname _ => ("function " +:+ fname +:+ "() { [native code] }")%string
  | InheritedPrototype => "[object Object]"
  end.

(** The outcome of [o[k]]. *)
Inductive Property (V : Type) : Type :=
| Own (v : V)
| Inherits (i : Inherited)
| Undefined.
Arguments Own {V} v.
Arguments Inherits {V} i.
Arguments Undefined {V}.

(** [o[k]] on an object given by its own properties. *)
Definition get {V} (o : gmap string V) (k : string) : Property V :=
  match o !! k with
  | Some v => Own v
  | None =>
      match inherited k with
      | Some i => Inherits i
      | None => Undefined
      end
  end.

(** A key that [Object.prototype] does not define. *)
Definition ordinary (k : string) : bool :=
  match inherited k with
  | Some _ => false
  | None => true
  end.

End JsObject.

(** ** The normalized symbol model *)

Record Symbol := mkSymbol {
  name : string;
  kind : string;
  file : string;
  inheritedTypes : list string;
  accessibility : option string;
  typeName : option string;
  offset : option Z;
  len : option Z;
  extendedType : option string
}.

Record Symbols := mkSymbols {
  classes : list Symbol;
  structs : list Symbol;
  protocols : list Symbol;
  functions : list Symbol;
  enums : list Symbol;
  extensions : list Symbol;
  variables : list Symbol
}.

Definition noSymbols : Symbols := mkSymbols [] [] [] [] [] [] [].

Inductive Bucket :=
| BClasses | BStructs | BProtocols | BFunctions | BEnums | BExtensions | BVariables.

#[global] Instance Bucket_eq_dec : EqDecision Bucket.
Proof. solve_decision. Defined.

Definition bucket (b : Bucket) (s : Symbols) : list Symbol :=
  match b with
  | BClasses => classes s
  | BStructs => structs s
  | BProtocols => protocols s
  | BFunctions => functions s
  | BEnums => enums s
  | BExtensions => extensions s
  | BVariables => variables s
  end.

(** [symbols.<b>.push(x)] *)
Definition push (b : Bucket) (x : Symbol) (s : Symbols) : Symbols :=
  let put b' := if decide (b' = b) then bucket b' s ++ [x] else bucket b' s in
  mkSymbols (put BClasses) (put BStructs) (put BProtocols) (put BFunctions)
    (put BEnums) (put BExtensions) (put BVariables).

Arguments push : simpl never.

Definition allBuckets : list Bucket :=
  [BClasses; BStructs; BProtocols; BFunctions; BEnums; BExtensions; BVariables].

Record Property := mkProperty {
  p_name : string;
  p_type : option string;
  p_access : option string
}.

Record Method := mkMethod {
  m_name : string;
  m_returnType : option string;
  m_access : option string
}.

Record Members := mkMembers {
  properties : list Property;
  methods : list Method;
  initializers : list Method
}.

Definition noMembers : Members := mkMembers [] [] [].

(** ** Shape A: SourceKitten structure trees *)

(** Tags of a SourceKitten node: [key.kind], [key.name],
    [key.inheritedtypes] (each entry carries its [key.name]),
    [key.accessibility], [key.typename], [key.offset], [key.length]. *)
Record SwiftTags := mkSwiftTags {
  key_kind : option string;
  key_name : option string;
  key_inheritedtypes : option (list string);
  key_accessibility : option string;
  key_typename : option string;
  key_offset : option Z;
  key_length : option Z
}.

Inductive SwiftNode :=
| SNull
| SNode (tags : SwiftTags) (key_substructure : list SwiftNode).

Definition swiftAccessPrefix : string := "source.lang.swift.accessibility.".

(** The [info] object of [extractSymbols.walk]. *)
Definition swiftInfo (filePath : string) (knd nm : string) (t : SwiftTags) : Symbol :=
  {| name := nm;
     kind := knd;
     file := filePath;
     inheritedTypes := default [] (key_inheritedtypes t);
     accessibility := remove_first swiftAccessPrefix <$> key_accessibility t;
     typeName := key_typename t;
     offset := key_offset t;
     len := key_length t;
     extendedType := None |}.

(** The [if / else if] chain of [extractSymbols.walk]. *)
Definition classify (knd : string) : option Bucket :=
  if includes "class" knd then Some BClasses
  else if includes "struct" knd then Some BStructs
  else if includes "protocol" knd then Some BProtocols
  else if includes "enum" knd then Some BEnums
  else if includes "extension" knd then Some BExtensions
  else if (includes "function" knd || includes "method" knd)%bool then Some BFunctions
  else if includes "var" knd then Some BVariables
  else None.

(** What [walk] pushes at one node, and into which bucket: nothing unless
    both tags are truthy and the kind matches one of the substrings. *)
Definition entryOf (filePath : string) (t : SwiftTags) : option (Bucket * Symbol) :=
  match key_kind t, key_name t with
  | Some knd, Some nm =>
      if (truthy (Some knd) && truthy (Some nm))%bool then
        let info := swiftInfo filePath knd nm t in
        match classify knd with
        | Some BExtensions =>
            Some (BExtensions,
                  {| name := name info; kind := kind info; file := file info;
                     inheritedTypes := inheritedTypes info;
                     accessibility := accessibility info; typeName := typeName info;
                     offset := offset info; len := len info;
                     extendedType := Some nm |})
        | Some b => Some (b, info)
        | None => None
        end
      else None
  | _, _ => None
  end.

(** What [walk] does at one node before it descends. *)
Definition visit (filePath : string) (t : SwiftTags) (symbols : Symbols) : Symbols :=
  match entryOf filePath t with
  | Some (b, x) => push b x symbols
  | None => symbols
  end.

Fixpoint walk (filePath : string) (node : SwiftNode) (symbols : Symbols) : Symbols :=
  match node with
  | SNull => symbols
  | SNode t subs =>
      fold_left (fun acc child => walk filePath child acc) subs (visit filePath t symbols)
  end.

Definition extractSymbols (ast : SwiftNode) (filePath : string) : Symbols :=
  walk filePath ast noSymbols.

(** Member extraction.  The loop over the direct children of the matched
    node reads [m['key.kind']] without a null check. *)
Definition addMember (m : SwiftNode) (members : Members) : Result Members :=
  match m with
  | SNull => Throw
  | SNode t _ =>
      let memberKind := or_empty (key_kind t) in
      let memberName := or_empty (key_name t) in
      let type := key_typename t in
      let access := remove_first swiftAccessPrefix <$> key_accessibility t in
      if (includes "function" memberKind || includes "method" memberKind)%bool then
        if startsWith "init" memberName then
          Ok (mkMembers (properties members) (methods members)
                (initializers members ++ [mkMethod memberName None access]))
        else
          Ok (mkMembers (properties members)
                (methods members ++ [mkMethod memberName type access])
                (initializers members))
      else if includes "var" memberKind then
        Ok (mkMembers (properties members ++ [mkProperty memberName type access])
              (methods members) (initializers members))
      else Ok members
  end.

Definition extractMembers (children : list SwiftNode) : Result Members :=
  fold_left (fun acc m => members ← acc; addMember m members) children (Ok noMembers).

Definition matchesSymbol (t : SwiftTags) (symbolName : string) : bool :=
  (truthy (key_kind t) && truthy (key_name t)
   && bool_decide (key_name t = Some symbolName))%bool.

Fixpoint findAndExtractMembers (node : SwiftNode) (symbolName : string)
  : Result (option Members) :=
  match node with
  | SNull => Ok None
  | SNode t subs =>
      if matchesSymbol t symbolName then
        members ← extractMembers subs; Ok (Some members)
      else
        (fix search (l : list SwiftNode) : Result (option Members) :=
           match l with
           | [] => Ok None
           | child :: rest =>
               result ← findAndExtractMembers child symbolName;
               match result with
               | Some members => Ok (Some members)
               | None => search rest
               end
           end) subs
  end.

Definition extractMemberData (ast : SwiftNode) (symbols : Symbols)
  : Result (gmap string Members) :=
  let allSymbols := classes symbols ++ structs symbols ++ protocols symbols ++ enums symbols in
  fold_left
    (fun acc symbol =>
       memberData ← acc;
       members ← findAndExtractMembers ast (name symbol);
       match members with
       | Some ms => Ok (<[name symbol := ms]> memberData)
       | None => Ok memberData
       end)
    allSymbols (Ok ∅).

(** ** Shape B: Clang JSON trees *)

(** A reference object such as [node.super], [node.interface] or an entry
    of [node.protocols]: tags [id] and [name]. *)
Record ObjCRef := mkRef {
  ref_id : option string;
  ref_name : option string
}.

(** [node.range]: [begin.offset] and [end.offset]. *)
Record ObjCRange := mkRange {
  begin_offset : option Z;
  end_offset : option Z
}.

(** Tags of a Clang node: [kind], [name], [isImplicit], [super],
    [protocols], [interface], [loc.offset], [range],
    [returnType.qualType] and [type.qualType]. *)
Record ObjCTags := mkObjCTags {
  o_kind : option string;
  o_name : option string;
  o_isImplicit : bool;
  o_super : option ObjCRef;
  o_protocols : option (list ObjCRef);
  o_interface : option ObjCRef;
  o_loc_offset : option Z;
  o_range : option ObjCRange;
  o_returnType : option string;
  o_type : option string
}.

Inductive ObjCNode :=
| ONull
| ONode (tags : ObjCTags) (inner : list ObjCNode).

Definition CLANG_NULL_POINTER : string := "0x0".

Definition calculateRangeLength (range : option ObjCRange) : option Z :=
  match range with
  | Some r =>
      match begin_offset r, end_offset r with
      | Some b, Some e => Some (e - b)%Z
      | _, _ => None
      end
  | None => None
  end.

(** [kind === k && name]: the name when the test succeeds. *)
Definition namedAs (k : string) (t : ObjCTags) : option string :=
  match o_name t with
  | Some nm =>
      if (bool_decide (o_kind t = Some k) && truthy (Some nm))%bool then Some nm else None
  | None => None
  end.

Definition objcAccess (filePath : string) : string :=
  if endsWith ".h" filePath then "public" else "internal".

(** The superclass name pushed first, when [node.super] is present, its
    [id] is not the null pointer and its [name] is truthy. *)
Definition superNames (t : ObjCTags) : list string :=
  match o_super t with
  | Some s =>
      if bool_decide (ref_id s = Some CLANG_NULL_POINTER) then []
      else match ref_name s with
           | Some n => if truthy (Some n) then [n] else []
           | None => []
           end
  | None => []
  end.

(** The loop over [node.protocols], keeping the truthy names. *)
Definition protocolNames (t : ObjCTags) : list string :=
  flat_map
    (fun p => match ref_name p with
              | Some n => if truthy (Some n) then [n] else []
              | None => []
              end)
    (default [] (o_protocols t)).

Definition objcInfo (filePath nm knd : string) (inherited : list string)
    (ext : option string) (t : ObjCTags) : Symbol :=
  {| name := nm;
     kind := knd;
     file := filePath;
     inheritedTypes := inherited;
     accessibility := Some (objcAccess filePath);
     typeName := None;
     offset := o_loc_offset t;
     len := calculateRangeLength (o_range t);
     extendedType := ext |}.

(** One iteration of the member loop of an [ObjCInterfaceDecl]. *)
Definition addClassMember (access : string) (child : ObjCNode) (members : Members)
  : Result Members :=
  match child with
  | ONull => Throw
  | ONode t _ =>
      match namedAs "ObjCMethodDecl" t with
      | Some nm =>
          let methodInfo := mkMethod nm (o_returnType t) (Some access) in
          if (String.eqb nm "init" || startsWith "initWith" nm)%bool then
            Ok (mkMembers (properties members) (methods members)
                  (initializers members ++ [methodInfo]))
          else
            Ok (mkMembers (properties members) (methods members ++ [methodInfo])
                  (initializers members))
      | None =>
          match namedAs "ObjCPropertyDecl" t with
          | Some nm =>
              Ok (mkMembers (properties members ++ [mkProperty nm (o_type t) (Some access)])
                    (methods members) (initializers members))
          | None => Ok members
          end
      end
  end.

(** One iteration of the member loop of an [ObjCProtocolDecl]. *)
Definition addProtocolMember (access : string) (child : ObjCNode) (members : Members)
  : Result Members :=
  match child with
  | ONull => Throw
  | ONode t _ =>
      match namedAs "ObjCMethodDecl" t with
      | Some nm =>
          Ok (mkMembers (properties members)
                (methods members ++ [mkMethod nm (o_returnType t) (Some access)])
                (initializers members))
      | None =>
          match namedAs "ObjCPropertyDecl" t with
          | Some nm =>
              Ok (mkMembers (properties members ++ [mkProperty nm (o_type t) (Some access)])
                    (methods members) (initializers members))
          | None => Ok members
          end
      end
  end.

Definition membersLoop (step : ObjCNode -> Members -> Result Members)
    (children : list ObjCNode) : Result Members :=
  fold_left (fun acc child => members ← acc; step child members) children (Ok noMembers).

Definition ObjCState : Type := Symbols * gmap string Members.

(** The [ObjCInterfaceDecl] block of [extractObjCSymbols.walk]. *)
Definition visitInterface (filePath : string) (t : ObjCTags) (children : list ObjCNode)
    (st : ObjCState) : Result ObjCState :=
  match namedAs "ObjCInterfaceDecl" t with
  | Some nm =>
      if o_isImplicit t then Ok st
      else
        let info := objcInfo filePath nm "source.lang.objc.decl.class"
                      (superNames t ++ protocolNames t) None t in
        members ← membersLoop (addClassMember (objcAccess filePath)) children;
        Ok (push BClasses info st.1, <[nm := members]> st.2)
  | None => Ok st
  end.

(** The [ObjCProtocolDecl] block. *)
Definition visitProtocol (filePath : string) (t : ObjCTags) (children : list ObjCNode)
    (st : ObjCState) : Result ObjCState :=
  match namedAs "ObjCProtocolDecl" t with
  | Some nm =>
      if o_isImplicit t then Ok st
      else
        let info := objcInfo filePath nm "source.lang.objc.decl.protocol"
                      (protocolNames t) None t in
        members ← membersLoop (addProtocolMember (objcAccess filePath)) children;
        Ok (push BProtocols info st.1, <[nm := members]> st.2)
  | None => Ok st
  end.

(** The [ObjCCategoryDecl] block.  The second component tells whether the
    children are still to be walked: the malformed-category branch
    returns from [walk]. *)
Definition visitCategory (filePath : string) (t : ObjCTags) (st : ObjCState)
  : ObjCState * bool :=
  match namedAs "ObjCCategoryDecl" t with
  | Some nm =>
      if o_isImplicit t then (st, true)
      else
        match o_interface t ≫= ref_name with
        | Some interfaceName =>
            if truthy (Some interfaceName) then
              let categoryName := (interfaceName +:+ "(" +:+ nm +:+ ")")%string in
              let info := objcInfo filePath categoryName "source.lang.objc.decl.extension"
                            (protocolNames t) (Some interfaceName) t in
              (push BExtensions info st.1, st.2, true)
            else (st, false)
        | None => (st, false)
        end
  | None => (st, true)
  end.

(** The three [if] blocks of [extractObjCSymbols.walk], in order. *)
Definition visitObjC (filePath : string) (t : ObjCTags) (children : list ObjCNode)
    (st : ObjCState) : Result (ObjCState * bool) :=
  st1 ← visitInterface filePath t children st;
  st2 ← visitProtocol filePath t children st1;
  Ok (visitCategory filePath t st2).

Fixpoint walkObjC (filePath : string) (node : ObjCNode) (st : ObjCState)
  : Result ObjCState :=
  match node with
  | ONull => Ok st
  | ONode t children =>
      '(st', descend) ← visitObjC filePath t children st;
      if descend : bool then
        fold_left (fun acc child => s ← acc; walkObjC filePath child s) children (Ok st')
      else Ok st' 
  end.

Definition extractObjCSymbols (ast : ObjCNode) (filePath : string) : Result ObjCState :=
  walkObjC filePath ast (noSymbols, ∅).

(** ** The assembled graph *)

Record FileData := mkFileData {
  symbols : Symbols;
  memberData : gmap string Members;
  language : string
}.

Record TypeInfo := mkTypeInfo {
  ti_file : string;
  ti_kind : string;
  ti_symbol : Symbol
}.

(** An edge [{ from, to, fromSymbol, toSymbol }]; [to] is [None] when the
    value it is read from has no [file]. *)
Record Edge := mkEdge {
  e_from : string;
  e_to : option string;
  fromSymbol : string;
  toSymbol : string
}.

(** A [byName] location [{ file, kind }]. *)
Record Loc := mkLoc {
  loc_file : string;
  loc_kind : string
}.

Record Indexes := mkIndexes {
  byName : gmap string (list Loc);
  byKind : gmap string (list string);
  byFile : gmap string (list string)
}.

Record AstData := mkAstData {
  repoPath : string;
  files : list (string * FileData);
  typeMap : gmap string TypeInfo;
  edges : list Edge;
  indexes : Indexes
}.

(** [obj[k] = v] on an object whose keys are listed in insertion order. *)
Fixpoint obj_set {V} (k : string) (v : V) (o : list (string * V)) : list (string * V) :=
  match o with
  | [] => [(k, v)]
  | (k', v') :: rest =>
      if String.eqb k' k then (k', v) :: rest else (k', v') :: obj_set k v rest
  end.

(** [obj[k]] *)
Fixpoint obj_get {V} (k : string) (o : list (string * V)) : option V :=
  match o with
  | [] => None
  | (k', v') :: rest => if String.eqb k' k then Some v' else obj_get k rest
  end.

(** The map after [if (!m[k]) m[k] = []; m[k].push(x)] when the two
    statements complete; [Run.push] tells when they do. *)
Definition map_push {V} (k : string) (x : V) (m : gmap string (list V))
  : gmap string (list V) :=
  <[k := default [] (m !! k) ++ [x]]> m.

Definition getRelativePath (repo fullPath : string) : string :=
  if truthy (Some repo) then remove_first (repo +:+ "/") fullPath else fullPath.

(** *** Type map

    [typeMap[c.name] = { file, kind, symbol }].  A write under the key
    [__proto__] adds no own property: it makes the written entry the
    prototype of [typeMap].  The map records that entry under the key
    [__proto__], and [readTypeMap] reads the map accordingly. *)

Definition addTypes (rel knd : string) (l : list Symbol) (tm : gmap string TypeInfo)
  : gmap string TypeInfo :=
  fold_left (fun tm c => <[name c := mkTypeInfo rel knd c]> tm) l tm.

Definition addFileTypes (repo : string) (tm : gmap string TypeInfo)
    (entry : string * FileData) : gmap string TypeInfo :=
  let rel := getRelativePath repo entry.1 in
  let s := symbols entry.2 in
  addTypes rel "enum" (enums s)
    (addTypes rel "protocol" (protocols s)
       (addTypes rel "struct" (structs s)
          (addTypes rel "class" (classes s) tm))).

Definition buildTypeMap (repo : string) (fs : list (string * FileData))
  : gmap string TypeInfo :=
  fold_left (addFileTypes repo) fs ∅.

(** *** Edges *)

(** What [typeMap[k]] reads while [init_swift_repo] runs: an entry,
    another truthy value (with what its [file] property reads), or a
    falsy value. *)
Inductive TypeMapValue :=
| TypeEntry (ti : TypeInfo)
| OtherValue (itsFile : option string)
| Falsy.

(** [typeMap[k]]: an own entry; else, when an entry has been installed
    as prototype, that entry under [__proto__] and its three fields
    under their names (a string has no [file], the [symbol] object has
    one); else what [Object.prototype] holds. *)
Definition readTypeMap (tm : gmap string TypeInfo) (k : string) : TypeMapValue :=
  match tm !! k with
  | Some ti => TypeEntry ti
  | None =>
      match tm !! "__proto__" with
      | Some e =>
          if String.eqb k "file" then
            if String.eqb (ti_file e) "" then Falsy else OtherValue None
          else if String.eqb k "kind" then
            if String.eqb (ti_kind e) "" then Falsy else OtherValue None
          else if String.eqb k "symbol" then OtherValue (Some (file (ti_symbol e)))
          else if JsObject.ordinary k then Falsy else OtherValue None
      | None => if JsObject.ordinary k then Falsy else OtherValue None
      end
  end.

(** [if (typeMap[inherited]) edges.push({ from: rel,
    to: typeMap[inherited].file, fromSymbol: symbol.name,
    toSymbol: inherited })] *)
Definition addSymbolEdges (tm : gmap string TypeInfo) (rel : string)
    (es : list Edge) (symbol : Symbol) : list Edge :=
  fold_left
    (fun es inherited =>
       match readTypeMap tm inherited with
       | TypeEntry ti => es ++ [mkEdge rel (Some (ti_file ti)) (name symbol) inherited]
       | OtherValue itsFile => es ++ [mkEdge rel itsFile (name symbol) inherited]
       | Falsy => es
       end)
    (inheritedTypes symbol) es.

Definition addFileEdges (repo : string) (tm : gmap string TypeInfo)
    (es : list Edge) (entry : string * FileData) : list Edge :=
  let rel := getRelativePath repo entry.1 in
  let s := symbols entry.2 in
  let allTypes := classes s ++ structs s ++ enums s ++ extensions s in
  fold_left (addSymbolEdges tm rel) allTypes es.

Definition buildEdges (repo : string) (tm : gmap string TypeInfo)
    (fs : list (string * FileData)) : list Edge :=
  fold_left (addFileEdges repo tm) fs [].

(** *** Indexes

    The index loop as a function: what it has built when it completes.
    [Run.buildIndexes] below is the loop with its [TypeError]s. *)

Definition indexSymbol (rel knd : string) (ix : Indexes) (symbol : Symbol) : Indexes :=
  {| byName := map_push (name symbol) (mkLoc rel knd) (byName ix);
     byKind := map_push knd (name symbol) (byKind ix);
     byFile := map_push rel (name symbol) (byFile ix) |}.

Definition processSymbols (rel : string) (l : list Symbol) (knd : string)
    (ix : Indexes) : Indexes :=
  let ix0 :=
    match byKind ix !! knd with
    | Some _ => ix
    | None => mkIndexes (byName ix) (<[knd := []]> (byKind ix)) (byFile ix)
    end in
  fold_left (indexSymbol rel knd) l ix0.

Definition indexFile (repo : string) (ix : Indexes) (entry : string * FileData)
  : Indexes :=
  let rel := getRelativePath repo entry.1 in
  let s := symbols entry.2 in
  let ix0 := mkIndexes (byName ix) (byKind ix) (<[rel := []]> (byFile ix)) in
  processSymbols rel (functions s) "function"
    (processSymbols rel (enums s) "enum"
       (processSymbols rel (protocols s) "protocol"
          (processSymbols rel (structs s) "struct"
             (processSymbols rel (classes s) "class" ix0)))).

Definition buildIndexes (repo : string) (fs : list (string * FileData)) : Indexes :=
  fold_left (indexFile repo) fs (mkIndexes ∅ ∅ ∅).

(** The graph assembled by [init_swift_repo] from the [files] object,
    when the run completes. *)
Definition buildGraph (repo : string) (fs : list (string * FileData)) : AstData :=
  let tm := buildTypeMap repo fs in
  {| repoPath := repo;
     files := fs;
     typeMap := tm;
     edges := buildEdges repo tm fs;
     indexes := buildIndexes repo fs |}.

(** *** The two parse loops of [init_swift_repo]

    A source unit is its path and the outcome of running the external
    parser and [JSON.parse] on its output; [Throw] stands for a failure
    of either, which the [try / catch] of the loop absorbs. *)

Definition processSwift (fs : list (string * FileData))
    (unit : string * Result SwiftNode) : list (string * FileData) :=
  let r :=
    ast ← unit.2;
    let syms := extractSymbols ast unit.1 in
    md ← extractMemberData ast syms;
    Ok (mkFileData syms md "swift") in
  match r with
  | Ok fd => obj_set unit.1 fd fs
  | Throw => fs
  end.

Definition processObjC (fs : list (string * FileData))
    (unit : string * Result ObjCNode) : list (string * FileData) :=
  let r :=
    ast ← unit.2;
    '(syms, md) ← extractObjCSymbols ast unit.1;
    Ok (mkFileData syms md "objc") in
  match r with
  | Ok fd => obj_set unit.1 fd fs
  | Throw => fs
  end.

Definition parseAll (clangAvailable : bool)
    (swift : list (string * Result SwiftNode))
    (objc : list (string * Result ObjCNode)) : list (string * FileData) :=
  let fs := fold_left processSwift swift [] in
  if clangAvailable then fold_left processObjC objc fs else fs.

Definition init_swift_repo (repo : string) (clangAvailable : bool)
    (swift : list (string * Result SwiftNode))
    (objc : list (string * Result ObjCNode)) : AstData :=
  buildGraph repo (parseAll clangAvailable swift objc).

(** *** The run of the graph construction

    The statements of the index loop raise a [TypeError] when a symbol
    is named like a property of [Object.prototype]: [byName[name]] is
    then truthy, nothing is assigned, and the value has no [push].  The
    [try / catch] of the handler turns that into an error message, and
    no graph is stored. *)

Module Run.

(** [if (!m[k]) m[k] = []; m[k].push(x)] *)
Definition push {V} (k : string) (x : V) (m : gmap string (list V))
  : Result (gmap string (list V)) :=
  match JsObject.get m k with
  | JsObject.Own l => Ok (<[k := l ++ [x]]> m)
  | JsObject.Inherits _ => Throw
  | JsObject.Undefined => Ok (<[k := [x]]> m)
  end.

(** [m[k].push(x)] *)
Definition append {V} (k : string) (x : V) (m : gmap string (list V))
  : Result (gmap string (list V)) :=
  match JsObject.get m k with
  | JsObject.Own l => Ok (<[k := l ++ [x]]> m)
  | JsObject.Inherits _ => Throw
  | JsObject.Undefined => Throw
  end.

Definition indexSymbol (rel knd : string) (ix : Indexes) (symbol : Symbol)
  : Result Indexes :=
  names ← push (name symbol) (mkLoc rel knd) (byName ix);
  kinds ← append knd (name symbol) (byKind ix);
  paths ← append rel (name symbol) (byFile ix);
  Ok (mkIndexes names kinds paths).

Definition processSymbols (rel : string) (l : list Symbol) (knd : string)
    (ix : Indexes) : Result Indexes :=
  let ix0 :=
    match JsObject.get (byKind ix) knd with
    | JsObject.Undefined => mkIndexes (byName ix) (<[knd := []]> (byKind ix)) (byFile ix)
    | _ => ix
    end in
  fold_left (fun acc symbol => ix ← acc; indexSymbol rel knd ix symbol) l (Ok ix0).

Definition indexFile (repo : string) (acc : Result Indexes) (entry : string * FileData)
  : Result Indexes :=
  ix ← acc;
  let rel := getRelativePath repo entry.1 in
  let s := symbols entry.2 in
  let ix0 := mkIndexes (byName ix) (byKind ix) (<[rel := []]> (byFile ix)) in
  ix1 ← processSymbols rel (classes s) "class" ix0;
  ix2 ← processSymbols rel (structs s) "struct" ix1;
  ix3 ← processSymbols rel (protocols s) "protocol" ix2;
  ix4 ← processSymbols rel (enums s) "enum" ix3;
  processSymbols rel (functions s) "function" ix4.

Definition buildIndexes (repo : string) (fs : list (string * FileData))
  : Result Indexes :=
  fold_left (indexFile repo) fs (Ok (mkIndexes ∅ ∅ ∅)).

(** The type map, the edges and the indexes, in that order; [astData]
    is assigned when all three are built. *)
Definition buildGraph (repo : string) (fs : list (string * FileData))
  : Result AstData :=
  let tm := buildTypeMap repo fs in
  let es := buildEdges repo tm fs in
  ix ← buildIndexes repo fs;
  Ok (mkAstData repo fs tm es ix).

Definition init_swift_repo (repo : string) (clangAvailable : bool)
    (swift : list (string * Result SwiftNode))
    (objc : list (string * Result ObjCNode)) : Result AstData :=
  buildGraph repo (parseAll clangAvailable swift objc).

End Run.

(** ** Queries *)

(** The table [kindToPlural]. *)
Definition kindToPlural : gmap string string :=
  list_to_map [("class", "classes"); ("struct", "structs"); ("protocol", "protocols");
               ("enum", "enums"); ("function", "functions")].

(** [kindToPlural[kind] || `${kind}s`], as the property key it is used
    for: a value inherited from [Object.prototype] is truthy and is
    turned into its text. *)
Definition pluralKind (knd : string) : string :=
  match JsObject.get kindToPlural knd with
  | JsObject.Own plural => plural
  | JsObject.Inherits i => JsObject.inheritedText i
  | JsObject.Undefined => (knd +:+ "s")%string
  end.

(** [fileData.symbols[key]]; [symbols] is an object literal with seven
    own properties. *)
Definition symbolsByKey (key : string) (s : Symbols) : JsObject.Property (list Symbol) :=
  if String.eqb key "classes" then JsObject.Own (classes s)
  else if String.eqb key "structs" then JsObject.Own (structs s)
  else if String.eqb key "protocols" then JsObject.Own (protocols s)
  else if String.eqb key "functions" then JsObject.Own (functions s)
  else if String.eqb key "enums" then JsObject.Own (enums s)
  else if String.eqb key "extensions" then JsObject.Own (extensions s)
  else if String.eqb key "variables" then JsObject.Own (variables s)
  else match JsObject.inherited key with
       | Some i => JsObject.Inherits i
       | None => JsObject.Undefined
       end.

(** [astData.files[fullPath]] *)
Definition readFile (fs : list (string * FileData)) (fullPath : string)
  : JsObject.Property FileData :=
  match obj_get fullPath fs with
  | Some fd => JsObject.Own fd
  | None =>
      match JsObject.inherited fullPath with
      | Some i => JsObject.Inherits i
      | None => JsObject.Undefined
      end
  end.

(** A symbol with the file and kind it was found under:
    [{ ...symbol, file, symbolKind }]. *)
Record Resolved := mkResolved {
  r_symbol : Symbol;
  symbolKind : string
}.

(** A non-null result of [findSymbol]: a symbol, or the object
    [{ file: undefined, symbolKind: undefined }] that the fallback builds
    from a value inherited from [Object.prototype]. *)
Inductive Found :=
| FoundSymbol (r : Resolved)
| FoundInherited.

Definition withFile (s : Symbol) (f : string) : Symbol :=
  {| name := name s; kind := kind s; file := f;
     inheritedTypes := inheritedTypes s; accessibility := accessibility s;
     typeName := typeName s; offset := offset s; len := len s;
     extendedType := extendedType s |}.

(** [{ file, conformances }] *)
Record ExtensionUse := mkExtensionUse {
  x_file : string;
  conformances : list string
}.

(** [{ name, file }] *)
Record Inheritor := mkInheritor {
  i_name : string;
  i_file : string
}.

Record Usages := mkUsages {
  u_symbol : Resolved;
  u_members : Members;
  inheritedBy : list Inheritor;
  extendedIn : list ExtensionUse;
  referencedIn : list string
}.

Inductive ExplainResult :=
| NoAstLoaded
| SymbolNotFound
| Explained (u : Usages).

(** [{ name, kind, file, inherited }] *)
Record SearchHit := mkSearchHit {
  h_name : string;
  h_kind : string;
  h_file : string;
  h_inherited : list string
}.

Section Queries.

(** [path.join(a, b)] of the host library. *)
Variable path_join : string -> string -> string.

(** The index path of [findSymbol].  An inherited function has a
    [length] but no element [0], so reading [match.file] raises; an
    inherited [fileData] has no [symbols]; an inherited [symbolList] has
    no [find]. *)
Definition findByIndex (d : AstData) (symbolName : string) : Result (option Resolved) :=
  match JsObject.get (byName (indexes d)) symbolName with
  | JsObject.Own (match_ :: _) =>
      let fullPath := path_join (repoPath d) (loc_file match_) in
      match readFile (files d) fullPath with
      | JsObject.Own fileData =>
          match symbolsByKey (pluralKind (loc_kind match_)) (symbols fileData) with
          | JsObject.Own symbolList =>
              match List.find (fun s => String.eqb (name s) symbolName) symbolList with
              | Some symbol =>
                  Ok (Some (mkResolved (withFile symbol (loc_file match_)) (loc_kind match_)))
              | None => Ok None
              end
          | JsObject.Inherits _ => Throw
          | JsObject.Undefined => Ok None
          end
      | _ => Ok None
      end
  | JsObject.Own [] => Ok None
  | JsObject.Inherits (JsObject.InheritedFunction _ (S _)) => Throw
  | JsObject.Inherits _ => Ok None
  | JsObject.Undefined => Ok None
  end.

(** The type-map fallback of [findSymbol]. *)
Definition findByTypeMap (d : AstData) (symbolName : string) : option Found :=
  match JsObject.get (typeMap d) symbolName with
  | JsObject.Own typeInfo =>
      Some (FoundSymbol
              (mkResolved (withFile (ti_symbol typeInfo) (ti_file typeInfo))
                 (ti_kind typeInfo)))
  | JsObject.Inherits _ => Some FoundInherited
  | JsObject.Undefined => None
  end.

Definition findSymbolIn (d : AstData) (symbolName : string) : Result (option Found) :=
  r ← findByIndex d symbolName;
  match r with
  | Some symbol => Ok (Some (FoundSymbol symbol))
  | None => Ok (findByTypeMap d symbolName)
  end.

(** [findSymbol], reading the global [astData]. *)
Definition findSymbol (astData : option AstData) (symbolName : string)
  : Result (option Found) :=
  match astData with
  | None => Ok None
  | Some d => findSymbolIn d symbolName
  end.

(** [fileData?.memberData?.[symbolName] || { properties: [], methods: [],
    initializers: [] }].  An inherited value is truthy and has no
    [properties], so the handler raises when it writes the answer. *)
Definition membersOf (d : AstData) (symbolName fullPath : string) : Result Members :=
  match readFile (files d) fullPath with
  | JsObject.Own fileData =>
      match JsObject.get (memberData fileData) symbolName with
      | JsObject.Own members => Ok members
      | JsObject.Inherits _ => Throw
      | JsObject.Undefined => Ok noMembers
      end
  | _ => Ok noMembers
  end.

(** [astData.dependencyGraph.edges.filter(e => e.toSymbol === symbolName)
    .map(e => ({ name: e.fromSymbol, file: e.from }))] *)
Definition inheritorsOf (d : AstData) (symbolName : string) : list Inheritor :=
  List.map (fun e => mkInheritor (fromSymbol e) (e_from e))
    (List.filter (fun e => String.eqb (toSymbol e) symbolName) (edges d)).

(** [astData.indexes.byName[symbolName] || []], as the [for ... of] loop
    takes it: an inherited value is not iterable. *)
Definition symbolLocations (d : AstData) (symbolName : string) : Result (list Loc) :=
  match JsObject.get (byName (indexes d)) symbolName with
  | JsObject.Own locs => Ok locs
  | JsObject.Inherits _ => Throw
  | JsObject.Undefined => Ok []
  end.

(** [filesWithSymbol]: the files of the index locations of the name
    other than the symbol's own file. *)
Definition filesWithSymbol (locs : list Loc) (own : string) : gset string :=
  fold_left
    (fun acc loc =>
       if String.eqb (loc_file loc) own then acc else {[loc_file loc]} ∪ acc)
    locs ∅.

(** [s.typeName === symbolName || s.inheritedTypes?.includes(symbolName)] *)
Definition mentions (symbolName : string) (s : Symbol) : bool :=
  (bool_decide (typeName s = Some symbolName)
   || existsb (String.eqb symbolName) (inheritedTypes s))%bool.

(** [Object.values(fd.symbols).some(list => list.some(...))] *)
Definition anyMentions (symbolName : string) (s : Symbols) : bool :=
  existsb (fun b => existsb (mentions symbolName) (bucket b s)) allBuckets.

(** One iteration of the scan over [Object.entries(astData.files)]. *)
Definition scanFile (d : AstData) (symbolName own : string) (withSymbol : gset string)
    (acc : list ExtensionUse * list string) (entry : string * FileData)
  : list ExtensionUse * list string :=
  let rel := getRelativePath (repoPath d) entry.1 in
  if String.eqb rel own then acc
  else
    let exts :=
      fold_left
        (fun xs ext =>
           if String.eqb (name ext) symbolName
           then xs ++ [mkExtensionUse rel (inheritedTypes ext)]
           else xs)
        (extensions (symbols entry.2)) acc.1 in
    let usesSymbol :=
      (bool_decide (rel ∈ withSymbol) || anyMentions symbolName (symbols entry.2))%bool in
    (exts, if usesSymbol then acc.2 ++ [rel] else acc.2).

Definition usagesIn (d : AstData) (symbolName : string) (symbol : Resolved)
  : Result Usages :=
  let own := file (r_symbol symbol) in
  let fullPath := path_join (repoPath d) own in
  members ← membersOf d symbolName fullPath;
  locs ← symbolLocations d symbolName;
  let scanned :=
    fold_left (scanFile d symbolName own (filesWithSymbol locs own)) (files d) ([], []) in
  Ok (mkUsages symbol members (inheritorsOf d symbolName) scanned.1 scanned.2).

(** The analysis part of the [explain_symbol] handler.  For the object
    built from an inherited value, [path.join(repoPath, undefined)]
    raises. *)
Definition explain_symbol (astData : option AstData) (symbolName : string)
  : Result ExplainResult :=
  match astData with
  | None => Ok NoAstLoaded
  | Some d =>
      found ← findSymbol astData symbolName;
      match found with
      | None => Ok SymbolNotFound
      | Some FoundInherited => Throw
      | Some (FoundSymbol symbol) =>
          u ← usagesIn d symbolName symbol; Ok (Explained u)
      end
  end.

End Queries.

Section Search.

(** [String.prototype.toLowerCase] of the host. *)
Variable lower : string -> string.

(** The [add] closure of [search_symbols]. *)
Definition addHits (q rel : string) (l : list Symbol) (knd : string)
    (results : list SearchHit) : list SearchHit :=
  fold_left
    (fun results s =>
       if includes q (lower (name s))
       then results ++ [mkSearchHit (name s) knd rel (inheritedTypes s)]
       else results)
    l results.

Definition wants (type knd : string) : bool :=
  (String.eqb type "all" || String.eqb type knd)%bool.

Definition searchFile (repo q type : string) (results : list SearchHit)
    (entry : string * FileData) : list SearchHit :=
  let rel := getRelativePath repo entry.1 in
  let s := symbols entry.2 in
  let r1 := if wants type "class" then addHits q rel (classes s) "class" results else results in
  let r2 := if wants type "struct" then addHits q rel (structs s) "struct" r1 else r1 in
  let r3 := if wants type "protocol" then addHits q rel (protocols s) "protocol" r2 else r2 in
  let r4 := if wants type "function" then addHits q rel (functions s) "function" r3 else r3 in
  if wants type "enum" then addHits q rel (enums s) "enum" r4 else r4.

(** The result list of the [search_symbols] handler, before it is cut
    for display; [None] when no graph is loaded.  An absent [type]
    argument takes the default ["all"]. *)
Definition search_symbols (astData : option AstData) (query : string)
    (type : option string) : option (list SearchHit) :=
  match astData with
  | None => None
  | Some d =>
      let q := lower query in
      Some (fold_left (searchFile (repoPath d) q (default "all" type)) (files d) [])
  end.

End Search.

(** ** Reference notions used in the statements *)

(** The tags of the nodes of a tree in the order [walk] visits them. *)
Fixpoint preorder (node : SwiftNode) : list SwiftTags :=
  match node with
  | SNull => []
  | SNode t subs => t :: flat_map preorder subs
  end.

(** The names declared by a unit, in declaration (pre-order) order. *)
Definition declaredNames (filePath : string) (ast : SwiftNode) : list string :=
  omap (fun t => (fun e => name e.2) <$> entryOf filePath t) (preorder ast).

(** What the nodes of a list of tags contribute to one bucket. *)
Definition bucketEntries (filePath : string) (b : Bucket) (ts : list SwiftTags)
  : list Symbol :=
  omap (fun t => match entryOf filePath t with
                 | Some (b', x) => if decide (b' = b) then Some x else None
                 | None => None
                 end) ts.

(** The type-map entries a unit writes, in writing order. *)
Definition typeEntries (repo : string) (entry : string * FileData) : list TypeInfo :=
  let rel := getRelativePath repo entry.1 in
  let s := symbols entry.2 in
  (mkTypeInfo rel "class" <$> classes s) ++ (mkTypeInfo rel "struct" <$> structs s)
  ++ (mkTypeInfo rel "protocol" <$> protocols s) ++ (mkTypeInfo rel "enum" <$> enums s).

(** The buckets [processSymbols] is called on, with their kind, in call
    order. *)
Definition indexedKinds : list (Bucket * string) :=
  [(BClasses, "class"); (BStructs, "struct"); (BProtocols, "protocol");
   (BEnums, "enum"); (BFunctions, "function")].

(** The symbols of a unit that reach the indexes, with their index kind. *)
Definition indexEntries (fd : FileData) : list (string * Symbol) :=
  flat_map (fun bk => (fun s => (bk.2, s)) <$> bucket bk.1 (symbols fd)) indexedKinds.

(** The [byName] locations a unit contributes for one name. *)
Definition nameLocs (repo n : string) (entry : string * FileData) : list Loc :=
  (fun ks => mkLoc (getRelativePath repo entry.1) ks.1)
    <$> filter (fun ks => name ks.2 = n) (indexEntries entry.2).

(** A unit declares a class, struct, protocol or enum of that name. *)
Definition declaresType (fd : FileData) (n : string) : Prop :=
  ∃ s, s ∈ classes (symbols fd) ++ structs (symbols fd)
           ++ protocols (symbols fd) ++ enums (symbols fd) ∧ name s = n.

(** The buckets [search_symbols] reads, with their kind, in reading order. *)
Definition searchedKinds : list (Bucket * string) :=
  [(BClasses, "class"); (BStructs, "struct"); (BProtocols, "protocol");
   (BFunctions, "function"); (BEnums, "enum")].

(** The hits of one bucket, for a lower-casing function [lower]. *)
Definition hitsOf (lower : string -> string) (q rel knd : string) (l : list Symbol)
  : list SearchHit :=
  (fun s => mkSearchHit (name s) knd rel (inheritedTypes s))
    <$> filter (fun s => includes q (lower (name s)) = true) l.

(** ** Fixtures *)

Module Fixtures.

(** [path.join] on operands that are already normalised. *)
Definition simple_join (a b : string) : string := (a +:+ "/" +:+ b)%string.

(** [path.join] on such operands when the first may be ["."]: the
    leading [.] segment is dropped. *)
Definition dot_join (a b : string) : string :=
  if String.eqb a "." then b else simple_join a b.

(** The root of a SourceKitten structure: no kind, no name. *)
Definition swiftRoot (children : list SwiftNode) : SwiftNode :=
  SNode (mkSwiftTags None None None None None (Some 0%Z) (Some 100%Z)) children.

Definition swiftDecl (knd nm : string) (inherited : option (list string))
    (children : list SwiftNode) : SwiftNode :=
  SNode (mkSwiftTags (Some knd) (Some nm) inherited
           (Some "source.lang.swift.accessibility.internal") None None None) children.

Definition swiftClass := swiftDecl "source.lang.swift.decl.class".
Definition swiftStruct := swiftDecl "source.lang.swift.decl.struct".
Definition swiftExtension := swiftDecl "source.lang.swift.decl.extension".
Definition swiftMethod (nm : string) : SwiftNode :=
  swiftDecl "source.lang.swift.decl.function.method.instance" nm None [].

(** The root of a Clang dump. *)
Definition objcRoot (children : list ObjCNode) : ObjCNode :=
  ONode (mkObjCTags (Some "TranslationUnitDecl") None false None None None None None None None)
    children.

Definition objcInterface (nm : string) (protos : list string)
    (children : list ObjCNode) : ObjCNode :=
  ONode (mkObjCTags (Some "ObjCInterfaceDecl") (Some nm) false None
           (Some ((fun p => mkRef (Some "0x1") (Some p)) <$> protos)) None None None None None)
    children.

Definition objcProtocol (nm : string) (children : list ObjCNode) : ObjCNode :=
  ONode (mkObjCTags (Some "ObjCProtocolDecl") (Some nm) false None None None None None None None)
    children.

Definition objcCategory (nm target : string) (protos : list string) : ObjCNode :=
  ONode (mkObjCTags (Some "ObjCCategoryDecl") (Some nm) false None
           (Some ((fun p => mkRef (Some "0x2") (Some p)) <$> protos))
           (Some (mkRef (Some "0x3") (Some target))) None None None None)
    [].

Definition objcMethod (nm : string) : ObjCNode :=
  ONode (mkObjCTags (Some "ObjCMethodDecl") (Some nm) false None None None None None
           (Some "id") None) [].

(** One class with a resolvable and an unresolvable inherited type. *)
Definition baseUnit : string * Result SwiftNode :=
  ("/r/A.swift", Ok (swiftRoot [swiftClass "Base" None []])).
Definition childUnit : string * Result SwiftNode :=
  ("/r/B.swift", Ok (swiftRoot [swiftClass "Child" (Some ["Base"; "External"]) []])).
Definition inheritanceGraph : AstData :=
  init_swift_repo "/r" true [baseUnit; childUnit] [].

(** The project scanned from the root ["."]: a directory [sub.] holds
    [B.swift], next to a file [subB.swift]; both units have the relative
    path [subB.swift]. *)
Definition dotGraph : AstData :=
  init_swift_repo "." true
    [("A.swift", Ok (swiftRoot [swiftClass "Base" None []]));
     ("subB.swift", Ok (swiftRoot [swiftClass "Child" (Some ["Base"]) []]));
     ("sub./B.swift", Ok (swiftRoot [swiftClass "Other" (Some ["Base"]) []]))] [].

(** A class whose inheritance clause names [toString], a type of
    another module, and [External]. *)
Definition prototypeUnit : string * Result SwiftNode :=
  ("/r/A.swift", Ok (swiftRoot [swiftClass "Foo" (Some ["toString"; "External"]) []])).
Definition prototypeGraph : AstData :=
  init_swift_repo "/r" true [prototypeUnit] [].

(** Unit A nests one [enum CodingKeys], unit B nests two. *)
Definition codingKeysUnits : list (string * Result SwiftNode) :=
  [("/r/A.swift",
    Ok (swiftRoot [swiftStruct "A" None
                     [swiftDecl "source.lang.swift.decl.enum" "CodingKeys" None []]]));
   ("/r/B.swift",
    Ok (swiftRoot [swiftStruct "X" None
                     [swiftDecl "source.lang.swift.decl.enum" "CodingKeys" None []];
                   swiftStruct "Y" None
                     [swiftDecl "source.lang.swift.decl.enum" "CodingKeys" None []]]))].
Definition codingKeysFiles : list (string * FileData) :=
  parseAll true codingKeysUnits [].

(** A class with a class method and a base class. *)
Definition factoryGraph : AstData :=
  init_swift_repo "/r" true
    [("/r/A.swift",
      Ok (swiftRoot [swiftClass "Base" None []]));
     ("/r/B.swift",
      Ok (swiftRoot [swiftClass "Factory" (Some ["Base"])
                       [swiftDecl "source.lang.swift.decl.function.method.class" "make()"
                          None []]]))] [].

(** Two units each declaring a class [Foo]. *)
Definition fooUnit (path : string) : string * Result SwiftNode :=
  (path, Ok (swiftRoot [swiftClass "Foo" None []])).
Definition duplicateFiles : list (string * FileData) :=
  parseAll true [fooUnit "/r/A.swift"; fooUnit "/r/B.swift"] [].
Definition duplicateGraph : AstData := buildGraph "/r" duplicateFiles.

(** A unit whose only declaration is an extension. *)
Definition extensionOnlyUnit : string * Result SwiftNode :=
  ("/r/B.swift", Ok (swiftRoot [swiftExtension "Foo" (Some ["Bar"]) []])).

(** Class [Foo] in unit A, a Swift extension of [Foo] adding [Bar] in
    unit B. *)
Definition swiftExtensionGraph : AstData :=
  init_swift_repo "/r" true [fooUnit "/r/A.swift"; extensionOnlyUnit] [].

(** Class [Foo] in unit A, an Objective-C category [Foo (Extras)]
    adopting [Bar] in unit B. *)
Definition categoryUnit : string * Result ObjCNode :=
  ("/r/B.m", Ok (objcRoot [objcCategory "Extras" "Foo" ["Bar"]])).
Definition objcCategoryGraph : AstData :=
  init_swift_repo "/r" true []
    [("/r/A.h", Ok (objcRoot [objcInterface "Foo" [] []])); categoryUnit].

(** A struct declared before a class in the same unit. *)
Definition mixedAst : SwiftNode :=
  swiftRoot [swiftStruct "UserA" None []; swiftClass "UserB" None []].

(** Two classes and a struct whose names contain "user". *)
Definition userGraph : AstData :=
  init_swift_repo "/r" true
    [("/r/A.swift", Ok (swiftRoot [swiftClass "UserManager" None [];
                                   swiftClass "UserViewModel" None []]));
     ("/r/B.swift", Ok (swiftRoot [swiftStruct "UserDefaultsBox" None []]))] [].

(** A named node whose kind matches none of the substrings. *)
Definition typealiasTags : SwiftTags :=
  mkSwiftTags (Some "source.lang.swift.decl.typealias") (Some "Alias")
    None None None None None.

(** A kind tag that contains both "class" and "struct". *)
Definition classStructTags : SwiftTags :=
  mkSwiftTags (Some "decl.struct.class") (Some "Both") None None None None None.

(** A Swift class with members [init], [initialize] and [run]. *)
Definition swiftMembersAst : SwiftNode :=
  swiftRoot [swiftClass "Service" None
               [swiftMethod "init()"; swiftMethod "initialize()"; swiftMethod "run()"]].

(** An Objective-C class with four methods. *)
Definition objcMembersAst : ObjCNode :=
  objcRoot [objcInterface "Service" []
              [objcMethod "init"; objcMethod "initWithName:";
               objcMethod "initialize"; objcMethod "initFromData:"]].

(** An Objective-C protocol declaring [init]. *)
Definition objcProtocolAst : ObjCNode :=
  objcRoot [objcProtocol "Startable" [objcMethod "init"; objcMethod "start"]].

End Fixtures.

(** The edges one symbol of a unit contributes. *)
Definition symbolEdges (tm : gmap string TypeInfo) (rel : string) (symbol : Symbol)
  : list Edge :=
  flat_map (fun inherited =>
              match readTypeMap tm inherited with
              | TypeEntry ti => [mkEdge rel (Some (ti_file ti)) (name symbol) inherited]
              | OtherValue itsFile => [mkEdge rel itsFile (name symbol) inherited]
              | Falsy => []
              end) (inheritedTypes symbol).

(** One write into the type map. *)
Definition writeType (tm : gmap string TypeInfo) (ti : TypeInfo) : gmap string TypeInfo :=
  <[name (ti_symbol ti) := ti]> tm.

(** One write into [byName]. *)
Definition writeName (rel : string) (m : gmap string (list Loc)) (ks : string * Symbol)
  : gmap string (list Loc) :=
  map_push (name ks.2) (mkLoc rel ks.1) m.

(** The [extendedIn] entries one unit contributes for a name, when the
    symbol's own file is [own]. *)
Definition extensionUses (repo n own : string) (entry : string * FileData)
  : list ExtensionUse :=
  let rel := getRelativePath repo entry.1 in
  if String.eqb rel own then []
  else (fun ext => mkExtensionUse rel (inheritedTypes ext))
         <$> filter (fun ext => name ext = n) (extensions (symbols entry.2)).

(** The [referencedIn] entry one unit contributes, if any. *)
Definition referenceOf (repo n own : string) (withSymbol : gset string)
    (entry : string * FileData) : list string :=
  let rel := getRelativePath repo entry.1 in
  if String.eqb rel own then []
  else if (bool_decide (rel ∈ withSymbol) || anyMentions n (symbols entry.2))%bool
       then [rel] else [].

(** The [extendedIn] list of an answer of [explain_symbol]. *)
Definition extendedInOf (r : Result ExplainResult) : option (list ExtensionUse) :=
  match r with
  | Ok (Explained u) => Some (extendedIn u)
  | _ => None
  end.

(** The hits one unit contributes to a search. *)
Definition fileHits (lower : string -> string) (repo q type : string)
    (entry : string * FileData) : list SearchHit :=
  flat_map
    (fun bk =>
       if wants type bk.2
       then hitsOf lower q (getRelativePath repo entry.1) bk.2 (bucket bk.1 (symbols entry.2))
       else [])
    searchedKinds.

(** The kind test of the member loop of [findAndExtractMembers]. *)
Definition isMethodKind (t : SwiftTags) : bool :=
  (includes "function" (or_empty (key_kind t))
   || includes "method" (or_empty (key_kind t)))%bool.

(** The initializer a direct child of a Shape A node becomes, if any. *)
Definition swiftInitializerOf (child : SwiftNode) : option Method :=
  match child with
  | SNode t _ =>
      if (isMethodKind t && startsWith "init" (or_empty (key_name t)))%bool
      then Some (mkMethod (or_empty (key_name t)) None
                   (remove_first swiftAccessPrefix <$> key_accessibility t))
      else None
  | SNull => None
  end.

(** The regular method a direct child of a Shape A node becomes, if any. *)
Definition swiftMethodOf (child : SwiftNode) : option Method :=
  match child with
  | SNode t _ =>
      if (isMethodKind t && negb (startsWith "init" (or_empty (key_name t))))%bool
      then Some (mkMethod (or_empty (key_name t)) (key_typename t)
                   (remove_first swiftAccessPrefix <$> key_accessibility t))
      else None
  | SNull => None
  end.

(** The initializer test of the Shape B class loop. *)
Definition isObjCInit (nm : string) : bool :=
  (String.eqb nm "init" || startsWith "initWith" nm)%bool.

(** The initializer a child of an [ObjCInterfaceDecl] becomes, if any. *)
Definition objcInitializerOf (access : string) (child : ObjCNode) : option Method :=
  match child with
  | ONode t _ =>
      match namedAs "ObjCMethodDecl" t with
      | Some nm => if isObjCInit nm then Some (mkMethod nm (o_returnType t) (Some access))
                   else None
      | None => None
      end
  | ONull => None
  end.

(** The regular method a child of an [ObjCInterfaceDecl] becomes, if any. *)
Definition objcMethodOf (access : string) (child : ObjCNode) : option Method :=
  match child with
  | ONode t _ =>
      match namedAs "ObjCMethodDecl" t with
      | Some nm => if isObjCInit nm then None
                   else Some (mkMethod nm (o_returnType t) (Some access))
      | None => None
      end
  | ONull => None
  end.

(** The member record stored for a name by a Shape A extraction. *)
Definition swiftMembersOf (ast : SwiftNode) (filePath n : string) : option Members :=
  match extractMemberData ast (extractSymbols ast filePath) with
  | Ok md => md !! n
  | Throw => None
  end.

(** The member record stored for a name by a Shape B extraction. *)
Definition objcMembersOf (ast : ObjCNode) (filePath n : string) : option Members :=
  match extractObjCSymbols ast filePath with
  | Ok st => st.2 !! n
  | Throw => None
  end.

(** Every symbol of every bucket has a non-empty name. *)
Definition namesOk (s : Symbols) : Prop :=
  forall b x, x ∈ bucket b s -> name x <> "".

(** A Shape A tag record with its name tag replaced. *)
Definition swiftWithName (t : SwiftTags) (o : option string) : SwiftTags :=
  mkSwiftTags (key_kind t) o (key_inheritedtypes t) (key_accessibility t)
    (key_typename t) (key_offset t) (key_length t).

(** A Shape B tag record with its name tag replaced. *)
Definition objcWithName (t : ObjCTags) (o : option string) : ObjCTags :=
  mkObjCTags (o_kind t) o (o_isImplicit t) (o_super t) (o_protocols t)
    (o_interface t) (o_loc_offset t) (o_range t) (o_returnType t) (o_type t).

(** Every name listed in [byKind] and in [byFile] is non-empty. *)
Definition valuesOk (ix : Indexes) : Prop :=
  (forall k l y, byKind ix !! k = Some l -> y ∈ l -> y <> "")
  /\ (forall k l y, byFile ix !! k = Some l -> y ∈ l -> y <> "").

(** Whether [extractObjCSymbols.walk] goes on to the children of a node:
    not below a category whose interface name cannot be determined. *)
Definition descendsInto (t : ObjCTags) : bool :=
  match namedAs "ObjCCategoryDecl" t with
  | Some _ =>
      if o_isImplicit t then true
      else truthy (o_interface t ≫= ref_name)
  | None => true
  end.

(** The tags of the nodes of a Clang tree in the order the walk visits
    them. *)
Fixpoint preorderObjC (node : ObjCNode) : list ObjCTags :=
  match node with
  | ONull => []
  | ONode t children =>
      t :: (if descendsInto t then flat_map preorderObjC children else [])
  end.

(** What a Clang node contributes to the symbol buckets, in pushing
    order. *)
Definition objcEntriesOf (filePath : string) (t : ObjCTags) : list (Bucket * Symbol) :=
  match namedAs "ObjCInterfaceDecl" t with
  | Some nm =>
      if o_isImplicit t then []
      else [(BClasses, objcInfo filePath nm "source.lang.objc.decl.class"
                         (superNames t ++ protocolNames t) None t)]
  | None => []
  end
  ++ match namedAs "ObjCProtocolDecl" t with
     | Some nm =>
         if o_isImplicit t then []
         else [(BProtocols, objcInfo filePath nm "source.lang.objc.decl.protocol"
                              (protocolNames t) None t)]
     | None => []
     end
  ++ match namedAs "ObjCCategoryDecl" t with
     | Some nm =>
         if o_isImplicit t then []
         else
           match o_interface t ≫= ref_name with
           | Some interfaceName =>
               if truthy (Some interfaceName) then
                 [(BExtensions,
                   objcInfo filePath (interfaceName +:+ "(" +:+ nm +:+ ")")%string
                     "source.lang.objc.decl.extension"
                     (protocolNames t) (Some interfaceName) t)]
               else []
           | None => []
           end
     | None => []
     end.

(** What the nodes of a list of Clang tags contribute to one bucket. *)
Definition objcBucketEntries (filePath : string) (b : Bucket) (ts : list ObjCTags)
  : list Symbol :=
  flat_map (fun t => snd <$> filter (fun e => e.1 = b) (objcEntriesOf filePath t)) ts.

(** The names declared by a Shape B unit, in declaration (pre-order)
    order. *)
Definition declaredNamesObjC (filePath : string) (ast : ObjCNode) : list string :=
  flat_map (fun t => (fun e => name e.2) <$> objcEntriesOf filePath t) (preorderObjC ast).

(** ** Further parts of the server *)

From Stdlib Require Import Sorted.

(** *** Source discovery and project detection *)

(** A directory entry as [fs.readdir(dir, { withFileTypes: true })]
    returns it, together with the entries of the directory it names: the
    name, [isDirectory()], [isFile()], and what [readdir] returns for it
    when it is a directory.  Symbolic links are neither, so a listing is
    a finite tree. *)
Inductive FsEntry :=
| FsNode (e_name : string) (isDirectory isFile : bool) (children : list FsEntry).

Definition entryName (e : FsEntry) : string :=
  match e with FsNode n _ _ _ => n end.

Definition entryIsDirectory (e : FsEntry) : bool :=
  match e with FsNode _ d _ _ => d end.

(** [{ swift: [], objc: [] }] *)
Record SourceFiles := mkSourceFiles {
  sf_swift : list string;
  sf_objc : list string
}.

(** The [skip] list of [findSourceFiles]. *)
Definition skipList : list string :=
  ["Pods"; ".build"; "build"; "DerivedData"; ".git"; "Carthage"; "node_modules"].

(** [skip.includes(name)] *)
Definition skipped (n : string) : bool := existsb (String.eqb n) skipList.

(** What the loop of [scan] does with an entry that is not a directory
    to descend into. *)
Definition addSource (fullPath n : string) (isFile : bool) (acc : SourceFiles)
  : SourceFiles :=
  if isFile then
    if endsWith ".swift" n then mkSourceFiles (sf_swift acc ++ [fullPath]) (sf_objc acc)
    else if (endsWith ".m" n || endsWith ".h" n)%bool
         then mkSourceFiles (sf_swift acc) (sf_objc acc ++ [fullPath])
         else acc
  else acc.

(** [entry.name.endsWith('.xcworkspace') && entry.isDirectory()] *)
Definition isWorkspaceDir (e : FsEntry) : bool :=
  (endsWith ".xcworkspace" (entryName e) && entryIsDirectory e)%bool.

(** [entry.name.endsWith('.xcodeproj') && entry.isDirectory()] *)
Definition isProjectDir (e : FsEntry) : bool :=
  (endsWith ".xcodeproj" (entryName e) && entryIsDirectory e)%bool.

(** The result of [detectProjectType]. *)
Record ProjectInfo := mkProjectInfo {
  pi_type : string;
  pi_path : string;
  pi_name : string
}.

Section HostPaths.

(** [path.join(a, b)] and [path.basename(p, ext)] of the host library. *)
Variable path_join : string -> string -> string.
Variable basename : string -> string -> string.

(** One iteration of the loop of [scan]. *)
Fixpoint scanEntry (currentDir : string) (e : FsEntry) (acc : SourceFiles)
  : SourceFiles :=
  match e with
  | FsNode n isDir isFile children =>
      let fullPath := path_join currentDir n in
      if (isDir && negb (skipped n))%bool then
        fold_left (fun acc c => scanEntry fullPath c acc) children acc
      else addSource fullPath n isFile acc
  end.

(** [findSourceFiles(dir)], given what [readdir(dir)] returns. *)
Definition findSourceFiles (dir : string) (entries : list FsEntry) : SourceFiles :=
  fold_left (fun acc e => scanEntry dir e acc) entries (mkSourceFiles [] []).

(** The loop of [detectProjectType]: the last matching directory of
    each kind is kept. *)
Definition detectStep (projectPath : string) (acc : option string * option string)
    (e : FsEntry) : option string * option string :=
  if isWorkspaceDir e
  then (Some (path_join projectPath (entryName e)), acc.2)
  else if isProjectDir e
       then (acc.1, Some (path_join projectPath (entryName e)))
       else acc.

Definition detectProjectType (projectPath : string) (entries : list FsEntry)
  : option ProjectInfo :=
  let found := fold_left (detectStep projectPath) entries (None, None) in
  if truthy found.1 then
    Some (mkProjectInfo "xcworkspace" (or_empty found.1)
            (basename (or_empty found.1) ".xcworkspace"))
  else if truthy found.2 then
    Some (mkProjectInfo "xcodeproj" (or_empty found.2)
            (basename (or_empty found.2) ".xcodeproj"))
  else None.

(** Scanning the entry [e] of directory [dir] gets to the entry [e'] of
    directory [d]: [e'] is [e] itself, or lies below [e] through
    directories that are not skipped. *)
Inductive reaches : string -> FsEntry -> string -> FsEntry -> Prop :=
| reaches_self dir e : reaches dir e dir e
| reaches_child dir n isFile children c d e :
    skipped n = false -> c ∈ children -> reaches (path_join dir n) c d e ->
    reaches dir (FsNode n true isFile children) d e.

(** The entries that [scan] hands to its file branch when it scans the
    entry [e] of [dir], and whose name [want]s to be kept: [p] is the
    joined path of such an entry. *)
Definition fileBranch (dir : string) (e : FsEntry) (want : string -> bool)
    (p : string) : Prop :=
  exists d n isDir ch,
    reaches dir e d (FsNode n isDir true ch)
    /\ (isDir && negb (skipped n))%bool = false
    /\ want n = true /\ p = path_join d n.

End HostPaths.

(** *** The counters of [init_swift_repo] *)

(** The body of the [try] block of the Swift loop. *)
Definition swiftOutcome (unit : string * Result SwiftNode) : Result FileData :=
  ast ← unit.2;
  let syms := extractSymbols ast unit.1 in
  md ← extractMemberData ast syms;
  Ok (mkFileData syms md "swift").

(** The body of the [try] block of the Objective-C loop. *)
Definition objcOutcome (unit : string * Result ObjCNode) : Result FileData :=
  ast ← unit.2;
  '(syms, md) ← extractObjCSymbols ast unit.1;
  Ok (mkFileData syms md "objc").

(** [swiftProcessed], [swiftErrors], [objcProcessed], [objcErrors] and
    the length of [errorDetails]. *)
Record Counters := mkCounters {
  swiftProcessed : nat;
  swiftErrors : nat;
  objcProcessed : nat;
  objcErrors : nat;
  errorDetails : nat
}.

Definition countSwift (c : Counters) (unit : string * Result SwiftNode) : Counters :=
  match swiftOutcome unit with
  | Ok _ => mkCounters (S (swiftProcessed c)) (swiftErrors c)
              (objcProcessed c) (objcErrors c) (errorDetails c)
  | Throw => mkCounters (swiftProcessed c) (S (swiftErrors c))
               (objcProcessed c) (objcErrors c) (S (errorDetails c))
  end.

Definition countObjC (c : Counters) (unit : string * Result ObjCNode) : Counters :=
  match objcOutcome unit with
  | Ok _ => mkCounters (swiftProcessed c) (swiftErrors c)
              (S (objcProcessed c)) (objcErrors c) (errorDetails c)
  | Throw => mkCounters (swiftProcessed c) (swiftErrors c)
               (objcProcessed c) (S (objcErrors c)) (S (errorDetails c))
  end.

Definition initCounters (clangAvailable : bool)
    (swift : list (string * Result SwiftNode))
    (objc : list (string * Result ObjCNode)) : Counters :=
  let c := fold_left countSwift swift (mkCounters 0 0 0 0 0) in
  if (clangAvailable && negb (Nat.eqb (length objc) 0))%bool then
    fold_left countObjC objc c
  else if (negb clangAvailable && negb (Nat.eqb (length objc) 0))%bool then
    mkCounters (swiftProcessed c) (swiftErrors c) (objcProcessed c)
      (length objc) (errorDetails c)
  else c.

(** *** [get_codebase_stats] *)

(** [{ file, count }] *)
Record FileSize := mkFileSize {
  fs_file : string;
  fs_count : nat
}.

Record Stats := mkStats {
  st_fileCount : nat;
  st_classes : nat;
  st_structs : nat;
  st_protocols : nat;
  st_enums : nat;
  st_functions : nat;
  st_extensions : nat;
  st_total : nat;
  st_fileSizes : list FileSize;
  st_largest : list FileSize
}.

Definition MAX_DISPLAY_FILES : nat := 5.
Definition MAX_DISPLAY_METHODS : nat := 10.

(** [Array.prototype.sort] is stable; with the comparator
    [(a, b) => b.count - a.count] its result is the stable arrangement
    by decreasing count, computed here by insertion. *)
Fixpoint insertBySize (x : FileSize) (l : list FileSize) : list FileSize :=
  match l with
  | [] => [x]
  | y :: rest =>
      if Nat.ltb (fs_count x) (fs_count y) then y :: insertBySize x rest
      else x :: l
  end.

Definition sortBySize (l : list FileSize) : list FileSize :=
  fold_right insertBySize [] l.

(** The per-file [total] of the loop: extensions are not counted. *)
Definition unitSize (repo : string) (entry : string * FileData) : FileSize :=
  let s := symbols entry.2 in
  mkFileSize (getRelativePath repo entry.1)
    (length (classes s) + length (structs s) + length (protocols s)
     + length (enums s) + length (functions s)).

Definition statsStep (repo : string) (acc : Stats) (entry : string * FileData) : Stats :=
  let s := symbols entry.2 in
  mkStats (st_fileCount acc)
    (st_classes acc + length (classes s))
    (st_structs acc + length (structs s))
    (st_protocols acc + length (protocols s))
    (st_enums acc + length (enums s))
    (st_functions acc + length (functions s))
    (st_extensions acc + length (extensions s))
    (st_total acc)
    (st_fileSizes acc ++ [unitSize repo entry])
    (st_largest acc).

(** The figures of the [get_codebase_stats] handler; [None] when no
    graph is loaded. *)
Definition get_codebase_stats (astData : option AstData) : option Stats :=
  match astData with
  | None => None
  | Some d =>
      let acc := fold_left (statsStep (repoPath d)) (files d)
                   (mkStats 0 0 0 0 0 0 0 0 [] []) in
      let sorted := sortBySize (st_fileSizes acc) in
      Some (mkStats (length (files d))
              (st_classes acc) (st_structs acc) (st_protocols acc) (st_enums acc)
              (st_functions acc) (st_extensions acc)
              (st_classes acc + st_structs acc + st_protocols acc + st_enums acc)
              sorted (take MAX_DISPLAY_FILES sorted))
  end.

(** *** [get_file_overview] *)

(** A displayed section: its title, the items shown and the number of
    items left out. *)
Record OverviewSection := mkSection {
  sec_name : string;
  sec_items : list Symbol;
  sec_more : nat
}.

Inductive OverviewResult :=
| OverviewNoAst
| OverviewNoMatch
| OverviewMultiple (matches : list string)
| OverviewFile (rel : string) (sections : list OverviewSection).

(** The [sections] array. *)
Definition overviewSections (s : Symbols) : list (string * list Symbol) :=
  [("Classes", classes s); ("Structs", structs s); ("Protocols", protocols s);
   ("Enums", enums s); ("Extensions", extensions s); ("Functions", functions s)].

(** The sections that are printed: the non-empty ones, cut to
    [MAX_DISPLAY_METHODS] items. *)
Definition shownSections (s : Symbols) : list OverviewSection :=
  flat_map
    (fun sec =>
       if Nat.ltb 0 (length sec.2) then
         [mkSection sec.1 (take MAX_DISPLAY_METHODS sec.2)
            (length sec.2 - MAX_DISPLAY_METHODS)]
       else [])
    (overviewSections s).

Section Overview.

(** [String.prototype.toLowerCase] of the host. *)
Variable lower : string -> string.

(** [Object.keys(astData.files).filter(f => f.toLowerCase().includes(input.toLowerCase()))] *)
Definition matchingFiles (d : AstData) (input : string) : list string :=
  List.filter (fun f => includes (lower input) (lower f)) (fst <$> files d).

Definition get_file_overview (astData : option AstData) (input : string)
  : OverviewResult :=
  match astData with
  | None => OverviewNoAst
  | Some d =>
      match matchingFiles d input with
      | [] => OverviewNoMatch
      | [fullPath] =>
          match obj_get fullPath (files d) with
          | Some fileData =>
              OverviewFile (getRelativePath (repoPath d) fullPath)
                (shownSections (symbols fileData))
          | None => OverviewNoMatch
          end
      | matches => OverviewMultiple (getRelativePath (repoPath d) <$> matches)
      end
  end.

End Overview.

(** *** Reference notions for the statements below *)

(** The nodes of a tree, with their children, in pre-order. *)
Fixpoint preorderNodes (node : SwiftNode) : list (SwiftTags * list SwiftNode) :=
  match node with
  | SNull => []
  | SNode t subs => (t, subs) :: flat_map preorderNodes subs
  end.

(** A listing with the contents of the skipped directories removed. *)
Fixpoint pruneSkipped (e : FsEntry) : FsEntry :=
  match e with
  | FsNode n isDir isFile children =>
      if (isDir && skipped n)%bool then FsNode n isDir isFile []
      else FsNode n isDir isFile (pruneSkipped <$> children)
  end.

(** The outcomes of the units that parsed. *)
Definition parsedUnits {A} (outcome : string * Result A -> Result FileData)
    (units : list (string * Result A)) : list (string * FileData) :=
  omap (fun unit => match outcome unit with
                    | Ok fd => Some (unit.1, fd)
                    | Throw => None
                    end) units.

(** Decreasing order of count. *)
Definition bySizeDesc (a b : FileSize) : Prop := fs_count b <= fs_count a.

(** The names a unit contributes to [byKind] under one kind. *)
Definition kindNames (k : string) (fd : FileData) : list string :=
  flat_map (fun bk => if decide (k = bk.2) then name <$> bucket bk.1 (symbols fd) else [])
    indexedKinds.

(** The buckets the type map is built from, with their kind. *)
Definition typeKinds : list (Bucket * string) :=
  [(BClasses, "class"); (BStructs, "struct"); (BProtocols, "protocol"); (BEnums, "enum")].

(** The symbols whose inherited types become edges. *)
Definition edgeSources (fd : FileData) : list Symbol :=
  classes (symbols fd) ++ structs (symbols fd) ++ enums (symbols fd)
  ++ extensions (symbols fd).

(** No symbol that reaches the indexes is named like a property of
    [Object.prototype]. *)
Definition ordinaryNames (fs : list (string * FileData)) : bool :=
  forallb (fun u => forallb (fun ks => JsObject.ordinary (name ks.2)) (indexEntries u.2)) fs.

(** Every key of a map is an ordinary one. *)
Definition ordinaryKeys {V} (m : gmap string V) : Prop :=
  forall k, is_Some (m !! k) -> JsObject.ordinary k = true.

(** What the loop relies on at a symbol of kind [knd] in the unit [rel]. *)
Definition indexReady (rel knd : string) (ix : Indexes) : Prop :=
  ordinaryKeys (byName ix) /\ is_Some (byKind ix !! knd) /\ is_Some (byFile ix !! rel).

(** The state the loop is in while it indexes the unit [rel]. *)
Definition unitReady (rel : string) (ix : Indexes) : Prop :=
  ordinaryKeys (byName ix) /\ is_Some (byFile ix !! rel).

(** *** A sample folder *)

Module HostFixtures.

(** [path.basename(p, ext)] on slash-separated paths. *)
Fixpoint lastSegment (s : string) : string :=
  match s with
  | EmptyString => EmptyString
  | String c r =>
      if includes "/" r then lastSegment r
      else if Ascii.eqb c "/" then r else String c r
  end.

Definition simple_basename (p ext : string) : string :=
  let b := lastSegment p in
  if endsWith ext b then String.substring 0 (String.length b - String.length ext) b
  else b.

(** A project folder with both a project and a workspace, sources, and
    a [Pods] directory. *)
Definition sampleFolder : list FsEntry :=
  [ FsNode "App.xcodeproj" true false [];
    FsNode "App.xcworkspace" true false [];
    FsNode "Sources" true false
      [ FsNode "Model.swift" false true [];
        FsNode "Bridge.h" false true [];
        FsNode "Bridge.m" false true [];
        FsNode "README.md" false true [] ];
    FsNode "Pods" true false
      [ FsNode "Vendor.swift" false true [] ] ].

End HostFixtures.

(** * Properties *)

(** ** Loops that push onto an accumulator *)

Lemma fold_left_ext {A B} (f g : A -> B -> A) (l : list B) (a : A) :
  (forall a x, f a x = g a x) -> fold_left f l a = fold_left g l a.
Proof.
  intros E. revert a. induction l as [|x l IH]; intros a; simpl; [done|].
  by rewrite E, IH.
Qed.

Section PushLoops.
Context {A B : Type}.

Lemma fold_left_push (f : B -> list A) (l : list B) (acc : list A) :
  fold_left (fun acc x => acc ++ f x) l acc = acc ++ flat_map f l.
Proof.
  revert acc. induction l as [|x l IH]; intros acc; simpl.
  - by rewrite app_nil_r.
  - by rewrite IH, app_assoc.
Qed.

Lemma fold_left_pushes (step : list A -> B -> list A) (f : B -> list A)
    (l : list B) (acc : list A) :
  (forall acc x, step acc x = acc ++ f x) ->
  fold_left step l acc = acc ++ flat_map f l.
Proof.
  intros E. rewrite (fold_left_ext step (fun acc x => acc ++ f x)) by done.
  apply fold_left_push.
Qed.
End PushLoops.

Lemma elem_of_flat_map {A B} (f : A -> list B) (l : list A) (y : B) :
  y ∈ flat_map f l <-> exists x, x ∈ l /\ y ∈ f x.
Proof.
  rewrite list_elem_of_In, in_flat_map.
  split; intros (x & H1 & H2); exists x; by rewrite ?list_elem_of_In in *.
Qed.

(** ** Edges *)

Lemma addSymbolEdges_spec tm rel es symbol :
  addSymbolEdges tm rel es symbol = es ++ symbolEdges tm rel symbol.
Proof.
  unfold addSymbolEdges, symbolEdges. apply fold_left_pushes.
  intros acc x. destruct (readTypeMap tm x); [done|done|by rewrite app_nil_r].
Qed.

Lemma buildEdges_spec repo tm fs :
  buildEdges repo tm fs =
  flat_map (fun entry =>
              flat_map (symbolEdges tm (getRelativePath repo entry.1))
                (classes (symbols entry.2) ++ structs (symbols entry.2)
                 ++ enums (symbols entry.2) ++ extensions (symbols entry.2))) fs.
Proof.
  unfold buildEdges.
  rewrite (fold_left_pushes _
    (fun entry => flat_map (symbolEdges tm (getRelativePath repo entry.1))
       (classes (symbols entry.2) ++ structs (symbols entry.2)
        ++ enums (symbols entry.2) ++ extensions (symbols entry.2)))); [done|].
  intros acc entry. unfold addFileEdges. apply fold_left_pushes.
  intros; apply addSymbolEdges_spec.
Qed.

(** ** Loops that write into a map *)

Lemma fold_left_flat_map {A B C} (f : A -> C -> A) (g : B -> list C) (l : list B) (a : A) :
  fold_left f (flat_map g l) a = fold_left (fun a x => fold_left f (g x) a) l a.
Proof.
  revert a. induction l as [|x l IH]; intros a; simpl; [done|].
  by rewrite fold_left_app, IH.
Qed.

Lemma fold_left_fmap {A B C} (f : A -> C -> A) (h : B -> C) (l : list B) (a : A) :
  fold_left f (h <$> l) a = fold_left (fun a x => f a (h x)) l a.
Proof. revert a. induction l as [|x l IH]; intros a; simpl; [done|]. apply IH. Qed.

(** Overwriting inserts: the last write of a key wins. *)
Lemma fold_insert_lookup {V X} (k : X -> string) (v : X -> V) (l : list X)
    (m : gmap string V) (n : string) :
  fold_left (fun m x => <[k x := v x]> m) l m !! n =
  match last (filter (fun x => k x = n) l) with
  | Some x => Some (v x)
  | None => m !! n
  end.
Proof.
  induction l as [|x l IH] using rev_ind; [done|].
  rewrite fold_left_app, filter_app. simpl.
  destruct (decide (k x = n)) as [E|E].
  - rewrite filter_cons_True by done. rewrite filter_nil, last_snoc.
    rewrite E. apply lookup_insert_eq.
  - rewrite filter_cons_False by done. rewrite filter_nil, app_nil_r.
    rewrite lookup_insert_ne by done. apply IH.
Qed.

(** Appending pushes: every write of a key is kept, in order. *)
Lemma fold_push_lookup {V X} (k : X -> string) (v : X -> V) (l : list X)
    (m : gmap string (list V)) (n : string) :
  default [] (fold_left (fun m x => map_push (k x) (v x) m) l m !! n) =
  default [] (m !! n) ++ (v <$> filter (fun x => k x = n) l).
Proof.
  induction l as [|x l IH] using rev_ind; [by simpl; rewrite app_nil_r|].
  rewrite fold_left_app, filter_app, fmap_app. simpl. unfold map_push at 1.
  destruct (decide (k x = n)) as [E|E].
  - rewrite filter_cons_True by done. rewrite filter_nil. simpl.
    rewrite E, lookup_insert_eq. simpl. rewrite IH.
    by rewrite <- app_assoc.
  - rewrite filter_cons_False by done. rewrite filter_nil. simpl.
    rewrite lookup_insert_ne by done. by rewrite IH, app_nil_r.
Qed.

Lemma fold_push_lookup_None {V X} (k : X -> string) (v : X -> V) (l : list X)
    (m : gmap string (list V)) (n : string) :
  fold_left (fun m x => map_push (k x) (v x) m) l m !! n = None <->
  m !! n = None /\ filter (fun x => k x = n) l = [].
Proof.
  induction l as [|x l IH] using rev_ind; [by simpl; intuition|].
  rewrite fold_left_app, filter_app. simpl. unfold map_push at 1.
  destruct (decide (k x = n)) as [E|E].
  - rewrite filter_cons_True by done. rewrite E, lookup_insert_eq.
    split; [done|]. intros [_ H]. by destruct (filter _ l).
  - rewrite filter_cons_False by done. rewrite filter_nil, app_nil_r.
    by rewrite lookup_insert_ne.
Qed.

(** ** Type map *)

Lemma addFileTypes_spec repo tm entry :
  addFileTypes repo tm entry = fold_left writeType (typeEntries repo entry) tm.
Proof.
  unfold addFileTypes, typeEntries, addTypes.
  rewrite !fold_left_app, !fold_left_fmap. reflexivity.
Qed.

Lemma buildTypeMap_spec repo fs :
  buildTypeMap repo fs = fold_left writeType (flat_map (typeEntries repo) fs) ∅.
Proof.
  unfold buildTypeMap. rewrite fold_left_flat_map.
  apply fold_left_ext. intros; apply addFileTypes_spec.
Qed.

Lemma typeMap_lookup repo fs n :
  buildTypeMap repo fs !! n =
  last (filter (fun ti => name (ti_symbol ti) = n) (flat_map (typeEntries repo) fs)).
Proof.
  rewrite buildTypeMap_spec. unfold writeType.
  rewrite (fold_insert_lookup (fun ti => name (ti_symbol ti)) (fun ti => ti)).
  by destruct (last _).
Qed.

Lemma typeEntries_file repo entry ti :
  ti ∈ typeEntries repo entry -> ti_file ti = getRelativePath repo entry.1.
Proof.
  unfold typeEntries. rewrite !elem_of_app, !list_elem_of_fmap.
  intros [H|[H|[H|H]]]; destruct H as (s & -> & _); reflexivity.
Qed.

Lemma typeEntries_declares repo entry n :
  declaresType entry.2 n <->
  exists ti, ti ∈ typeEntries repo entry /\ name (ti_symbol ti) = n.
Proof.
  unfold declaresType, typeEntries. split.
  - intros (s & Hs & Hn). rewrite !elem_of_app in Hs.
    destruct Hs as [H|[H|[H|H]]];
      [exists (mkTypeInfo (getRelativePath repo entry.1) "class" s)
      |exists (mkTypeInfo (getRelativePath repo entry.1) "struct" s)
      |exists (mkTypeInfo (getRelativePath repo entry.1) "protocol" s)
      |exists (mkTypeInfo (getRelativePath repo entry.1) "enum" s)];
      (split; [|done]); rewrite !elem_of_app, !list_elem_of_fmap; eauto 10.
  - intros (ti & Hti & Hn). rewrite !elem_of_app, !list_elem_of_fmap in Hti.
    exists (ti_symbol ti). split; [|done]. rewrite !elem_of_app.
    destruct Hti as [H|[H|[H|H]]]; destruct H as (s & -> & Hs); simpl; eauto.
Qed.

Lemma filter_flat_map_nil {A B} (P : B -> Prop) `{!forall x, Decision (P x)}
    (g : A -> list B) (l : list A) :
  (forall x y, x ∈ l -> y ∈ g x -> ~ P y) -> filter P (flat_map g l) = [].
Proof.
  intros Hall. induction l as [|x l IH]; simpl; [done|].
  rewrite filter_app, IH.
  - rewrite app_nil_r. destruct (filter P (g x)) as [|y r] eqn:E; [done|].
    assert (y ∈ filter P (g x)) as Hy by (rewrite E; left).
    apply list_elem_of_filter in Hy as [HP Hy]. exfalso. eapply Hall; [left|done..].
  - intros x' y Hx'. apply Hall. by right.
Qed.

(** The unit that declares a type name last owns its type-map entry. *)
Lemma typeMap_last_wins repo pre entry post n :
  declaresType entry.2 n ->
  (forall u, u ∈ post -> ~ declaresType u.2 n) ->
  exists ti, buildTypeMap repo (pre ++ entry :: post) !! n = Some ti
             /\ ti ∈ typeEntries repo entry /\ name (ti_symbol ti) = n.
Proof.
  intros Hd Hpost. rewrite typeMap_lookup.
  rewrite flat_map_app. simpl. rewrite !filter_app.
  rewrite (filter_flat_map_nil _ _ post), app_nil_r.
  2:{ intros u ti Hu Hti Hn. apply (Hpost u Hu).
      apply (typeEntries_declares repo). eauto. }
  apply (typeEntries_declares repo) in Hd as (ti0 & Hti0 & Hn0).
  assert (ti0 ∈ filter (fun ti => name (ti_symbol ti) = n) (typeEntries repo entry)) as Hin
    by (apply list_elem_of_filter; done).
  destruct (last (filter (fun ti => name (ti_symbol ti) = n) (typeEntries repo entry)))
    as [ti|] eqn:El.
  - exists ti. split.
    + apply last_Some in El as (l' & El). rewrite El, app_assoc. apply last_snoc.
    + apply last_Some_elem_of in El. by apply list_elem_of_filter in El as [? ?].
  - apply last_None in El. rewrite El in Hin. by apply elem_of_nil in Hin.
Qed.

(** ** The name index *)

Lemma byName_indexSymbol rel knd l ix :
  byName (fold_left (indexSymbol rel knd) l ix) =
  fold_left (writeName rel) ((fun s => (knd, s)) <$> l) (byName ix).
Proof.
  revert ix. induction l as [|s l IH]; intros ix; simpl; [done|]. by rewrite IH.
Qed.

Lemma byName_processSymbols rel l knd ix :
  byName (processSymbols rel l knd ix) =
  fold_left (writeName rel) ((fun s => (knd, s)) <$> l) (byName ix).
Proof.
  unfold processSymbols. rewrite byName_indexSymbol. by destruct (byKind ix !! knd).
Qed.

Lemma byName_indexFile repo ix entry :
  byName (indexFile repo ix entry) =
  fold_left (writeName (getRelativePath repo entry.1)) (indexEntries entry.2) (byName ix).
Proof.
  unfold indexFile, indexEntries, indexedKinds. simpl.
  rewrite !byName_processSymbols, app_nil_r, !fold_left_app. reflexivity.
Qed.

Lemma byName_lookup repo fs n :
  default [] (byName (buildIndexes repo fs) !! n) = flat_map (nameLocs repo n) fs.
Proof.
  unfold buildIndexes.
  assert (forall ix,
    default [] (byName (fold_left (indexFile repo) fs ix) !! n)
    = default [] (byName ix !! n) ++ flat_map (nameLocs repo n) fs) as H.
  { induction fs as [|entry fs IH]; intros ix; simpl; [by rewrite app_nil_r|].
    rewrite IH, byName_indexFile. unfold writeName.
    rewrite (fold_push_lookup (fun ks => name ks.2)
               (fun ks => mkLoc (getRelativePath repo entry.1) ks.1)).
    by rewrite <- app_assoc. }
  rewrite H. simpl. by rewrite lookup_empty.
Qed.

Lemma byName_lookup_None repo fs n :
  byName (buildIndexes repo fs) !! n = None <-> flat_map (nameLocs repo n) fs = [].
Proof.
  unfold buildIndexes.
  assert (forall ix,
    byName (fold_left (indexFile repo) fs ix) !! n = None
    <-> byName ix !! n = None /\ flat_map (nameLocs repo n) fs = []) as H.
  { induction fs as [|entry fs IH]; intros ix; simpl; [intuition|].
    rewrite IH, byName_indexFile. unfold writeName.
    rewrite (fold_push_lookup_None (fun ks => name ks.2)
               (fun ks => mkLoc (getRelativePath repo entry.1) ks.1)).
    unfold nameLocs at 2. split.
    - intros [[H1 H2] H3]. split; [done|]. by rewrite H2, H3.
    - intros [H1 H2]. apply app_eq_nil in H2 as [H2 H3].
      apply fmap_nil_inv in H2. done. }
  rewrite H. simpl. rewrite lookup_empty. intuition.
Qed.

Lemma nameLocs_declares repo n entry :
  declaresType entry.2 n -> nameLocs repo n entry <> [].
Proof.
  intros (s & Hs & Hn). unfold nameLocs.
  assert (exists k, (k, s) ∈ indexEntries entry.2) as [k Hk].
  { unfold indexEntries, indexedKinds. simpl.
    rewrite !elem_of_app in Hs.
    destruct Hs as [H|[H|[H|H]]];
      [exists "class"|exists "struct"|exists "protocol"|exists "enum"];
      rewrite !elem_of_app, !list_elem_of_fmap; eauto 12. }
  intros E. apply fmap_nil_inv in E.
  assert ((k, s) ∈ filter (fun ks => name ks.2 = n) (indexEntries entry.2)) as Hin
    by (apply list_elem_of_filter; done).
  rewrite E in Hin. by apply elem_of_nil in Hin.
Qed.


(** ** Resolving a name *)

Lemma find_first_named n (l1 l2 : list Symbol) s :
  name s = n -> (forall x, x ∈ l1 -> name x <> n) ->
  List.find (fun s => String.eqb (name s) n) (l1 ++ s :: l2) = Some s.
Proof.
  intros Hs Hl1. induction l1 as [|x l1 IH]; simpl.
  - by rewrite (proj2 (String.eqb_eq _ _) Hs).
  - rewrite (proj2 (String.eqb_neq _ _) (Hl1 x ltac:(left))).
    apply IH. intros y Hy. apply Hl1. by right.
Qed.


(** ** The Shape A walk *)

Lemma SwiftNode_nested_ind (P : SwiftNode -> Prop) :
  P SNull ->
  (forall t subs, Forall P subs -> P (SNode t subs)) ->
  forall node, P node.
Proof.
  intros Hnull Hnode. fix IH 1. intros [|t subs]; [exact Hnull|].
  apply Hnode. induction subs as [|c subs IHsubs]; constructor; [apply IH|exact IHsubs].
Qed.

Lemma bucket_push b b' x s :
  bucket b (push b' x s) = if decide (b' = b) then bucket b s ++ [x] else bucket b s.
Proof. by destruct b, b'. Qed.

Lemma bucket_visit filePath t syms b :
  bucket b (visit filePath t syms) = bucket b syms ++ bucketEntries filePath b [t].
Proof.
  unfold visit, bucketEntries. simpl.
  destruct (entryOf filePath t) as [[b' x]|]; simpl.
  - rewrite bucket_push. destruct (decide (b' = b)); simpl; by rewrite ?app_nil_r.
  - by rewrite app_nil_r.
Qed.

Lemma bucketEntries_app filePath b ts1 ts2 :
  bucketEntries filePath b (ts1 ++ ts2)
  = bucketEntries filePath b ts1 ++ bucketEntries filePath b ts2.
Proof. apply omap_app. Qed.

(** Each bucket receives, in visiting order, what the nodes of the tree
    contribute to it. *)
Lemma walk_spec filePath node :
  forall syms b,
    bucket b (walk filePath node syms)
    = bucket b syms ++ bucketEntries filePath b (preorder node).
Proof.
  induction node as [|t subs IH] using SwiftNode_nested_ind; intros syms b.
  - simpl. by rewrite app_nil_r.
  - change (preorder (SNode t subs)) with ([t] ++ flat_map preorder subs).
    change (walk filePath (SNode t subs) syms)
      with (fold_left (fun acc child => walk filePath child acc) subs
              (visit filePath t syms)).
    rewrite bucketEntries_app, app_assoc, <- bucket_visit.
    generalize (visit filePath t syms) as acc. clear t syms.
    induction IH as [|c subs Hc _ IHsubs]; intros acc.
    + simpl. by rewrite app_nil_r.
    + change (flat_map preorder (c :: subs)) with (preorder c ++ flat_map preorder subs).
      change (fold_left (fun acc child => walk filePath child acc) (c :: subs) acc)
        with (fold_left (fun acc child => walk filePath child acc) subs
                (walk filePath c acc)).
      rewrite IHsubs, Hc, bucketEntries_app. by rewrite app_assoc.
Qed.

Lemma extractSymbols_spec ast filePath b :
  bucket b (extractSymbols ast filePath) = bucketEntries filePath b (preorder ast).
Proof. unfold extractSymbols. rewrite walk_spec. by destruct b. Qed.

Lemma entryOf_name filePath t b x :
  entryOf filePath t = Some (b, x) -> key_name t = Some (name x) /\ name x <> "".
Proof.
  unfold entryOf. destruct (key_kind t) as [knd|]; [|done].
  destruct (key_name t) as [nm|]; [|done].
  destruct (truthy (Some knd) && truthy (Some nm))%bool eqn:E; [|done].
  apply andb_prop in E as [_ E]. simpl in E.
  assert (nm <> "") as Hnm.
  { intros ->. discriminate. }
  destruct (classify knd) as [[]|]; intros [= <- <-]; done.
Qed.

Lemma bucket_names_sublist filePath ast b :
  name <$> bucket b (extractSymbols ast filePath) `sublist_of` declaredNames filePath ast.
Proof.
  rewrite extractSymbols_spec. unfold bucketEntries, declaredNames.
  induction (preorder ast) as [|t ts IH]; simpl; [done|].
  destruct (entryOf filePath t) as [[b' x]|]; simpl; [|done].
  destruct (decide (b' = b)); simpl.
  - by apply sublist_skip.
  - by apply sublist_cons.
Qed.

(** ** Loops in the [Result] monad *)

Lemma fold_Throw {A B} (step : B -> A -> Result A) (l : list B) :
  fold_left (fun acc x => a ← acc; step x a) l Throw = Throw.
Proof. induction l as [|x l IH]; [done|]. exact IH. Qed.

Lemma fold_Result_cons {A B} (step : B -> A -> Result A) (c : B) (l : list B) (acc : A) :
  fold_left (fun acc x => a ← acc; step x a) (c :: l) (Ok acc)
  = fold_left (fun acc x => a ← acc; step x a) l (step c acc).
Proof. reflexivity. Qed.

(** A loop in the [Result] monad that ends normally went through a
    normal step at its head. *)
Lemma fold_Result_cons_inv {A B} (step : B -> A -> Result A) c l acc (r : A) :
  fold_left (fun acc x => a ← acc; step x a) (c :: l) (Ok acc) = Ok r ->
  exists acc', step c acc = Ok acc'
               /\ fold_left (fun acc x => a ← acc; step x a) l (Ok acc') = Ok r.
Proof.
  rewrite fold_Result_cons. destruct (step c acc) as [acc'|]; [eauto|].
  by rewrite fold_Throw.
Qed.

(** ** The Shape B walk *)

Lemma ObjCNode_nested_ind (P : ObjCNode -> Prop) :
  P ONull ->
  (forall t children, Forall P children -> P (ONode t children)) ->
  forall node, P node.
Proof.
  intros Hnull Hnode. fix IH 1. intros [|t children]; [exact Hnull|].
  apply Hnode. induction children as [|c children IHc]; constructor; [apply IH|exact IHc].
Qed.

Lemma visitInterface_buckets filePath t children st st' b :
  visitInterface filePath t children st = Ok st' ->
  bucket b st'.1
  = bucket b st.1
    ++ (snd <$> filter (fun e => e.1 = b)
                  match namedAs "ObjCInterfaceDecl" t with
                  | Some nm =>
                      if o_isImplicit t then []
                      else [(BClasses, objcInfo filePath nm "source.lang.objc.decl.class"
                                         (superNames t ++ protocolNames t) None t)]
                  | None => []
                  end).
Proof.
  unfold visitInterface. intros H.
  destruct (namedAs "ObjCInterfaceDecl" t) as [nm|];
    [|injection H as <-; by rewrite app_nil_r].
  destruct (o_isImplicit t); [injection H as <-; by rewrite app_nil_r|].
  destruct (membersLoop (addClassMember (objcAccess filePath)) children) as [ms|]; [|done].
  injection H as <-. cbn [fst]. rewrite bucket_push.
  destruct (decide (BClasses = b)) as [<-|Hb].
  - by rewrite filter_cons_True.
  - rewrite filter_cons_False by done. by rewrite app_nil_r.
Qed.

Lemma visitProtocol_buckets filePath t children st st' b :
  visitProtocol filePath t children st = Ok st' ->
  bucket b st'.1
  = bucket b st.1
    ++ (snd <$> filter (fun e => e.1 = b)
                  match namedAs "ObjCProtocolDecl" t with
                  | Some nm =>
                      if o_isImplicit t then []
                      else [(BProtocols, objcInfo filePath nm "source.lang.objc.decl.protocol"
                                           (protocolNames t) None t)]
                  | None => []
                  end).
Proof.
  unfold visitProtocol. intros H.
  destruct (namedAs "ObjCProtocolDecl" t) as [nm|];
    [|injection H as <-; by rewrite app_nil_r].
  destruct (o_isImplicit t); [injection H as <-; by rewrite app_nil_r|].
  destruct (membersLoop (addProtocolMember (objcAccess filePath)) children) as [ms|];
    [|done].
  injection H as <-. cbn [fst]. rewrite bucket_push.
  destruct (decide (BProtocols = b)) as [<-|Hb].
  - by rewrite filter_cons_True.
  - rewrite filter_cons_False by done. by rewrite app_nil_r.
Qed.

Lemma visitCategory_buckets filePath t st b :
  bucket b (visitCategory filePath t st).1.1
  = bucket b st.1
    ++ (snd <$> filter (fun e => e.1 = b)
                  match namedAs "ObjCCategoryDecl" t with
                  | Some nm =>
                      if o_isImplicit t then []
                      else
                        match o_interface t ≫= ref_name with
                        | Some interfaceName =>
                            if truthy (Some interfaceName) then
                              [(BExtensions,
                                objcInfo filePath
                                  (interfaceName +:+ "(" +:+ nm +:+ ")")%string
                                  "source.lang.objc.decl.extension"
                                  (protocolNames t) (Some interfaceName) t)]
                            else []
                        | None => []
                        end
                  | None => []
                  end).
Proof.
  unfold visitCategory.
  destruct (namedAs "ObjCCategoryDecl" t) as [nm|]; [|by rewrite app_nil_r].
  destruct (o_isImplicit t); [by rewrite app_nil_r|].
  destruct (o_interface t ≫= ref_name) as [interfaceName|]; [|by rewrite app_nil_r].
  destruct (truthy (Some interfaceName)); [|by rewrite app_nil_r].
  cbn [fst]. rewrite bucket_push.
  destruct (decide (BExtensions = b)) as [<-|Hb].
  - by rewrite filter_cons_True.
  - rewrite filter_cons_False by done. by rewrite app_nil_r.
Qed.

Lemma visitCategory_descends filePath t st :
  (visitCategory filePath t st).2 = descendsInto t.
Proof.
  unfold visitCategory, descendsInto.
  destruct (namedAs "ObjCCategoryDecl" t) as [nm|]; [|done].
  destruct (o_isImplicit t); [done|].
  destruct (o_interface t ≫= ref_name) as [interfaceName|]; [|done].
  by destruct (truthy (Some interfaceName)).
Qed.

Lemma visitObjC_buckets filePath t children st st' descend :
  visitObjC filePath t children st = Ok (st', descend) ->
  descend = descendsInto t
  /\ forall b, bucket b st'.1 = bucket b st.1 ++ objcBucketEntries filePath b [t].
Proof.
  unfold visitObjC. intros H.
  destruct (visitInterface filePath t children st) as [st1|] eqn:E1; [|done].
  change (Ok st1 ≫= _)
    with (st2 ← visitProtocol filePath t children st1;
          Ok (visitCategory filePath t st2)) in H.
  destruct (visitProtocol filePath t children st1) as [st2|] eqn:E2; [|done].
  change (Ok st2 ≫= _) with (Ok (visitCategory filePath t st2)) in H.
  injection H as H. split.
  - rewrite <- (visitCategory_descends filePath t st2). by rewrite H.
  - intros b. unfold objcBucketEntries, objcEntriesOf. simpl.
    rewrite app_nil_r, !filter_app, !fmap_app.
    replace st' with (visitCategory filePath t st2).1 by (by rewrite H).
    rewrite visitCategory_buckets.
    rewrite (visitProtocol_buckets _ _ _ _ _ b E2).
    rewrite (visitInterface_buckets _ _ _ _ _ b E1).
    by rewrite <- !app_assoc.
Qed.

Lemma objcBucketEntries_app filePath b ts1 ts2 :
  objcBucketEntries filePath b (ts1 ++ ts2)
  = objcBucketEntries filePath b ts1 ++ objcBucketEntries filePath b ts2.
Proof. unfold objcBucketEntries. apply flat_map_app. Qed.

(** Each bucket receives, in visiting order, what the visited nodes of a
    Clang tree contribute to it. *)
Lemma walkObjC_spec filePath node :
  forall st st' b,
    walkObjC filePath node st = Ok st' ->
    bucket b st'.1 = bucket b st.1 ++ objcBucketEntries filePath b (preorderObjC node).
Proof.
  induction node as [|t children IH] using ObjCNode_nested_ind; intros st st' b H.
  - injection H as <-. simpl. by rewrite app_nil_r.
  - change (walkObjC filePath (ONode t children) st)
      with ('(st1, descend) ← visitObjC filePath t children st;
            if descend : bool then
              fold_left (fun acc child => s ← acc; walkObjC filePath child s)
                children (Ok st1)
            else Ok st1) in H.
    destruct (visitObjC filePath t children st) as [[st1 descend]|] eqn:Ev; [|done].
    change (Ok (st1, descend) ≫= _)
      with (if descend then
              fold_left (fun acc child => s ← acc; walkObjC filePath child s)
                children (Ok st1)
            else Ok st1) in H.
    apply visitObjC_buckets in Ev as [-> Hb].
    change (preorderObjC (ONode t children))
      with ([t] ++ (if descendsInto t then flat_map preorderObjC children else [])).
    rewrite objcBucketEntries_app, app_assoc, <- Hb.
    destruct (descendsInto t); [|injection H as <-; simpl; by rewrite app_nil_r].
    clear Hb st t. revert st1 H.
    induction IH as [|c children Hc _ IHchildren]; intros st1 H.
    + injection H as <-. simpl. by rewrite app_nil_r.
    + apply (fold_Result_cons_inv (fun child s => walkObjC filePath child s)) in H
        as (st2 & Hstep & H).
      change (flat_map preorderObjC (c :: children))
        with (preorderObjC c ++ flat_map preorderObjC children).
      rewrite (IHchildren _ H), (Hc _ _ b Hstep), objcBucketEntries_app.
      by rewrite app_assoc.
Qed.

Lemma extractObjCSymbols_spec ast filePath syms md b :
  extractObjCSymbols ast filePath = Ok (syms, md) ->
  bucket b syms = objcBucketEntries filePath b (preorderObjC ast).
Proof.
  intros H. apply (walkObjC_spec _ _ _ _ b) in H. simpl in H. rewrite H. by destruct b.
Qed.

Lemma objc_bucket_names_sublist ast filePath syms md b :
  extractObjCSymbols ast filePath = Ok (syms, md) ->
  name <$> bucket b syms `sublist_of` declaredNamesObjC filePath ast.
Proof.
  intros H. rewrite (extractObjCSymbols_spec _ _ _ _ b H).
  unfold objcBucketEntries, declaredNamesObjC.
  induction (preorderObjC ast) as [|t ts IH]; simpl; [done|].
  rewrite fmap_app. apply sublist_app; [|exact IH].
  rewrite <- list_fmap_compose.
  change ((fun e : Bucket * Symbol => name e.2) <$> objcEntriesOf filePath t)
    with ((name ∘ snd) <$> objcEntriesOf filePath t).
  apply fmap_sublist, sublist_filter.
Qed.

(** ** Classification of a Shape A node *)

Lemma classify_priority knd :
  (includes "class" knd = true -> classify knd = Some BClasses)
  /\ (includes "class" knd = false -> includes "struct" knd = true ->
      classify knd = Some BStructs)
  /\ (includes "class" knd = false -> includes "struct" knd = false ->
      includes "protocol" knd = true -> classify knd = Some BProtocols)
  /\ (includes "class" knd = false -> includes "struct" knd = false ->
      includes "protocol" knd = false -> includes "enum" knd = true ->
      classify knd = Some BEnums)
  /\ (includes "class" knd = false -> includes "struct" knd = false ->
      includes "protocol" knd = false -> includes "enum" knd = false ->
      includes "extension" knd = true -> classify knd = Some BExtensions)
  /\ (includes "class" knd = false -> includes "struct" knd = false ->
      includes "protocol" knd = false -> includes "enum" knd = false ->
      includes "extension" knd = false ->
      includes "function" knd = true \/ includes "method" knd = true ->
      classify knd = Some BFunctions)
  /\ (includes "class" knd = false -> includes "struct" knd = false ->
      includes "protocol" knd = false -> includes "enum" knd = false ->
      includes "extension" knd = false ->
      includes "function" knd = false -> includes "method" knd = false ->
      includes "var" knd = true -> classify knd = Some BVariables)
  /\ (includes "class" knd = false -> includes "struct" knd = false ->
      includes "protocol" knd = false -> includes "enum" knd = false ->
      includes "extension" knd = false ->
      includes "function" knd = false -> includes "method" knd = false ->
      includes "var" knd = false -> classify knd = None).
Proof.
  unfold classify. repeat split; intros; repeat
    match goal with
    | H : includes _ _ = _ |- _ => rewrite H; clear H
    | H : _ \/ _ |- _ => destruct H
    end; simpl; try reflexivity.
  by rewrite orb_true_r.
Qed.

Lemma entryOf_classified filePath t knd nm :
  key_kind t = Some knd -> key_name t = Some nm -> knd <> "" -> nm <> "" ->
  entryOf filePath t =
  match classify knd with
  | Some b =>
      Some (b, mkSymbol nm knd filePath (default [] (key_inheritedtypes t))
                 (remove_first swiftAccessPrefix <$> key_accessibility t)
                 (key_typename t) (key_offset t) (key_length t)
                 (if decide (b = BExtensions) then Some nm else None))
  | None => None
  end.
Proof.
  intros Hk Hn Hk0 Hn0. unfold entryOf. rewrite Hk, Hn. simpl.
  rewrite (proj2 (String.eqb_neq _ _) Hk0), (proj2 (String.eqb_neq _ _) Hn0). simpl.
  by destruct (classify knd) as [[]|].
Qed.

(** C6 (as written): every node that carries a kind tag and a name tag
    lands in exactly one bucket.  The named [typealias] node of the
    fixture lands in none. *)
Lemma C6_counterexample :
  ~ (forall t : SwiftTags,
        is_Some (key_kind t) -> is_Some (key_name t) ->
        exists b, length (bucket b (extractSymbols (SNode t []) "/r/A.swift")) = 1).
Proof.
  intros H. destruct (H Fixtures.typealiasTags) as [b Hb]; [by eexists..|].
  destruct b; vm_compute in Hb; discriminate.
Qed.

(** C6 (amended). A node with a non-empty kind tag and a non-empty name
    tag is pushed into at most one bucket: the one chosen by the first
    case-sensitive substring test that succeeds, in the order class,
    struct, protocol, enum, extension, function or method, var; every
    other bucket is unchanged, and when no test succeeds no bucket
    changes.  A kind tag that contains both "class" and "struct" goes to
    the class bucket.  A node with no name tag, or an empty one, changes
    no bucket. *)
Theorem C6_classification :
  (forall filePath t syms knd nm,
      key_kind t = Some knd -> key_name t = Some nm -> knd <> "" -> nm <> "" ->
      match classify knd with
      | Some b =>
          (exists x, name x = nm /\ kind x = knd
                     /\ bucket b (visit filePath t syms) = bucket b syms ++ [x])
          /\ (forall b', b' <> b -> bucket b' (visit filePath t syms) = bucket b' syms)
      | None => visit filePath t syms = syms
      end)
  /\ (forall knd,
         (includes "class" knd = true -> classify knd = Some BClasses)
         /\ (includes "class" knd = false -> includes "struct" knd = true ->
             classify knd = Some BStructs)
         /\ (includes "class" knd = false -> includes "struct" knd = false ->
             includes "protocol" knd = true -> classify knd = Some BProtocols)
         /\ (includes "class" knd = false -> includes "struct" knd = false ->
             includes "protocol" knd = false -> includes "enum" knd = true ->
             classify knd = Some BEnums)
         /\ (includes "class" knd = false -> includes "struct" knd = false ->
             includes "protocol" knd = false -> includes "enum" knd = false ->
             includes "extension" knd = true -> classify knd = Some BExtensions)
         /\ (includes "class" knd = false -> includes "struct" knd = false ->
             includes "protocol" knd = false -> includes "enum" knd = false ->
             includes "extension" knd = false ->
             includes "function" knd = true \/ includes "method" knd = true ->
             classify knd = Some BFunctions)
         /\ (includes "class" knd = false -> includes "struct" knd = false ->
             includes "protocol" knd = false -> includes "enum" knd = false ->
             includes "extension" knd = false ->
             includes "function" knd = false -> includes "method" knd = false ->
             includes "var" knd = true -> classify knd = Some BVariables)
         /\ (includes "class" knd = false -> includes "struct" knd = false ->
             includes "protocol" knd = false -> includes "enum" knd = false ->
             includes "extension" knd = false ->
             includes "function" knd = false -> includes "method" knd = false ->
             includes "var" knd = false -> classify knd = None))
  /\ (forall filePath t syms,
         key_name t = None \/ key_name t = Some "" -> visit filePath t syms = syms)
  /\ (forall filePath b,
         bucket b (extractSymbols (SNode Fixtures.classStructTags []) filePath) <> []
         <-> b = BClasses)
  /\ classify "source.lang.swift.decl.Class" = None.
Proof.
  split; [|split; [|split; [|split]]].
  - intros filePath t syms knd nm Hk Hn Hk0 Hn0. unfold visit.
    rewrite (entryOf_classified filePath t knd nm Hk Hn Hk0 Hn0).
    destruct (classify knd) as [b|]; [|done]. split.
    + eexists. rewrite bucket_push. rewrite decide_True by done. by repeat split.
    + intros b' Hb'. rewrite bucket_push. by rewrite decide_False.
  - apply classify_priority.
  - intros filePath t syms [H|H]; unfold visit, entryOf; rewrite H;
      destruct (key_kind t); try done.
    by rewrite andb_false_r.
  - intros filePath b. destruct b; vm_compute; split; congruence.
  - reflexivity.
Qed.

Lemma C6_classification_witness :
  (exists x, name x = "Both" /\ kind x = "decl.struct.class"
             /\ bucket BClasses (visit "/r/A.swift" Fixtures.classStructTags noSymbols)
                = bucket BClasses noSymbols ++ [x])
  /\ visit "/r/A.swift" Fixtures.typealiasTags noSymbols = noSymbols.
Proof.
  destruct C6_classification as (H1 & _).
  split.
  - apply (H1 "/r/A.swift" Fixtures.classStructTags noSymbols "decl.struct.class" "Both");
      (reflexivity || discriminate).
  - apply (H1 "/r/A.swift" Fixtures.typealiasTags noSymbols
             "source.lang.swift.decl.typealias" "Alias");
      (reflexivity || discriminate).
Defined.

(** ** The file index *)

Lemma fold_push_same_key {V X} (k : string) (v : X -> V) (l : list X)
    (m : gmap string (list V)) (l0 : list V) :
  m !! k = Some l0 ->
  fold_left (fun m x => map_push k (v x) m) l m !! k = Some (l0 ++ (v <$> l)).
Proof.
  revert m l0. induction l as [|x l IH]; intros m l0 H; simpl.
  - by rewrite app_nil_r.
  - rewrite (IH _ (l0 ++ [v x])).
    + by rewrite <- app_assoc.
    + unfold map_push. by rewrite lookup_insert_eq, H.
Qed.

Lemma fold_push_other_key {V X} (k r : string) (v : X -> V) (l : list X)
    (m : gmap string (list V)) :
  r <> k -> fold_left (fun m x => map_push k (v x) m) l m !! r = m !! r.
Proof.
  intros Hr. revert m. induction l as [|x l IH]; intros m; simpl; [done|].
  rewrite IH. unfold map_push. by rewrite lookup_insert_ne.
Qed.

Lemma byFile_indexSymbol rel knd l ix :
  byFile (fold_left (indexSymbol rel knd) l ix)
  = fold_left (fun m s => map_push rel (name s) m) l (byFile ix).
Proof.
  revert ix. induction l as [|s l IH]; intros ix; simpl; [done|]. by rewrite IH.
Qed.

Lemma byFile_processSymbols rel l knd ix :
  byFile (processSymbols rel l knd ix)
  = fold_left (fun m s => map_push rel (name s) m) l (byFile ix).
Proof.
  unfold processSymbols. rewrite byFile_indexSymbol. by destruct (byKind ix !! knd).
Qed.

Lemma byFile_indexFile repo ix entry :
  byFile (indexFile repo ix entry)
  = fold_left (fun m s => map_push (getRelativePath repo entry.1) (name s) m)
      (snd <$> indexEntries entry.2)
      (<[getRelativePath repo entry.1 := []]> (byFile ix)).
Proof.
  unfold indexFile, indexEntries, indexedKinds. simpl.
  rewrite !byFile_processSymbols, app_nil_r, !fmap_app, !fold_left_app.
  rewrite <- !list_fmap_compose. simpl.
  by rewrite !list_fmap_id.
Qed.

Lemma byFile_snoc repo fs entry r :
  byFile (buildIndexes repo (fs ++ [entry])) !! r
  = if decide (r = getRelativePath repo entry.1)
    then Some (name <$> (snd <$> indexEntries entry.2))
    else byFile (buildIndexes repo fs) !! r.
Proof.
  unfold buildIndexes. rewrite fold_left_app. simpl. rewrite byFile_indexFile.
  destruct (decide (r = getRelativePath repo entry.1)) as [->|Hr].
  - rewrite (fold_push_same_key _ name _ _ []); [done|apply lookup_insert_eq].
  - rewrite fold_push_other_key by done. by rewrite lookup_insert_ne.
Qed.

(** With distinct unit identifiers, the file index of a unit lists the
    names of its indexed symbols in indexing order. *)
Lemma byFile_lookup repo fs entry :
  NoDup ((fun u => getRelativePath repo u.1) <$> fs) ->
  entry ∈ fs ->
  byFile (buildIndexes repo fs) !! getRelativePath repo entry.1
  = Some (name <$> (snd <$> indexEntries entry.2)).
Proof.
  induction fs as [|u fs IH] using rev_ind; intros Hnd Hin.
  - by apply elem_of_nil in Hin.
  - rewrite byFile_snoc. rewrite fmap_app in Hnd. apply NoDup_app in Hnd as (H1 & H2 & _).
    apply elem_of_app in Hin as [Hin|Hin].
    + destruct (decide _) as [E|E].
      * exfalso. apply (H2 (getRelativePath repo entry.1)).
        -- apply list_elem_of_fmap. by exists entry.
        -- simpl. rewrite E. left.
      * by apply IH.
    + apply list_elem_of_singleton in Hin. subst u. by rewrite decide_True.
Qed.

Lemma indexEntries_symbols fd :
  snd <$> indexEntries fd
  = classes (symbols fd) ++ structs (symbols fd) ++ protocols (symbols fd)
    ++ enums (symbols fd) ++ functions (symbols fd).
Proof.
  unfold indexEntries, indexedKinds. simpl.
  rewrite app_nil_r, !fmap_app, <- !list_fmap_compose. simpl.
  by rewrite !list_fmap_id.
Qed.

(** C5 (as written): the file index of a unit contains the name of every
    symbol of every bucket of the unit.  A unit whose only declaration is
    an extension has an empty file index. *)
Lemma C5_counterexample :
  ~ (forall repo clang swift objc p fd b s,
        (p, fd) ∈ files (init_swift_repo repo clang swift objc) ->
        s ∈ bucket b (symbols fd) ->
        exists l, byFile (indexes (init_swift_repo repo clang swift objc))
                    !! getRelativePath repo p = Some l
                  /\ name s ∈ l).
Proof.
  intros H.
  pose (ext := mkSymbol "Foo" "source.lang.swift.decl.extension" "/r/B.swift" ["Bar"]
                 (Some "internal") None None None (Some "Foo")).
  destruct (H "/r" true [Fixtures.extensionOnlyUnit] [] "/r/B.swift"
              (mkFileData (mkSymbols [] [] [] [] [] [ext] []) ∅ "swift")
              BExtensions ext) as (l & Hl & Hin).
  - vm_compute. left.
  - left.
  - vm_compute in Hl. injection Hl as <-. by apply elem_of_nil in Hin.
Qed.

(** C5 (amended). In a graph built from units with distinct identifiers,
    the file index of a unit is the list of the names of its classes,
    structs, protocols, enums and functions, in that order; so it
    contains the name of every symbol of these five buckets.  Extensions
    and variables are not indexed. *)
Theorem C5_byFile_indexed repo fs p fd s :
  NoDup ((fun u => getRelativePath repo u.1) <$> fs) ->
  (p, fd) ∈ fs ->
  s ∈ classes (symbols fd) \/ s ∈ structs (symbols fd) \/ s ∈ protocols (symbols fd)
  \/ s ∈ enums (symbols fd) \/ s ∈ functions (symbols fd) ->
  exists l, byFile (indexes (buildGraph repo fs)) !! getRelativePath repo p = Some l
            /\ l = name <$> (classes (symbols fd) ++ structs (symbols fd)
                             ++ protocols (symbols fd) ++ enums (symbols fd)
                             ++ functions (symbols fd))
            /\ name s ∈ l.
Proof.
  intros Hnd Hin Hs. eexists. split; [|split; [reflexivity|]].
  - pose proof (byFile_lookup repo fs (p, fd) Hnd Hin) as E. simpl in *.
    rewrite E. by rewrite indexEntries_symbols.
  - apply list_elem_of_fmap. exists s. split; [done|].
    rewrite !elem_of_app. tauto.
Qed.

Lemma C5_byFile_indexed_witness :
  exists l, byFile (indexes Fixtures.inheritanceGraph) !! "B.swift" = Some l
            /\ "Child" ∈ l.
Proof.
  pose (child := mkSymbol "Child" "source.lang.swift.decl.class" "/r/B.swift"
                   ["Base"; "External"] (Some "internal") None None None None).
  destruct (C5_byFile_indexed "/r" (files Fixtures.inheritanceGraph) "/r/B.swift"
              (mkFileData (mkSymbols [child] [] [] [] [] [] []) {["Child" := noMembers]} "swift")
              child) as (l & H1 & _ & H3).
  - apply (bool_decide_unpack _). vm_compute. exact I.
  - vm_compute. right. left.
  - left. left.
  - exists l. split; [exact H1|exact H3].
Defined.

(** ** The usage scan of [explain_symbol] *)

Lemma scan_extensions rel n (l : list Symbol) (acc : list ExtensionUse) :
  fold_left
    (fun xs ext =>
       if String.eqb (name ext) n
       then xs ++ [mkExtensionUse rel (inheritedTypes ext)]
       else xs) l acc
  = acc ++ ((fun ext => mkExtensionUse rel (inheritedTypes ext))
              <$> filter (fun ext => name ext = n) l).
Proof.
  revert acc. induction l as [|ext l IH]; intros acc; simpl.
  - by rewrite app_nil_r.
  - rewrite IH. destruct (String.eqb_spec (name ext) n) as [E|E].
    + rewrite filter_cons_True by done. simpl. by rewrite <- app_assoc.
    + by rewrite filter_cons_False.
Qed.

Lemma scanFile_spec d n own ws acc entry :
  scanFile d n own ws acc entry
  = (acc.1 ++ extensionUses (repoPath d) n own entry,
     acc.2 ++ referenceOf (repoPath d) n own ws entry).
Proof.
  unfold scanFile, extensionUses, referenceOf.
  destruct (String.eqb (getRelativePath (repoPath d) entry.1) own).
  - rewrite !app_nil_r. by destruct acc.
  - rewrite scan_extensions. f_equal.
    destruct (_ || _)%bool; [done|by rewrite app_nil_r].
Qed.

Lemma scan_spec d n own ws fs acc :
  fold_left (scanFile d n own ws) fs acc
  = (acc.1 ++ flat_map (extensionUses (repoPath d) n own) fs,
     acc.2 ++ flat_map (referenceOf (repoPath d) n own ws) fs).
Proof.
  revert acc. induction fs as [|entry fs IH]; intros acc; simpl.
  - rewrite !app_nil_r. by destruct acc.
  - rewrite IH, scanFile_spec. simpl. by rewrite <- !app_assoc.
Qed.

(** What [usagesIn] returns when it does not raise. *)
Lemma usagesIn_Ok pj d n sym u :
  usagesIn pj d n sym = Ok u ->
  exists members locs,
    membersOf d n (pj (repoPath d) (file (r_symbol sym))) = Ok members
    /\ symbolLocations d n = Ok locs
    /\ u = mkUsages sym members (inheritorsOf d n)
            (flat_map (extensionUses (repoPath d) n (file (r_symbol sym))) (files d))
            (flat_map (referenceOf (repoPath d) n (file (r_symbol sym))
                         (filesWithSymbol locs (file (r_symbol sym)))) (files d)).
Proof.
  unfold usagesIn. intros H.
  destruct (membersOf d n _) as [members|] eqn:Em; [|done].
  destruct (symbolLocations d n) as [locs|] eqn:El; [|done].
  cbv [mbind Result_bind rbind] in H. injection H as <-.
  exists members, locs. split; [done|]. split; [done|].
  by rewrite scan_spec.
Qed.

Lemma extendedIn_spec pj d n sym u :
  usagesIn pj d n sym = Ok u ->
  extendedIn u = flat_map (extensionUses (repoPath d) n (file (r_symbol sym))) (files d).
Proof. intros H. by apply usagesIn_Ok in H as (? & ? & _ & _ & ->). Qed.

(** The extension scan reports exactly the extension symbols of the
    other units whose own name is the queried name. *)
Lemma extendedIn_elem pj d n sym u x :
  usagesIn pj d n sym = Ok u ->
  x ∈ extendedIn u <->
  exists p fd ext,
    (p, fd) ∈ files d
    /\ getRelativePath (repoPath d) p <> file (r_symbol sym)
    /\ ext ∈ extensions (symbols fd) /\ name ext = n
    /\ x = mkExtensionUse (getRelativePath (repoPath d) p) (inheritedTypes ext).
Proof.
  intros Hu. rewrite (extendedIn_spec pj d n sym u Hu), elem_of_flat_map.
  unfold extensionUses. split.
  - intros ([p fd] & Hin & Hx). simpl in Hx.
    destruct (String.eqb_spec (getRelativePath (repoPath d) p) (file (r_symbol sym)))
      as [E|E]; [by apply elem_of_nil in Hx|].
    apply list_elem_of_fmap in Hx as (ext & -> & Hext).
    apply list_elem_of_filter in Hext as [Hn Hext]. exists p, fd, ext. done.
  - intros (p & fd & ext & Hin & Hne & Hext & Hn & ->). exists (p, fd). split; [done|].
    simpl. rewrite (proj2 (String.eqb_neq _ _) Hne).
    apply list_elem_of_fmap. exists ext. split; [done|].
    by apply list_elem_of_filter.
Qed.

(** C4. Class [Foo] is declared in unit A and unit B declares an
    extension of [Foo] that adopts [Bar].  When unit B is a Shape A unit
    the extension is recorded under the name [Foo] and
    [explain_symbol "Foo"] reports [{file: B, conformances: ["Bar"]}].
    When unit B is a Shape B unit the category is recorded under the name
    [Foo(Extras)], with [extendedType] [Foo] and conformance [Bar], and
    the scan, which compares the recorded name with the queried one,
    reports nothing. *)
Theorem C4_category_not_reported :
  extendedInOf (explain_symbol Fixtures.simple_join (Some Fixtures.swiftExtensionGraph) "Foo")
  = Some [mkExtensionUse "B.swift" ["Bar"]]
  /\ (fun fd => extensions (symbols fd)) <$> obj_get "/r/B.m" (files Fixtures.objcCategoryGraph)
     = Some [mkSymbol "Foo(Extras)" "source.lang.objc.decl.extension" "/r/B.m" ["Bar"]
               (Some "internal") None None None (Some "Foo")]
  /\ extendedInOf (explain_symbol Fixtures.simple_join (Some Fixtures.objcCategoryGraph) "Foo")
     = Some [].
Proof. by vm_compute. Qed.

(** ** [referencedIn] *)

Lemma filesWithSymbol_fold own (l : list Loc) (acc : gset string) x :
  x ∈ fold_left
        (fun acc loc =>
           if String.eqb (loc_file loc) own then acc else {[loc_file loc]} ∪ acc) l acc
  <-> x ∈ acc \/ (x <> own /\ exists loc, loc ∈ l /\ loc_file loc = x).
Proof.
  revert acc. induction l as [|loc l IH]; intros acc; simpl.
  - split; [by left|]. intros [H|(_ & loc & H & _)]; [done|by apply elem_of_nil in H].
  - rewrite IH. destruct (String.eqb_spec (loc_file loc) own) as [E|E].
    + split.
      * intros [H|(Hne & loc' & Hin & Hx)]; [by left|].
        right. split; [done|]. exists loc'. split; [by right|done].
      * intros [H|(Hne & loc' & Hin & Hx)]; [by left|].
        apply elem_of_cons in Hin as [->|Hin]; [congruence|].
        right. split; [done|]. by exists loc'.
    + rewrite elem_of_union, elem_of_singleton. split.
      * intros [[->|H]|(Hne & loc' & Hin & Hx)].
        -- right. split; [done|]. exists loc. split; [left|done].
        -- by left.
        -- right. split; [done|]. exists loc'. split; [by right|done].
      * intros [H|(Hne & loc' & Hin & Hx)]; [by left; right|].
        apply elem_of_cons in Hin as [->|Hin]; [by left; left|].
        right. split; [done|]. by exists loc'.
Qed.

Lemma filesWithSymbol_elem locs own x :
  x ∈ filesWithSymbol locs own
  <-> x <> own /\ exists loc, loc ∈ locs /\ loc_file loc = x.
Proof.
  unfold filesWithSymbol. rewrite filesWithSymbol_fold. split; [|by right].
  intros [H|H]; [by apply elem_of_empty in H|done].
Qed.

Lemma existsb_elem {A} (f : A -> bool) (l : list A) :
  existsb f l = true <-> exists x, x ∈ l /\ f x = true.
Proof.
  rewrite existsb_exists. split; intros (x & H1 & H2); exists x;
    by rewrite ?list_elem_of_In in *.
Qed.

Lemma mentions_spec n s :
  mentions n s = true <-> typeName s = Some n \/ n ∈ inheritedTypes s.
Proof.
  unfold mentions. rewrite orb_true_iff, bool_decide_eq_true, existsb_elem. split.
  - intros [H|(x & Hx & E)]; [by left|]. apply String.eqb_eq in E. subst x. by right.
  - intros [H|H]; [by left|]. right. exists n. split; [done|]. apply String.eqb_refl.
Qed.

Lemma anyMentions_spec n syms :
  anyMentions n syms = true
  <-> exists b s, s ∈ bucket b syms /\ (typeName s = Some n \/ n ∈ inheritedTypes s).
Proof.
  unfold anyMentions. rewrite existsb_elem. split.
  - intros (b & _ & H). apply existsb_elem in H as (s & Hs & Hm).
    exists b, s. split; [done|]. by apply mentions_spec.
  - intros (b & s & Hs & Hm). exists b. split.
    + apply list_elem_of_In. unfold allBuckets. destruct b; simpl; tauto.
    + apply existsb_elem. exists s. split; [done|]. by apply mentions_spec.
Qed.

Lemma referenceOf_sublist repo n own ws fs :
  flat_map (referenceOf repo n own ws) fs
  `sublist_of` (fun u => getRelativePath repo u.1) <$> fs.
Proof.
  induction fs as [|entry fs IH]; simpl; [done|].
  unfold referenceOf at 1.
  destruct (String.eqb _ own); simpl; [by apply sublist_cons|].
  destruct (_ || _)%bool; simpl; [by apply sublist_skip|by apply sublist_cons].
Qed.

Lemma symbolLocations_Ok d n locs :
  symbolLocations d n = Ok locs -> locs = default [] (byName (indexes d) !! n).
Proof.
  unfold symbolLocations, JsObject.get.
  destruct (byName (indexes d) !! n) as [l|]; simpl; [congruence|].
  destruct (JsObject.inherited n); [done|congruence].
Qed.

Lemma referencedIn_spec pj d n sym u :
  usagesIn pj d n sym = Ok u ->
  referencedIn u
  = flat_map (referenceOf (repoPath d) n (file (r_symbol sym))
                (filesWithSymbol (default [] (byName (indexes d) !! n))
                   (file (r_symbol sym)))) (files d).
Proof.
  intros H. apply usagesIn_Ok in H as (members & locs & _ & Hl & ->).
  apply symbolLocations_Ok in Hl. by subst locs.
Qed.

Lemma referencedIn_elem pj d n sym u U :
  usagesIn pj d n sym = Ok u ->
  U ∈ referencedIn u <->
  U <> file (r_symbol sym)
  /\ exists p fd,
      (p, fd) ∈ files d /\ getRelativePath (repoPath d) p = U
      /\ ((exists loc, loc ∈ default [] (byName (indexes d) !! n) /\ loc_file loc = U)
          \/ (exists b s, s ∈ bucket b (symbols fd)
                          /\ (typeName s = Some n \/ n ∈ inheritedTypes s))).
Proof.
  intros Hu. rewrite (referencedIn_spec pj d n sym u Hu), elem_of_flat_map.
  unfold referenceOf. split.
  - intros ([p fd] & Hin & HU). simpl in HU.
    destruct (String.eqb_spec (getRelativePath (repoPath d) p) (file (r_symbol sym)))
      as [E|E]; [by apply elem_of_nil in HU|].
    destruct (_ || _)%bool eqn:Eu; [|by apply elem_of_nil in HU].
    apply list_elem_of_singleton in HU. subst U. split; [done|].
    exists p, fd. split; [done|]. split; [done|].
    apply orb_true_iff in Eu as [Eu|Eu].
    + left. apply bool_decide_eq_true in Eu. by apply filesWithSymbol_elem in Eu as [_ ?].
    + right. by apply anyMentions_spec.
  - intros (Hne & p & fd & Hin & <- & Huse). exists (p, fd). split; [done|]. simpl.
    rewrite (proj2 (String.eqb_neq _ _) Hne).
    assert ((bool_decide (getRelativePath (repoPath d) p
                            ∈ filesWithSymbol (default [] (byName (indexes d) !! n))
                                (file (r_symbol sym)))
             || anyMentions n (symbols fd))%bool = true) as ->; [|left].
    apply orb_true_iff. destruct Huse as [Hloc|Hm].
    + left. apply bool_decide_eq_true. by apply filesWithSymbol_elem.
    + right. by apply anyMentions_spec.
Qed.

Lemma explain_symbol_Explained pj d n u :
  explain_symbol pj (Some d) n = Ok (Explained u) ->
  findSymbol pj (Some d) n = Ok (Some (FoundSymbol (u_symbol u)))
  /\ usagesIn pj d n (u_symbol u) = Ok u.
Proof.
  unfold explain_symbol. intros H.
  destruct (findSymbol pj (Some d) n) as [[[sym|]|]|] eqn:Hsym; try done.
  cbv [mbind Result_bind rbind] in H.
  destruct (usagesIn pj d n sym) as [u'|] eqn:Hu; [|done].
  injection H as <-.
  pose proof (usagesIn_Ok pj d n sym u' Hu) as (? & ? & _ & _ & E).
  assert (u_symbol u' = sym) as -> by (by rewrite E). done.
Qed.

(** C7 (as written): the list of referencing units has no duplicates.
    With the root ["."], the units [subB.swift] and [sub./B.swift] have
    the same relative path, and both are listed. *)
Lemma C7_counterexample :
  ~ (forall pj d n u,
        explain_symbol pj (Some d) n = Ok (Explained u) -> NoDup (referencedIn u)).
Proof.
  intros H.
  destruct (explain_symbol Fixtures.dot_join (Some Fixtures.dotGraph) "Base")
    as [[| |u]|] eqn:E; try (vm_compute in E; discriminate).
  specialize (H _ _ _ _ E). vm_compute in E. injection E as <-.
  simpl in H. apply NoDup_cons in H as [H _]. apply H. left.
Qed.

(** C7. When [explain_symbol] resolves the name [n] to a symbol whose
    file is [D], a unit [U] is in [referencedIn] exactly when [U]
    differs from [D] and either [byName] records a location of [n] in
    [U] or some symbol of some bucket of [U] has [n] as its [typeName] or
    among its [inheritedTypes]; the list follows the order of the units
    and holds each unit at most once, so it has no duplicates when
    distinct units have distinct relative paths; it never contains
    [D]. *)
Theorem C7_referencedIn pj d n u :
  explain_symbol pj (Some d) n = Ok (Explained u) ->
  findSymbol pj (Some d) n = Ok (Some (FoundSymbol (u_symbol u)))
  /\ (forall U,
         U ∈ referencedIn u <->
         U <> file (r_symbol (u_symbol u))
         /\ exists p fd,
             (p, fd) ∈ files d /\ getRelativePath (repoPath d) p = U
             /\ ((exists loc, loc ∈ default [] (byName (indexes d) !! n)
                              /\ loc_file loc = U)
                 \/ (exists b s, s ∈ bucket b (symbols fd)
                                 /\ (typeName s = Some n \/ n ∈ inheritedTypes s))))
  /\ referencedIn u `sublist_of` (fun e => getRelativePath (repoPath d) e.1) <$> files d
  /\ (NoDup ((fun e => getRelativePath (repoPath d) e.1) <$> files d) ->
      NoDup (referencedIn u))
  /\ file (r_symbol (u_symbol u)) ∉ referencedIn u.
Proof.
  intros Hex. apply explain_symbol_Explained in Hex as [Hsym Hu].
  split; [done|]. split; [|split; [|split]].
  - intros U. by apply (referencedIn_elem pj d n (u_symbol u)).
  - rewrite (referencedIn_spec pj d n _ u Hu). apply referenceOf_sublist.
  - intros Hnd. rewrite (referencedIn_spec pj d n _ u Hu).
    eapply sublist_NoDup; [exact Hnd|apply referenceOf_sublist].
  - intros H. by apply (referencedIn_elem pj d n (u_symbol u) u) in H as [? _].
Qed.

Lemma C7_referencedIn_witness :
  match explain_symbol Fixtures.simple_join (Some Fixtures.inheritanceGraph) "Base" with
  | Ok (Explained u) =>
      ("B.swift" ∈ referencedIn u) /\ NoDup (referencedIn u) /\ "A.swift" ∉ referencedIn u
  | _ => False
  end.
Proof.
  destruct (explain_symbol Fixtures.simple_join (Some Fixtures.inheritanceGraph) "Base")
    as [[| |u]|] eqn:E; try (vm_compute in E; discriminate).
  destruct (C7_referencedIn Fixtures.simple_join Fixtures.inheritanceGraph "Base" u E)
    as (_ & H2 & _ & H3 & H4).
  vm_compute in E. injection E as <-.
  split; [left|split; [|exact H4]].
  apply H3. apply (bool_decide_unpack _). vm_compute. exact I.
Defined.

(** ** Search *)

Lemma addHits_spec lower q rel l knd results :
  addHits lower q rel l knd results = results ++ hitsOf lower q rel knd l.
Proof.
  unfold addHits, hitsOf. revert results.
  induction l as [|s l IH]; intros results; simpl.
  - by rewrite app_nil_r.
  - rewrite IH. destruct (includes q (lower (name s))) eqn:E.
    + rewrite filter_cons_True by done. simpl. by rewrite <- app_assoc.
    + rewrite filter_cons_False; [done|]. by rewrite E.
Qed.

Lemma searchFile_spec lower repo q type results entry :
  searchFile lower repo q type results entry = results ++ fileHits lower repo q type entry.
Proof.
  unfold searchFile, fileHits, searchedKinds. simpl.
  repeat match goal with
         | |- context [wants type ?k] => destruct (wants type k)
         end;
    rewrite ?addHits_spec, ?app_nil_r, <- ?app_assoc; reflexivity.
Qed.

Lemma search_spec lower d query type :
  search_symbols lower (Some d) query type
  = Some (flat_map (fileHits lower (repoPath d) (lower query) (default "all" type))
            (files d)).
Proof.
  unfold search_symbols. f_equal.
  rewrite (fold_left_pushes _
             (fileHits lower (repoPath d) (lower query) (default "all" type))); [done|].
  intros; apply searchFile_spec.
Qed.

Lemma fileHits_elem lower repo q type entry h :
  h ∈ fileHits lower repo q type entry <->
  exists b knd s,
    (b, knd) ∈ searchedKinds /\ wants type knd = true
    /\ s ∈ bucket b (symbols entry.2)
    /\ includes q (lower (name s)) = true
    /\ h = mkSearchHit (name s) knd (getRelativePath repo entry.1) (inheritedTypes s).
Proof.
  unfold fileHits. rewrite elem_of_flat_map. split.
  - intros ([b knd] & Hbk & Hh). simpl in Hh.
    destruct (wants type knd) eqn:Ew; [|by apply elem_of_nil in Hh].
    unfold hitsOf in Hh. apply list_elem_of_fmap in Hh as (s & -> & Hs).
    apply list_elem_of_filter in Hs as [Hq Hs]. by exists b, knd, s.
  - intros (b & knd & s & Hbk & Ew & Hs & Hq & ->). exists (b, knd). split; [done|].
    simpl. rewrite Ew. unfold hitsOf. apply list_elem_of_fmap. exists s.
    split; [done|]. by apply list_elem_of_filter.
Qed.

Lemma hitsOf_names_sublist lower q rel knd l :
  h_name <$> hitsOf lower q rel knd l `sublist_of` name <$> l.
Proof.
  unfold hitsOf. rewrite <- list_fmap_compose. simpl.
  apply fmap_sublist, sublist_filter.
Qed.

(** With a kind filter, the hits of a unit follow any order that all its
    buckets follow. *)
Lemma fileHits_filter_order lower repo q type entry (L : list string) :
  type <> "all" ->
  (forall b, name <$> bucket b (symbols entry.2) `sublist_of` L) ->
  h_name <$> fileHits lower repo q type entry `sublist_of` L.
Proof.
  intros Hall HL. unfold fileHits, searchedKinds. simpl. rewrite app_nil_r.
  assert (forall b knd,
    h_name <$> hitsOf lower q (getRelativePath repo entry.1) knd (bucket b (symbols entry.2))
    `sublist_of` L) as Hone.
  { intros b knd. etrans; [apply hitsOf_names_sublist|apply HL]. }
  unfold wants. rewrite (proj2 (String.eqb_neq _ _) Hall). simpl.
  destruct (String.eqb_spec type "class") as [->|H1];
    [simpl; rewrite app_nil_r; apply (Hone BClasses)|].
  destruct (String.eqb_spec type "struct") as [->|H2];
    [simpl; rewrite app_nil_r; apply (Hone BStructs)|].
  destruct (String.eqb_spec type "protocol") as [->|H3];
    [simpl; rewrite app_nil_r; apply (Hone BProtocols)|].
  destruct (String.eqb_spec type "function") as [->|H4];
    [simpl; rewrite app_nil_r; apply (Hone BFunctions)|].
  destruct (String.eqb_spec type "enum") as [->|H5];
    [simpl; apply (Hone BEnums)|].
  simpl. apply sublist_nil_l.
Qed.

(** With a kind filter, the hits of a Shape A unit follow its declaration
    order. *)
Lemma fileHits_declaration_order lower repo q type ast filePath md :
  type <> "all" ->
  h_name <$> fileHits lower repo q type (filePath, mkFileData (extractSymbols ast filePath) md "swift")
  `sublist_of` declaredNames filePath ast.
Proof.
  intros Hall. apply fileHits_filter_order; [done|].
  intros b. apply bucket_names_sublist.
Qed.

(** With a kind filter, the hits of a Shape B unit follow its declaration
    order. *)
Lemma fileHits_declaration_order_objc lower repo q type ast filePath syms md :
  type <> "all" ->
  extractObjCSymbols ast filePath = Ok (syms, md) ->
  h_name <$> fileHits lower repo q type (filePath, mkFileData syms md "objc")
  `sublist_of` declaredNamesObjC filePath ast.
Proof.
  intros Hall H. apply fileHits_filter_order; [done|].
  intros b. by eapply objc_bucket_names_sublist.
Qed.

(** C8 (as written): the hits of a search follow the declaration order of
    their unit.  In a unit that declares struct [UserA] before class
    [UserB], an unfiltered search for "user" lists [UserB] first. *)
Lemma C8_counterexample :
  ~ (forall filePath ast query type hits,
        search_symbols toLowerCase (Some (init_swift_repo "/r" true [(filePath, Ok ast)] []))
          query type = Some hits ->
        h_name <$> hits `sublist_of` declaredNames filePath ast).
Proof.
  intros H.
  specialize (H "/r/A.swift" Fixtures.mixedAst "user" None _ eq_refl).
  vm_compute in H.
  inversion H as [| |x l1 l2 H1]; subst.
  inversion H1 as [|x l1 l2 H2|x l1 l2 H2]; subst.
  - inversion H2.
  - inversion H2.
Qed.

Lemma wants_spec type knd : wants type knd = true <-> type = "all" \/ type = knd.
Proof. unfold wants. by rewrite orb_true_iff, !String.eqb_eq. Qed.

(** C8 (amended). Whatever [String.prototype.toLowerCase] computes,
    [search_symbols] returns exactly the symbols of the class, struct,
    protocol, function and enum buckets whose lower-cased name contains
    the lower-cased query, restricted to the bucket of the kind filter
    when one is given.  The hits are ordered by unit, then by
    bucket in the order class, struct, protocol, function, enum, then by
    position in the bucket; so with a kind filter the hits of a unit of
    either dialect follow its declaration order.  On the fixture, "user" finds both
    classes and the struct, and the class filter drops the struct. *)
Theorem C8_search lower d query type :
  exists hits,
    search_symbols lower (Some d) query type = Some hits
    /\ hits = flat_map (fileHits lower (repoPath d) (lower query) (default "all" type))
                (files d)
    /\ (forall h,
           h ∈ hits <->
           exists p fd b knd s,
             (p, fd) ∈ files d /\ (b, knd) ∈ searchedKinds
             /\ (default "all" type = "all" \/ default "all" type = knd)
             /\ s ∈ bucket b (symbols fd)
             /\ includes (lower query) (lower (name s)) = true
             /\ h = mkSearchHit (name s) knd (getRelativePath (repoPath d) p)
                      (inheritedTypes s))
    /\ (default "all" type <> "all" ->
        (forall h, h ∈ hits -> h_kind h = default "all" type)
        /\ (forall ast filePath md,
               h_name <$> fileHits lower (repoPath d) (lower query) (default "all" type)
                            (filePath, mkFileData (extractSymbols ast filePath) md "swift")
               `sublist_of` declaredNames filePath ast)
        /\ (forall ast filePath syms md,
               extractObjCSymbols ast filePath = Ok (syms, md) ->
               h_name <$> fileHits lower (repoPath d) (lower query) (default "all" type)
                            (filePath, mkFileData syms md "objc")
               `sublist_of` declaredNamesObjC filePath ast))
    /\ search_symbols toLowerCase (Some Fixtures.userGraph) "user" None
       = Some [mkSearchHit "UserManager" "class" "A.swift" [];
               mkSearchHit "UserViewModel" "class" "A.swift" [];
               mkSearchHit "UserDefaultsBox" "struct" "B.swift" []]
    /\ search_symbols toLowerCase (Some Fixtures.userGraph) "user" (Some "class")
       = Some [mkSearchHit "UserManager" "class" "A.swift" [];
               mkSearchHit "UserViewModel" "class" "A.swift" []].
Proof.
  eexists. split; [apply search_spec|]. split; [reflexivity|].
  assert (forall h,
    h ∈ flat_map (fileHits lower (repoPath d) (lower query) (default "all" type)) (files d)
    <-> exists p fd b knd s,
        (p, fd) ∈ files d /\ (b, knd) ∈ searchedKinds
        /\ (default "all" type = "all" \/ default "all" type = knd)
        /\ s ∈ bucket b (symbols fd)
        /\ includes (lower query) (lower (name s)) = true
        /\ h = mkSearchHit (name s) knd (getRelativePath (repoPath d) p)
                 (inheritedTypes s)) as Helem.
  { intros h. rewrite elem_of_flat_map. split.
    - intros ([p fd] & Hin & Hh).
      apply fileHits_elem in Hh as (b & knd & s & Hbk & Hw & Hs & Hq & ->).
      apply wants_spec in Hw. by exists p, fd, b, knd, s.
    - intros (p & fd & b & knd & s & Hin & Hbk & Hw & Hs & Hq & ->).
      exists (p, fd). split; [done|]. apply fileHits_elem.
      exists b, knd, s. by rewrite wants_spec. }
  split; [exact Helem|]. split; [|by vm_compute].
  intros Hfilter. split; [|split].
  - intros h Hh. apply Helem in Hh as (p & fd & b & knd & s & _ & _ & Hw & _ & _ & ->).
    simpl. by destruct Hw.
  - intros ast filePath md. by apply fileHits_declaration_order.
  - intros ast filePath syms md. by apply fileHits_declaration_order_objc.
Qed.

Lemma C8_search_witness :
  Forall (fun h => h_kind h = "struct")
    (default [] (search_symbols toLowerCase (Some Fixtures.userGraph) "USER" (Some "struct"))).
Proof.
  destruct (C8_search toLowerCase Fixtures.userGraph "USER" (Some "struct"))
    as (hits & H1 & _ & _ & H4 & _).
  destruct H4 as [Hkind _]; [discriminate|].
  rewrite H1. simpl. apply Forall_forall. exact Hkind.
Defined.

(** ** The initializer / method split *)

Lemma extractMembers_fold children acc ms :
  fold_left (fun acc m => members ← acc; addMember m members) children (Ok acc) = Ok ms ->
  initializers ms = initializers acc ++ omap swiftInitializerOf children
  /\ methods ms = methods acc ++ omap swiftMethodOf children.
Proof.
  revert acc. induction children as [|c children IH]; intros acc H.
  - injection H as <-. simpl. by rewrite !app_nil_r.
  - apply fold_Result_cons_inv in H as (acc' & Hstep & H).
    apply IH in H as [H1 H2]. rewrite H1, H2. clear IH H1 H2.
    destruct c as [|t subs]; [done|]. simpl. unfold addMember in Hstep. cbv beta zeta in Hstep.
    unfold isMethodKind.
    destruct (includes "function" (or_empty (key_kind t))
              || includes "method" (or_empty (key_kind t)))%bool; simpl.
    + destruct (startsWith "init" (or_empty (key_name t))); simpl;
        injection Hstep as <-; simpl; by rewrite <- ?app_assoc.
    + destruct (includes "var" (or_empty (key_kind t)));
        by injection Hstep as <-.
Qed.

Lemma classMembers_fold access children acc ms :
  fold_left (fun acc child => members ← acc; addClassMember access child members)
    children (Ok acc) = Ok ms ->
  initializers ms = initializers acc ++ omap (objcInitializerOf access) children
  /\ methods ms = methods acc ++ omap (objcMethodOf access) children.
Proof.
  revert acc. induction children as [|c children IH]; intros acc H.
  - injection H as <-. simpl. by rewrite !app_nil_r.
  - apply fold_Result_cons_inv in H as (acc' & Hstep & H).
    apply IH in H as [H1 H2]. rewrite H1, H2. clear IH H1 H2.
    destruct c as [|t subs]; [done|]. simpl. unfold addClassMember in Hstep. cbv beta zeta in Hstep.
    destruct (namedAs "ObjCMethodDecl" t) as [nm|]; simpl.
    + change (String.eqb nm "init" || startsWith "initWith" nm)%bool
        with (isObjCInit nm) in Hstep.
      destruct (isObjCInit nm); simpl;
        injection Hstep as <-; simpl; by rewrite <- ?app_assoc.
    + destruct (namedAs "ObjCPropertyDecl" t); by injection Hstep as <-.
Qed.

Lemma protocolMembers_fold access children acc ms :
  fold_left (fun acc child => members ← acc; addProtocolMember access child members)
    children (Ok acc) = Ok ms ->
  initializers ms = initializers acc.
Proof.
  revert acc. induction children as [|c children IH]; intros acc H.
  - by injection H as <-.
  - apply fold_Result_cons_inv in H as (acc' & Hstep & H).
    apply IH in H. rewrite H. clear IH H.
    destruct c as [|t subs]; [done|]. unfold addProtocolMember in Hstep. cbv beta zeta in Hstep.
    destruct (namedAs "ObjCMethodDecl" t) as [nm|];
      [|destruct (namedAs "ObjCPropertyDecl" t)]; by injection Hstep as <-.
Qed.

(** C9. The two dialects split methods differently.  In the Shape A
    member loop a direct child of function or method kind is pushed as
    an initializer exactly when its name starts with "init", and as a
    regular method otherwise.  In the Shape B class loop a method child
    is pushed as an initializer exactly when its name is "init" or starts
    with "initWith", and as a regular method otherwise; the protocol
    loop never pushes an initializer.  So "initialize" is an initializer
    in Shape A and a regular method in Shape B, as is "initFromData:". *)
Theorem C9_initializer_split :
  (forall children ms t subs,
      extractMembers children = Ok ms ->
      SNode t subs ∈ children -> isMethodKind t = true ->
      (or_empty (key_name t) ∈ m_name <$> initializers ms
       <-> startsWith "init" (or_empty (key_name t)) = true)
      /\ (or_empty (key_name t) ∈ m_name <$> methods ms
          <-> startsWith "init" (or_empty (key_name t)) = false))
  /\ (forall access children ms t subs nm,
         membersLoop (addClassMember access) children = Ok ms ->
         ONode t subs ∈ children -> namedAs "ObjCMethodDecl" t = Some nm ->
         (nm ∈ m_name <$> initializers ms
          <-> nm = "init" \/ startsWith "initWith" nm = true)
         /\ (nm ∈ m_name <$> methods ms
             <-> ~ (nm = "init" \/ startsWith "initWith" nm = true)))
  /\ (forall access children ms,
         membersLoop (addProtocolMember access) children = Ok ms ->
         initializers ms = [])
  /\ (forall t subs n,
         matchesSymbol t n = true ->
         findAndExtractMembers (SNode t subs) n
         = (ms ← extractMembers subs; Ok (Some ms)))
  /\ ((fun ms => (m_name <$> initializers ms, m_name <$> methods ms))
        <$> swiftMembersOf Fixtures.swiftMembersAst "/r/S.swift" "Service"
      = Some (["init()"; "initialize()"], ["run()"]))
  /\ ((fun ms => (m_name <$> initializers ms, m_name <$> methods ms))
        <$> objcMembersOf Fixtures.objcMembersAst "/r/S.m" "Service"
      = Some (["init"; "initWithName:"], ["initialize"; "initFromData:"]))
  /\ ((fun ms => (m_name <$> initializers ms, m_name <$> methods ms))
        <$> objcMembersOf Fixtures.objcProtocolAst "/r/P.h" "Startable"
      = Some ([], ["init"; "start"])).
Proof.
  split; [|split; [|split; [|split; [|by vm_compute]]]].
  - intros children ms t subs H Hin Hk.
    apply extractMembers_fold in H as [H1 H2]. rewrite H1, H2. simpl.
    rewrite !list_elem_of_fmap. split; split.
    + intros (m & -> & Hm). apply list_elem_of_omap in Hm as (c & _ & Hc).
      destruct c as [|t' subs']; [done|]. simpl in Hc.
      destruct (isMethodKind t' && startsWith "init" (or_empty (key_name t')))%bool eqn:E;
        [|done].
      injection Hc as <-. simpl. by apply andb_prop in E as [_ E].
    + intros E. eexists. split; [|apply list_elem_of_omap; exists (SNode t subs);
        split; [done|]; simpl; rewrite Hk, E; reflexivity]. reflexivity.
    + intros (m & -> & Hm). apply list_elem_of_omap in Hm as (c & _ & Hc).
      destruct c as [|t' subs']; [done|]. simpl in Hc.
      destruct (isMethodKind t' && negb (startsWith "init" (or_empty (key_name t'))))%bool
        eqn:E; [|done].
      injection Hc as <-. simpl. apply andb_prop in E as [_ E].
      by apply negb_true_iff in E.
    + intros E. eexists. split; [|apply list_elem_of_omap; exists (SNode t subs);
        split; [done|]; simpl; rewrite Hk, E; reflexivity]. reflexivity.
  - intros access children ms t subs nm H Hin Hnm.
    apply classMembers_fold in H as [H1 H2]. rewrite H1, H2. simpl.
    assert (isObjCInit nm = true <-> nm = "init" \/ startsWith "initWith" nm = true) as Hinit.
    { unfold isObjCInit. by rewrite orb_true_iff, String.eqb_eq. }
    rewrite <- Hinit. rewrite !list_elem_of_fmap. split; split.
    + intros (m & -> & Hm). apply list_elem_of_omap in Hm as (c & _ & Hc).
      destruct c as [|t' subs']; [done|]. simpl in Hc.
      destruct (namedAs "ObjCMethodDecl" t') as [nm'|]; [|done].
      destruct (isObjCInit nm') eqn:E; [|done]. by injection Hc as <-.
    + intros E. eexists. split; [|apply list_elem_of_omap; exists (ONode t subs);
        split; [done|]; simpl; rewrite Hnm, E; reflexivity]. reflexivity.
    + intros (m & -> & Hm). apply list_elem_of_omap in Hm as (c & _ & Hc).
      destruct c as [|t' subs']; [done|]. simpl in Hc.
      destruct (namedAs "ObjCMethodDecl" t') as [nm'|]; [|done].
      destruct (isObjCInit nm') eqn:E; [done|]. injection Hc as <-. simpl.
      by rewrite E.
    + intros E. apply not_true_is_false in E.
      eexists. split; [|apply list_elem_of_omap; exists (ONode t subs);
        split; [done|]; simpl; rewrite Hnm, E; reflexivity]. reflexivity.
  - intros access children ms H. by apply protocolMembers_fold in H.
  - intros t subs n H. simpl. by rewrite H.
Qed.

Lemma C9_initializer_split_witness :
  ("initialize()" ∈ ["init()"; "initialize()"]
   <-> startsWith "init" "initialize()" = true)
  /\ ("initialize" ∈ ["initialize"; "initFromData:"]
      <-> ~ ("initialize" = "init" \/ startsWith "initWith" "initialize" = true)).
Proof.
  destruct C9_initializer_split as (HA & HB & _).
  split.
  - pose (t := mkSwiftTags (Some "source.lang.swift.decl.function.method.instance")
                 (Some "initialize()") None
                 (Some "source.lang.swift.accessibility.internal") None None None).
    pose (ms := mkMembers []
                  [mkMethod "run()" None (Some "internal")]
                  [mkMethod "init()" None (Some "internal");
                   mkMethod "initialize()" None (Some "internal")]).
    refine (proj1 (HA [Fixtures.swiftMethod "init()"; Fixtures.swiftMethod "initialize()";
                       Fixtures.swiftMethod "run()"]
                      ms t [] _ _ _)).
    + vm_compute. reflexivity.
    + right. left.
    + reflexivity.
  - pose (t := mkObjCTags (Some "ObjCMethodDecl") (Some "initialize") false None None None
                 None None (Some "id") None).
    pose (ms := mkMembers []
                  [mkMethod "initialize" (Some "id") (Some "internal");
                   mkMethod "initFromData:" (Some "id") (Some "internal")]
                  [mkMethod "init" (Some "id") (Some "internal");
                   mkMethod "initWithName:" (Some "id") (Some "internal")]).
    refine (proj2 (HB "internal"
                      [Fixtures.objcMethod "init"; Fixtures.objcMethod "initWithName:";
                       Fixtures.objcMethod "initialize"; Fixtures.objcMethod "initFromData:"]
                      ms t [] "initialize" _ _ _)).
    + vm_compute. reflexivity.
    + right. right. left.
    + reflexivity.
Defined.

(** ** Names are never empty *)

Lemma namesOk_empty : namesOk noSymbols.
Proof. intros b x H. destruct b; by apply elem_of_nil in H. Qed.

Lemma namesOk_push b x s : namesOk s -> name x <> "" -> namesOk (push b x s).
Proof.
  intros Hs Hx b' y Hy. rewrite bucket_push in Hy.
  destruct (decide (b = b')); [|by apply (Hs b')].
  apply elem_of_app in Hy as [Hy|Hy]; [by apply (Hs b')|].
  apply list_elem_of_singleton in Hy. by subst y.
Qed.

Lemma extractSymbols_names ast filePath : namesOk (extractSymbols ast filePath).
Proof.
  intros b x Hx. rewrite extractSymbols_spec in Hx. unfold bucketEntries in Hx.
  apply list_elem_of_omap in Hx as (t & _ & Ht).
  destruct (entryOf filePath t) as [[b' x']|] eqn:E; [|done].
  destruct (decide (b' = b)); [|done]. injection Ht as ->.
  by apply entryOf_name in E as [_ ?].
Qed.

Lemma namedAs_Some k t nm :
  namedAs k t = Some nm -> o_kind t = Some k /\ o_name t = Some nm /\ nm <> "".
Proof.
  unfold namedAs. destruct (o_name t) as [nm'|]; [|done].
  destruct (bool_decide (o_kind t = Some k) && truthy (Some nm'))%bool eqn:E; [|done].
  intros [= <-]. apply andb_prop in E as [E1 E2].
  apply bool_decide_eq_true in E1. repeat split; try done.
  intros ->. discriminate.
Qed.

Lemma namedAs_no_name k t :
  o_name t = None \/ o_name t = Some "" -> namedAs k t = None.
Proof.
  unfold namedAs. intros [-> | ->]; [done|]. simpl. by rewrite andb_false_r.
Qed.

Lemma category_name_nonempty a b : (a +:+ "(" +:+ b +:+ ")")%string <> "".
Proof. destruct a; discriminate. Qed.

Lemma visitInterface_names filePath t children st st' :
  visitInterface filePath t children st = Ok st' -> namesOk st.1 -> namesOk st'.1.
Proof.
  unfold visitInterface. intros H Hok.
  destruct (namedAs "ObjCInterfaceDecl" t) as [nm|] eqn:E; [|by injection H as <-].
  destruct (o_isImplicit t); [by injection H as <-|].
  destruct (membersLoop (addClassMember (objcAccess filePath)) children) as [ms|]; [|done].
  injection H as <-.
  apply (namesOk_push BClasses
           (objcInfo filePath nm "source.lang.objc.decl.class"
              (superNames t ++ protocolNames t) None t) st.1); [done|].
  by apply namedAs_Some in E as (_ & _ & ?).
Qed.

Lemma visitProtocol_names filePath t children st st' :
  visitProtocol filePath t children st = Ok st' -> namesOk st.1 -> namesOk st'.1.
Proof.
  unfold visitProtocol. intros H Hok.
  destruct (namedAs "ObjCProtocolDecl" t) as [nm|] eqn:E; [|by injection H as <-].
  destruct (o_isImplicit t); [by injection H as <-|].
  destruct (membersLoop (addProtocolMember (objcAccess filePath)) children) as [ms|];
    [|done].
  injection H as <-.
  apply (namesOk_push BProtocols
           (objcInfo filePath nm "source.lang.objc.decl.protocol"
              (protocolNames t) None t) st.1); [done|].
  by apply namedAs_Some in E as (_ & _ & ?).
Qed.

Lemma visitCategory_names filePath t st :
  namesOk st.1 -> namesOk (visitCategory filePath t st).1.1.
Proof.
  unfold visitCategory. intros Hok.
  destruct (namedAs "ObjCCategoryDecl" t) as [nm|]; [|done].
  destruct (o_isImplicit t); [done|].
  destruct (o_interface t ≫= ref_name) as [interfaceName|]; [|done].
  destruct (truthy (Some interfaceName)); [|done].
  apply (namesOk_push BExtensions
           (objcInfo filePath (interfaceName +:+ "(" +:+ nm +:+ ")")%string
              "source.lang.objc.decl.extension" (protocolNames t) (Some interfaceName) t)
           st.1); [done|].
  apply category_name_nonempty.
Qed.

Lemma visitObjC_names filePath t children st st' descend :
  visitObjC filePath t children st = Ok (st', descend) ->
  namesOk st.1 -> namesOk st'.1.
Proof.
  unfold visitObjC. intros H Hok.
  destruct (visitInterface filePath t children st) as [st1|] eqn:E1; [|done].
  apply visitInterface_names in E1; [|done].
  change (Ok st1 ≫= _)
    with (st2 ← visitProtocol filePath t children st1;
          Ok (visitCategory filePath t st2)) in H.
  destruct (visitProtocol filePath t children st1) as [st2|] eqn:E2; [|done].
  apply visitProtocol_names in E2; [|done].
  change (Ok st2 ≫= _) with (Ok (visitCategory filePath t st2)) in H.
  injection H as H. pose proof (visitCategory_names filePath t st2 E2) as H3.
  by rewrite H in H3.
Qed.

Lemma walkObjC_names filePath node :
  forall st st', walkObjC filePath node st = Ok st' -> namesOk st.1 -> namesOk st'.1.
Proof.
  induction node as [|t children IH] using ObjCNode_nested_ind; intros st st' H Hok.
  - by injection H as <-.
  - change (walkObjC filePath (ONode t children) st)
      with ('(st1, descend) ← visitObjC filePath t children st;
            if descend : bool then
              fold_left (fun acc child => s ← acc; walkObjC filePath child s)
                children (Ok st1)
            else Ok st1) in H.
    destruct (visitObjC filePath t children st) as [[st1 descend]|] eqn:Ev; [|done].
    apply visitObjC_names in Ev; [|done].
    change (Ok (st1, descend) ≫= _)
      with (if descend then
              fold_left (fun acc child => s ← acc; walkObjC filePath child s)
                children (Ok st1)
            else Ok st1) in H.
    destruct descend; [|by injection H as <-].
    clear Hok st t. revert st1 Ev H.
    induction IH as [|c children Hc _ IHchildren]; intros st1 Ev H.
    + by injection H as <-.
    + apply (fold_Result_cons_inv (fun child s => walkObjC filePath child s)) in H
        as (st2 & Hstep & H).
      eapply IHchildren; [|exact H]. by eapply Hc.
Qed.

Lemma extractObjCSymbols_names ast filePath syms md :
  extractObjCSymbols ast filePath = Ok (syms, md) -> namesOk syms.
Proof.
  intros H. apply walkObjC_names in H; [done|]. apply namesOk_empty.
Qed.

Lemma elem_of_obj_set {V} (k : string) (v : V) (o : list (string * V)) e :
  e ∈ obj_set k v o -> e = (k, v) \/ (exists v', (k, v') ∈ o /\ e = (k, v)) \/ e ∈ o.
Proof.
  induction o as [|[k' v'] o IH]; simpl.
  - intros H. apply list_elem_of_singleton in H. by left.
  - destruct (String.eqb_spec k' k) as [->|Hk].
    + intros H. apply elem_of_cons in H as [->|H]; [by left|].
      right. right. by right.
    + intros H. apply elem_of_cons in H as [->|H]; [right; right; left|].
      destruct (IH H) as [->|[(v'' & Hin & ->)|Hin]]; [by left|by left|].
      right. right. by right.
Qed.

(** All units produced by the two parse loops have non-empty names. *)
Lemma parseAll_names clang swift objc p fd :
  (p, fd) ∈ parseAll clang swift objc -> namesOk (symbols fd).
Proof.
  unfold parseAll.
  assert (forall fs, (forall q gd, (q, gd) ∈ fs -> namesOk (symbols gd)) ->
            forall q gd, (q, gd) ∈ fold_left processSwift swift fs ->
                         namesOk (symbols gd)) as Hswift.
  { induction swift as [|[path r] swift IH]; intros fs Hfs q gd; [apply Hfs|].
    simpl. apply IH. clear IH q gd. intros q gd. unfold processSwift. simpl.
    destruct r as [ast|]; [|apply Hfs].
    change (Ok ast ≫= _)
      with (md ← extractMemberData ast (extractSymbols ast path);
            Ok (mkFileData (extractSymbols ast path) md "swift")).
    destruct (extractMemberData ast (extractSymbols ast path)) as [md|]; [|apply Hfs].
    intros H. apply elem_of_obj_set in H as [[= -> ->]|[(? & _ & [= -> ->])|H]];
      [apply extractSymbols_names..|by eapply Hfs]. }
  assert (forall fs, (forall q gd, (q, gd) ∈ fs -> namesOk (symbols gd)) ->
            forall q gd, (q, gd) ∈ fold_left processObjC objc fs ->
                         namesOk (symbols gd)) as Hobjc.
  { induction objc as [|[path r] objc IH]; intros fs Hfs q gd; [apply Hfs|].
    simpl. apply IH. clear IH q gd. intros q gd. unfold processObjC. simpl.
    destruct r as [ast|]; [|apply Hfs].
    change (Ok ast ≫= _)
      with ('(syms, md) ← extractObjCSymbols ast path;
            Ok (mkFileData syms md "objc")).
    destruct (extractObjCSymbols ast path) as [[syms md]|] eqn:E; [|apply Hfs].
    apply extractObjCSymbols_names in E.
    intros H. apply elem_of_obj_set in H as [[= -> ->]|[(? & _ & [= -> ->])|H]];
      [done..|by eapply Hfs]. }
  assert (forall q gd, (q, gd) ∈ fold_left processSwift swift [] -> namesOk (symbols gd))
    as H0.
  { apply Hswift. intros q gd H. by apply elem_of_nil in H. }
  destruct clang; [|apply H0]. by apply Hobjc.
Qed.

Lemma typeMap_key_declared repo fs n ti :
  buildTypeMap repo fs !! n = Some ti ->
  exists u b, u ∈ fs /\ ti_symbol ti ∈ bucket b (symbols u.2) /\ name (ti_symbol ti) = n.
Proof.
  rewrite typeMap_lookup. intros H. apply last_Some_elem_of in H.
  apply list_elem_of_filter in H as [Hn H].
  apply elem_of_flat_map in H as (u & Hu & H). unfold typeEntries in H.
  rewrite !elem_of_app, !list_elem_of_fmap in H.
  destruct H as [H|[H|[H|H]]]; destruct H as (s & -> & Hs);
    [exists u, BClasses|exists u, BStructs|exists u, BProtocols|exists u, BEnums]; done.
Qed.

Lemma indexEntries_bucket fd k s :
  (k, s) ∈ indexEntries fd -> exists b, s ∈ bucket b (symbols fd).
Proof.
  unfold indexEntries, indexedKinds. simpl.
  rewrite !elem_of_app, !list_elem_of_fmap.
  intros [H|[H|[H|[H|[H|H]]]]]; [..|by apply elem_of_nil in H];
    destruct H as (s' & [= _ ->] & Hs);
    [exists BClasses|exists BStructs|exists BProtocols|exists BEnums|exists BFunctions];
    done.
Qed.

Lemma byName_key_declared repo fs n locs :
  byName (buildIndexes repo fs) !! n = Some locs ->
  exists u b s, u ∈ fs /\ s ∈ bucket b (symbols u.2) /\ name s = n.
Proof.
  intros H.
  destruct (flat_map (nameLocs repo n) fs) as [|loc rest] eqn:E.
  - apply byName_lookup_None in E. congruence.
  - assert (loc ∈ flat_map (nameLocs repo n) fs) as Hloc by (rewrite E; left).
    apply elem_of_flat_map in Hloc as (u & Hu & Hloc). unfold nameLocs in Hloc.
    apply list_elem_of_fmap in Hloc as ([k s] & _ & Hks).
    apply list_elem_of_filter in Hks as [Hn Hks].
    apply indexEntries_bucket in Hks as [b Hb]. by exists u, b, s.
Qed.

(** The names stored as values of [byKind] and [byFile]. *)
Lemma map_push_values {V} (P : V -> Prop) k x (m : gmap string (list V)) :
  (forall k' l y, m !! k' = Some l -> y ∈ l -> P y) -> P x ->
  forall k' l y, map_push k x m !! k' = Some l -> y ∈ l -> P y.
Proof.
  intros Hm Hx k' l y. unfold map_push.
  destruct (decide (k = k')) as [->|Hk].
  - rewrite lookup_insert_eq. intros [= <-] Hy.
    apply elem_of_app in Hy as [Hy|Hy].
    + destruct (m !! k') as [l0|] eqn:E; [by eapply Hm|by apply elem_of_nil in Hy].
    + apply list_elem_of_singleton in Hy. by subst y.
  - rewrite lookup_insert_ne by done. apply Hm.
Qed.

Lemma insert_nil_values {V} (P : V -> Prop) k (m : gmap string (list V)) :
  (forall k' l y, m !! k' = Some l -> y ∈ l -> P y) ->
  forall k' l y, <[k := []]> m !! k' = Some l -> y ∈ l -> P y.
Proof.
  intros Hm k' l y. destruct (decide (k = k')) as [->|Hk].
  - rewrite lookup_insert_eq. intros [= <-] Hy. by apply elem_of_nil in Hy.
  - rewrite lookup_insert_ne by done. apply Hm.
Qed.

Lemma indexSymbols_values rel knd l ix :
  (forall s, s ∈ l -> name s <> "") -> valuesOk ix ->
  valuesOk (fold_left (indexSymbol rel knd) l ix).
Proof.
  revert ix. induction l as [|s l IH]; intros ix Hl Hix; [done|].
  simpl. apply IH; [intros s' Hs'; apply Hl; by right|].
  destruct Hix as [H1 H2]. split; simpl.
  - apply map_push_values; [done|]. apply Hl. left.
  - apply map_push_values; [done|]. apply Hl. left.
Qed.

Lemma processSymbols_values rel l knd ix :
  (forall s, s ∈ l -> name s <> "") -> valuesOk ix ->
  valuesOk (processSymbols rel l knd ix).
Proof.
  intros Hl Hix. unfold processSymbols. apply indexSymbols_values; [done|].
  destruct (byKind ix !! knd); [done|]. destruct Hix as [H1 H2]. split; simpl; [|done].
  by apply insert_nil_values.
Qed.

Lemma indexFile_values repo ix entry :
  namesOk (symbols entry.2) -> valuesOk ix -> valuesOk (indexFile repo ix entry).
Proof.
  intros Hok Hix. unfold indexFile.
  repeat (apply processSymbols_values;
          [first [apply (Hok BFunctions)|apply (Hok BEnums)|apply (Hok BProtocols)
                 |apply (Hok BStructs)|apply (Hok BClasses)]|]).
  destruct Hix as [H1 H2]. split; simpl; [done|]. by apply insert_nil_values.
Qed.

Lemma buildIndexes_values repo fs :
  (forall u, u ∈ fs -> namesOk (symbols u.2)) -> valuesOk (buildIndexes repo fs).
Proof.
  unfold buildIndexes.
  assert (valuesOk (mkIndexes ∅ ∅ ∅)) as H0.
  { split; simpl; intros k l y H; by rewrite lookup_empty in H. }
  revert H0. generalize (mkIndexes ∅ ∅ ∅) as ix.
  induction fs as [|u fs IH]; intros ix Hix Hfs; [done|].
  simpl. apply IH.
  - apply indexFile_values; [apply Hfs; left|done].
  - intros u' Hu'. apply Hfs. by right.
Qed.

(** C10. Every symbol that either extractor places in a bucket has a
    non-empty name; a node whose name tag is the empty string is treated
    exactly as a node without a name tag; and so every key of the type
    map, every key of [byName] and every name listed in [byKind] and
    [byFile] of a graph built by [init_swift_repo] is non-empty. *)
Theorem C10_names_nonempty :
  (forall ast filePath b s,
      s ∈ bucket b (extractSymbols ast filePath) -> name s <> "")
  /\ (forall ast filePath syms md b s,
         extractObjCSymbols ast filePath = Ok (syms, md) ->
         s ∈ bucket b syms -> name s <> "")
  /\ (forall filePath t subs syms,
         walk filePath (SNode (swiftWithName t (Some "")) subs) syms
         = walk filePath (SNode (swiftWithName t None) subs) syms)
  /\ (forall filePath t children st,
         walkObjC filePath (ONode (objcWithName t (Some "")) children) st
         = walkObjC filePath (ONode (objcWithName t None) children) st)
  /\ (forall repo clang swift objc,
         let g := init_swift_repo repo clang swift objc in
         (forall p fd b s, (p, fd) ∈ files g -> s ∈ bucket b (symbols fd) -> name s <> "")
         /\ (forall n ti, typeMap g !! n = Some ti -> n <> "")
         /\ (forall n locs, byName (indexes g) !! n = Some locs -> n <> "")
         /\ (forall k names n, byKind (indexes g) !! k = Some names -> n ∈ names -> n <> "")
         /\ (forall f names n, byFile (indexes g) !! f = Some names -> n ∈ names -> n <> "")).
Proof.
  split; [|split; [|split; [|split]]].
  - intros ast filePath b s. apply extractSymbols_names.
  - intros ast filePath syms md b s H Hs. apply extractObjCSymbols_names in H.
    by apply (H b).
  - intros filePath t subs syms. simpl. unfold visit, entryOf. simpl.
    destruct (key_kind t); [|done]. by rewrite andb_false_r.
  - intros filePath t children st.
    assert (visitObjC filePath (objcWithName t (Some "")) children st
            = visitObjC filePath (objcWithName t None) children st) as E.
    { unfold visitObjC, visitInterface, visitProtocol, visitCategory.
      rewrite !(namedAs_no_name _ (objcWithName t (Some ""))) by (by right).
      by rewrite !(namedAs_no_name _ (objcWithName t None)) by (by left). }
    simpl. by rewrite E.
  - intros repo clang swift objc g.
    assert (forall u, u ∈ files g -> namesOk (symbols u.2)) as Hfiles.
    { intros [p fd] Hu. by apply parseAll_names in Hu. }
    split; [|split; [|split; [|split]]].
    + intros p fd b s Hin. apply (Hfiles (p, fd) Hin).
    + intros n ti H. apply typeMap_key_declared in H as (u & b & Hu & Hs & <-).
      by apply (Hfiles u Hu b).
    + intros n locs H. apply byName_key_declared in H as (u & b & s & Hu & Hs & <-).
      by apply (Hfiles u Hu b).
    + apply (buildIndexes_values repo (files g) Hfiles).
    + apply (buildIndexes_values repo (files g) Hfiles).
Qed.

Lemma C10_names_nonempty_witness :
  name (mkSymbol "Foo(Extras)" "source.lang.objc.decl.extension" "/r/B.m" ["Bar"]
          (Some "internal") None None None (Some "Foo")) <> ""
  /\ "Base" <> "".
Proof.
  destruct C10_names_nonempty as (_ & HB & _ & _ & HG).
  split.
  - refine (HB (Fixtures.objcRoot [Fixtures.objcCategory "Extras" "Foo" ["Bar"]]) "/r/B.m"
              (mkSymbols [] [] [] [] []
                 [mkSymbol "Foo(Extras)" "source.lang.objc.decl.extension" "/r/B.m" ["Bar"]
                    (Some "internal") None None None (Some "Foo")] [])
              ∅ BExtensions _ _ _).
    + vm_compute. reflexivity.
    + left.
  - destruct (HG "/r" true [Fixtures.baseUnit; Fixtures.childUnit] []) as (_ & HT & _).
    refine (HT "Base" (mkTypeInfo "A.swift" "class"
                         (mkSymbol "Base" "source.lang.swift.decl.class" "/r/A.swift" []
                            (Some "internal") None None None None)) _).
    vm_compute. reflexivity.
Defined.

(** ** Unit identifiers of a graph built by [init_swift_repo] *)

Lemma startsWith_append p s : startsWith p (p +:+ s) = true.
Proof.
  induction p as [|c p IH]; [done|].
  change (startsWith (String c p) (String c p +:+ s))
    with (if Ascii.eqb c c then startsWith p (p +:+ s) else false).
  by rewrite Ascii.eqb_refl.
Qed.

Lemma drop_append p s : JsString.drop (String.length p) (p +:+ s) = s.
Proof. induction p as [|c p IH]; [done|]. exact IH. Qed.

Lemma remove_first_prefix p s : remove_first p (p +:+ s) = s.
Proof.
  assert (forall t, startsWith p t = true ->
                    remove_first p t = JsString.drop (String.length p) t) as H.
  { intros t Ht. destruct t; unfold remove_first; by rewrite Ht. }
  rewrite H by apply startsWith_append. apply drop_append.
Qed.

(** A path below the repository root is sent to its relative part. *)
Lemma getRelativePath_under repo r :
  repo <> "" -> getRelativePath repo ((repo +:+ "/") +:+ r) = r.
Proof.
  intros Hrepo. unfold getRelativePath. simpl.
  rewrite (proj2 (String.eqb_neq _ _) Hrepo). simpl. apply remove_first_prefix.
Qed.

Lemma obj_set_keys {V} (k : string) (v : V) (o : list (string * V)) :
  fst <$> obj_set k v o
  = if bool_decide (k ∈ fst <$> o) then fst <$> o else (fst <$> o) ++ [k].
Proof.
  induction o as [|[k' v'] o IH]; [done|].
  cbn [obj_set]. destruct (String.eqb_spec k' k) as [->|Hk]; rewrite !fmap_cons; cbn [fst].
  - rewrite bool_decide_eq_true_2; [done|left].
  - rewrite IH. destruct (bool_decide (k ∈ fst <$> o)) eqn:E.
    + rewrite bool_decide_eq_true_2; [done|]. right. by apply bool_decide_eq_true in E.
    + rewrite bool_decide_eq_false_2; [done|].
      apply bool_decide_eq_false in E. intros H.
      apply elem_of_cons in H as [H|H]; [congruence|done].
Qed.

Lemma obj_set_keys_NoDup {V} (k : string) (v : V) (o : list (string * V)) :
  NoDup (fst <$> o) -> NoDup (fst <$> obj_set k v o).
Proof.
  intros H. rewrite obj_set_keys. destruct (bool_decide (k ∈ fst <$> o)) eqn:E; [done|].
  apply bool_decide_eq_false in E. apply NoDup_app. repeat split; [done| |apply NoDup_singleton].
  intros x Hx Hk. apply list_elem_of_singleton in Hk. by subst x.
Qed.

Lemma obj_set_keys_elem {V} (k : string) (v : V) (o : list (string * V)) x :
  x ∈ fst <$> obj_set k v o -> x = k \/ x ∈ fst <$> o.
Proof.
  rewrite obj_set_keys. destruct (bool_decide (k ∈ fst <$> o)); [by right|].
  intros H. apply elem_of_app in H as [H|H]; [by right|].
  apply list_elem_of_singleton in H. by left.
Qed.

(** The keys of the [files] object are distinct source paths. *)
Lemma parseAll_keys clang swift objc :
  NoDup (fst <$> parseAll clang swift objc)
  /\ forall p, p ∈ fst <$> parseAll clang swift objc ->
               p ∈ (fst <$> swift) ++ (fst <$> objc).
Proof.
  unfold parseAll.
  assert (forall fs (P : string -> Prop),
            NoDup (fst <$> fs) /\ (forall p, p ∈ fst <$> fs -> P p) ->
            (forall p, p ∈ fst <$> swift -> P p) ->
            NoDup (fst <$> fold_left processSwift swift fs)
            /\ (forall p, p ∈ fst <$> fold_left processSwift swift fs -> P p)) as Hswift.
  { induction swift as [|[path r] swift IH]; intros fs P Hfs HP; [done|].
    simpl. apply IH; [|intros p Hp; apply HP; by right].
    unfold processSwift. simpl.
    destruct (r ≫= _) as [fd|]; [|done]. destruct Hfs as [H1 H2]. split.
    - by apply obj_set_keys_NoDup.
    - intros p Hp. apply obj_set_keys_elem in Hp as [->|Hp]; [apply HP; left|by apply H2]. }
  assert (forall fs (P : string -> Prop),
            NoDup (fst <$> fs) /\ (forall p, p ∈ fst <$> fs -> P p) ->
            (forall p, p ∈ fst <$> objc -> P p) ->
            NoDup (fst <$> fold_left processObjC objc fs)
            /\ (forall p, p ∈ fst <$> fold_left processObjC objc fs -> P p)) as Hobjc.
  { induction objc as [|[path r] objc IH]; intros fs P Hfs HP; [done|].
    simpl. apply IH; [|intros p Hp; apply HP; by right].
    unfold processObjC. simpl.
    destruct (r ≫= _) as [fd|]; [|done]. destruct Hfs as [H1 H2]. split.
    - by apply obj_set_keys_NoDup.
    - intros p Hp. apply obj_set_keys_elem in Hp as [->|Hp]; [apply HP; left|by apply H2]. }
  assert (NoDup (fst <$> fold_left processSwift swift [])
          /\ (forall p, p ∈ fst <$> fold_left processSwift swift [] ->
                        p ∈ (fst <$> swift) ++ (fst <$> objc))) as H0.
  { apply Hswift.
    - split; [apply NoDup_nil_2|]. intros p Hp. by apply elem_of_nil in Hp.
    - intros p Hp. apply elem_of_app. by left. }
  destruct clang; [|exact H0].
  apply Hobjc; [exact H0|]. intros p Hp. apply elem_of_app. by right.
Qed.

(** When every source path lies below a non-empty repository root, the
    units of the built graph have distinct identifiers. *)
Lemma init_units_distinct repo clang swift objc :
  repo <> "" ->
  (forall p, p ∈ (fst <$> swift) ++ (fst <$> objc) ->
             exists r, p = ((repo +:+ "/") +:+ r)%string) ->
  NoDup ((fun u => getRelativePath repo u.1)
           <$> files (init_swift_repo repo clang swift objc)).
Proof.
  intros Hrepo Hunder. simpl.
  destruct (parseAll_keys clang swift objc) as [Hnd Hkeys].
  change ((fun u : string * FileData => getRelativePath repo u.1)
            <$> parseAll clang swift objc)
    with ((getRelativePath repo ∘ fst) <$> parseAll clang swift objc).
  rewrite (list_fmap_compose fst (getRelativePath repo)).
  apply NoDup_fmap_2_strong; [|done].
  intros p1 p2 H1 H2 E.
  destruct (Hunder p1 (Hkeys p1 H1)) as [r1 ->].
  destruct (Hunder p2 (Hkeys p2 H2)) as [r2 ->].
  rewrite !getRelativePath_under in E by done. by rewrite E.
Qed.

(** * Further properties *)

(** ** Relative paths *)

Lemma remove_first_absent p s : includes p s = false -> remove_first p s = s.
Proof.
  induction s as [|c s IH]; intros H.
  - unfold includes in H. unfold remove_first.
    destruct (startsWith p ""); [discriminate|done].
  - change (includes p (String c s))
      with (if startsWith p (String c s) then true else includes p s) in H.
    change (remove_first p (String c s))
      with (if startsWith p (String c s) then JsString.drop (String.length p) (String c s)
            else String c (remove_first p s)).
    destruct (startsWith p (String c s)); [discriminate|]. by rewrite IH.
Qed.

(** X1. [getRelativePath] strips the repository root from a path below
    it, leaves a path that does not contain the root followed by a slash
    untouched, and is the identity when no root is set. *)
Theorem getRelativePath_behaviour :
  (forall p, getRelativePath "" p = p)
  /\ (forall repo r, repo <> "" -> getRelativePath repo ((repo +:+ "/") +:+ r) = r)
  /\ (forall repo p, includes (repo +:+ "/") p = false -> getRelativePath repo p = p).
Proof.
  split; [done|]. split.
  - intros repo r H. by apply getRelativePath_under.
  - intros repo p H. unfold getRelativePath.
    destruct (truthy (Some repo)); [|done]. by apply remove_first_absent.
Qed.

Lemma getRelativePath_behaviour_witness :
  getRelativePath "/r" "/r/Sources/A.swift" = "Sources/A.swift"
  /\ getRelativePath "/r" "/elsewhere/A.swift" = "/elsewhere/A.swift".
Proof.
  destruct getRelativePath_behaviour as (_ & H2 & H3). split.
  - apply (H2 "/r" "Sources/A.swift"). discriminate.
  - apply (H3 "/r" "/elsewhere/A.swift"). reflexivity.
Defined.

(** ** The parse loops *)

Lemma obj_set_fresh {V} (k : string) (v : V) (o : list (string * V)) :
  k ∉ fst <$> o -> obj_set k v o = o ++ [(k, v)].
Proof.
  induction o as [|[k' v'] o IH]; intros H; [done|].
  cbn [obj_set]. rewrite fmap_cons in H. cbn [fst] in H.
  apply not_elem_of_cons in H as [Hk H].
  destruct (String.eqb_spec k' k) as [E|E]; [congruence|].
  by rewrite IH.
Qed.

Lemma obj_get_set {V} (k k' : string) (v : V) (o : list (string * V)) :
  obj_get k' (obj_set k v o) = if String.eqb k k' then Some v else obj_get k' o.
Proof.
  induction o as [|[k0 v0] o IH]; cbn [obj_set obj_get].
  - done.
  - destruct (String.eqb_spec k0 k) as [->|E]; cbn [obj_get].
    + by destruct (String.eqb k k').
    + destruct (String.eqb_spec k0 k') as [->|E'].
      * by rewrite (proj2 (String.eqb_neq _ _) (not_eq_sym E)).
      * exact IH.
Qed.

Lemma parsedUnits_keys {A} (outcome : string * Result A -> Result FileData) units :
  fst <$> parsedUnits outcome units `sublist_of` fst <$> units.
Proof.
  induction units as [|u units IH]; [done|]. unfold parsedUnits. cbn [omap list_omap].
  destruct (outcome u); rewrite !fmap_cons; [by apply sublist_skip|by apply sublist_cons].
Qed.

Lemma processSwift_outcome fs unit :
  processSwift fs unit
  = match swiftOutcome unit with
    | Ok fd => obj_set unit.1 fd fs
    | Throw => fs
    end.
Proof. reflexivity. Qed.

Lemma processObjC_outcome fs unit :
  processObjC fs unit
  = match objcOutcome unit with
    | Ok fd => obj_set unit.1 fd fs
    | Throw => fs
    end.
Proof. reflexivity. Qed.

Lemma parse_loop_fresh {A} (outcome : string * Result A -> Result FileData)
    (units : list (string * Result A)) (fs : list (string * FileData)) :
  NoDup ((fst <$> fs) ++ (fst <$> units)) ->
  fold_left (fun fs unit => match outcome unit with
                            | Ok fd => obj_set unit.1 fd fs
                            | Throw => fs
                            end) units fs
  = fs ++ parsedUnits outcome units.
Proof.
  revert fs. induction units as [|u units IH]; intros fs Hnd.
  - simpl. by rewrite app_nil_r.
  - cbn [fold_left]. unfold parsedUnits. cbn [omap list_omap].
    rewrite fmap_cons in Hnd.
    assert (u.1 ∉ fst <$> fs) as Hfresh.
    { apply NoDup_app in Hnd as (_ & H & _). intros Hin. apply (H _ Hin). left. }
    assert (NoDup ((fst <$> fs) ++ (fst <$> units))) as Hnd0.
    { apply NoDup_app in Hnd as (H1 & H2 & H3). apply NoDup_cons in H3 as [_ H3].
      apply NoDup_app. repeat split; [done| |done].
      intros x Hx Hx'. apply (H2 x Hx). by right. }
    destruct (outcome u) as [fd|].
    + rewrite obj_set_fresh by done. rewrite IH.
      * by rewrite <- app_assoc.
      * rewrite fmap_app, <- app_assoc. simpl.
        apply NoDup_app in Hnd as (H1 & H2 & H3). apply NoDup_cons in H3 as [H3 H4].
        apply NoDup_app. repeat split; [done| |by apply NoDup_cons].
        intros x Hx Hx'. by apply (H2 x Hx).
    + by apply IH.
Qed.

(** X2. When the source paths are distinct, the [files] object holds
    exactly the units whose parse and extraction succeeded, Swift units
    first, each in discovery order; a unit that fails leaves the others
    untouched, and without Clang no Objective-C unit is recorded. *)
Theorem parseAll_isolates_failures clang swift objc :
  NoDup ((fst <$> swift) ++ (fst <$> objc)) ->
  parseAll clang swift objc
  = parsedUnits swiftOutcome swift
    ++ (if clang then parsedUnits objcOutcome objc else []).
Proof.
  intros Hnd. unfold parseAll.
  rewrite (fold_left_ext processSwift
             (fun fs unit => match swiftOutcome unit with
                             | Ok fd => obj_set unit.1 fd fs
                             | Throw => fs
                             end)) by apply processSwift_outcome.
  rewrite (parse_loop_fresh swiftOutcome swift []).
  2:{ simpl. by apply NoDup_app in Hnd as (? & _ & _). }
  simpl. destruct clang; [|by rewrite app_nil_r].
  rewrite (fold_left_ext processObjC
             (fun fs unit => match objcOutcome unit with
                             | Ok fd => obj_set unit.1 fd fs
                             | Throw => fs
                             end)) by apply processObjC_outcome.
  apply parse_loop_fresh.
  apply NoDup_app in Hnd as (H1 & H2 & H3).
  apply NoDup_app. repeat split; [|  |done].
  - eapply sublist_NoDup; [exact H1|apply parsedUnits_keys].
  - intros x Hx. apply H2. eapply elem_of_sublist; [exact Hx|apply parsedUnits_keys].
Qed.

Lemma parseAll_isolates_failures_witness :
  fst <$> parseAll true [("/r/Broken.swift", Throw); Fixtures.baseUnit] [Fixtures.categoryUnit]
  = ["/r/A.swift"; "/r/B.m"].
Proof.
  rewrite parseAll_isolates_failures.
  - reflexivity.
  - apply (bool_decide_unpack _). vm_compute. exact I.
Defined.

Lemma parsedUnits_cons_length {A} (outcome : string * Result A -> Result FileData) u units :
  length (parsedUnits outcome (u :: units))
  = length (parsedUnits outcome [u]) + length (parsedUnits outcome units)
  /\ length (parsedUnits outcome [u]) <= 1.
Proof.
  unfold parsedUnits. cbn [omap list_omap]. destruct (outcome u); simpl; lia.
Qed.

Lemma countSwift_step c u :
  swiftProcessed (countSwift c u)
  = swiftProcessed c + length (parsedUnits swiftOutcome [u])
  /\ swiftErrors (countSwift c u)
     = swiftErrors c + (1 - length (parsedUnits swiftOutcome [u]))
  /\ errorDetails (countSwift c u)
     = errorDetails c + (1 - length (parsedUnits swiftOutcome [u]))
  /\ objcProcessed (countSwift c u) = objcProcessed c
  /\ objcErrors (countSwift c u) = objcErrors c.
Proof.
  unfold countSwift, parsedUnits. cbn [omap list_omap].
  destruct (swiftOutcome u); simpl; repeat split; lia.
Qed.

Lemma countObjC_step c u :
  objcProcessed (countObjC c u)
  = objcProcessed c + length (parsedUnits objcOutcome [u])
  /\ objcErrors (countObjC c u)
     = objcErrors c + (1 - length (parsedUnits objcOutcome [u]))
  /\ errorDetails (countObjC c u)
     = errorDetails c + (1 - length (parsedUnits objcOutcome [u]))
  /\ swiftProcessed (countObjC c u) = swiftProcessed c
  /\ swiftErrors (countObjC c u) = swiftErrors c.
Proof.
  unfold countObjC, parsedUnits. cbn [omap list_omap].
  destruct (objcOutcome u); simpl; repeat split; lia.
Qed.

Lemma countSwift_fold swift c :
  let c' := fold_left countSwift swift c in
  swiftProcessed c' = swiftProcessed c + length (parsedUnits swiftOutcome swift)
  /\ swiftProcessed c' + swiftErrors c' = swiftProcessed c + swiftErrors c + length swift
  /\ errorDetails c' + swiftErrors c = errorDetails c + swiftErrors c'
  /\ objcProcessed c' = objcProcessed c /\ objcErrors c' = objcErrors c.
Proof.
  revert c. induction swift as [|u swift IH]; intros c.
  - simpl. repeat split; lia.
  - cbn [fold_left]. specialize (IH (countSwift c u)). cbv zeta in *.
    destruct IH as (H1 & H2 & H3 & H4 & H5).
    destruct (countSwift_step c u) as (T1 & T2 & T3 & T4 & T5).
    destruct (parsedUnits_cons_length swiftOutcome u swift) as [L1 L2].
    cbn [length]. repeat split; lia.
Qed.

Lemma countObjC_fold objc c :
  let c' := fold_left countObjC objc c in
  objcProcessed c' = objcProcessed c + length (parsedUnits objcOutcome objc)
  /\ objcProcessed c' + objcErrors c' = objcProcessed c + objcErrors c + length objc
  /\ errorDetails c' + objcErrors c = errorDetails c + objcErrors c'
  /\ swiftProcessed c' = swiftProcessed c /\ swiftErrors c' = swiftErrors c.
Proof.
  revert c. induction objc as [|u objc IH]; intros c.
  - simpl. repeat split; lia.
  - cbn [fold_left]. specialize (IH (countObjC c u)). cbv zeta in *.
    destruct IH as (H1 & H2 & H3 & H4 & H5).
    destruct (countObjC_step c u) as (T1 & T2 & T3 & T4 & T5).
    destruct (parsedUnits_cons_length objcOutcome u objc) as [L1 L2].
    cbn [length]. repeat split; lia.
Qed.

(** X3. The counters of [init_swift_repo] account for every source file
    exactly once: processed plus errors is the number of files of each
    language, whether or not Clang is available; the processed counts
    are the numbers of units that parsed; and [errorDetails] has one
    entry per failed unit, except that Objective-C units skipped for
    lack of Clang are counted as errors without a detail entry. *)
Theorem init_counters_account clang swift objc :
  let c := initCounters clang swift objc in
  swiftProcessed c + swiftErrors c = length swift
  /\ objcProcessed c + objcErrors c = length objc
  /\ swiftProcessed c = length (parsedUnits swiftOutcome swift)
  /\ objcProcessed c = (if clang then length (parsedUnits objcOutcome objc) else 0)
  /\ errorDetails c = swiftErrors c + (if clang then objcErrors c else 0).
Proof.
  unfold initCounters.
  pose proof (countSwift_fold swift (mkCounters 0 0 0 0 0)) as Hs. cbv zeta in Hs.
  set (c0 := fold_left countSwift swift (mkCounters 0 0 0 0 0)) in *.
  destruct Hs as (S1 & S2 & S3 & S4 & S5). simpl in S1, S2, S3, S4, S5.
  pose proof (countObjC_fold objc c0) as Ho. cbv zeta in Ho.
  destruct Ho as (O1 & O2 & O3 & O4 & O5).
  destruct clang; simpl.
  - destruct objc as [|u objc]; [simpl; repeat split; lia|].
    cbn [length Nat.eqb negb] in *. cbv zeta. repeat split; lia.
  - destruct objc as [|u objc]; [simpl; repeat split; lia|].
    cbn [length Nat.eqb negb]. cbv zeta. simpl. repeat split; lia.
Qed.

(** ** The Shape A extractor as a whole *)

Lemma entryOf_fields filePath t b s :
  entryOf filePath t = Some (b, s) ->
  file s = filePath /\ key_kind t = Some (kind s) /\ key_name t = Some (name s)
  /\ kind s <> "" /\ name s <> "" /\ classify (kind s) = Some b.
Proof.
  unfold entryOf. destruct (key_kind t) as [knd|]; [|done].
  destruct (key_name t) as [nm|]; [|done].
  destruct (truthy (Some knd) && truthy (Some nm))%bool eqn:E; [|done].
  apply andb_prop in E as [E1 E2]. simpl in E1, E2.
  assert (knd <> "") by (intros ->; discriminate).
  assert (nm <> "") by (intros ->; discriminate).
  destruct (classify knd) as [[]|] eqn:Ec; intros [= <- <-]; done.
Qed.

Lemma bucketEntries_elem filePath b ts s :
  s ∈ bucketEntries filePath b ts <-> exists t, t ∈ ts /\ entryOf filePath t = Some (b, s).
Proof.
  unfold bucketEntries. rewrite list_elem_of_omap. split.
  - intros (t & Ht & H). exists t. split; [done|].
    destruct (entryOf filePath t) as [[b' x]|]; [|done].
    destruct (decide (b' = b)) as [->|]; [|done]. by injection H as ->.
  - intros (t & Ht & H). exists t. split; [done|]. rewrite H. by rewrite decide_True.
Qed.

Lemma bucket_symbol_node ast filePath b s :
  s ∈ bucket b (extractSymbols ast filePath) ->
  exists t, t ∈ preorder ast /\ entryOf filePath t = Some (b, s).
Proof. rewrite extractSymbols_spec. apply bucketEntries_elem. Qed.

(** X4. [extractSymbols] collects every declaration of the tree, nested
    ones included: each bucket lists, in pre-order, exactly the nodes
    that have a non-empty kind and name and whose kind selects that
    bucket; every collected symbol carries the unit's path, and the name
    and kind of its node. *)
Theorem extractSymbols_preorder ast filePath :
  (forall b, bucket b (extractSymbols ast filePath)
             = bucketEntries filePath b (preorder ast))
  /\ (forall b s,
         s ∈ bucket b (extractSymbols ast filePath) ->
         file s = filePath /\ classify (kind s) = Some b
         /\ exists t, t ∈ preorder ast
                      /\ key_kind t = Some (kind s) /\ key_name t = Some (name s))
  /\ (forall t knd nm b,
         t ∈ preorder ast ->
         key_kind t = Some knd -> key_name t = Some nm -> knd <> "" -> nm <> "" ->
         classify knd = Some b ->
         exists s, s ∈ bucket b (extractSymbols ast filePath)
                   /\ name s = nm /\ kind s = knd
                   /\ inheritedTypes s = default [] (key_inheritedtypes t)).
Proof.
  split; [|split].
  - intros b. apply extractSymbols_spec.
  - intros b s Hs. apply bucket_symbol_node in Hs as (t & Ht & He).
    apply entryOf_fields in He as (H1 & H2 & H3 & _ & _ & H6).
    repeat split; try done. by exists t.
  - intros t knd nm b Ht Hk Hn Hk0 Hn0 Hc.
    pose proof (entryOf_classified filePath t knd nm Hk Hn Hk0 Hn0) as He.
    rewrite Hc in He. eexists. split.
    + rewrite extractSymbols_spec. apply bucketEntries_elem. exists t. by split.
    + done.
Qed.

(** ** Member extraction *)

Lemma find_app_None {A} (f : A -> bool) (l1 l2 : list A) :
  List.find f l1 = None -> List.find f (l1 ++ l2) = List.find f l2.
Proof. induction l1 as [|x l1 IH]; simpl; [done|]. by destruct (f x). Qed.

Lemma find_app_Some {A} (f : A -> bool) (l1 l2 : list A) x :
  List.find f l1 = Some x -> List.find f (l1 ++ l2) = Some x.
Proof. induction l1 as [|y l1 IH]; simpl; [done|]. by destruct (f y). Qed.

Lemma findAndExtractMembers_find node symbolName :
  findAndExtractMembers node symbolName
  = match List.find (fun n => matchesSymbol n.1 symbolName) (preorderNodes node) with
    | Some n => ms ← extractMembers n.2; Ok (Some ms)
    | None => Ok None
    end.
Proof.
  induction node as [|t subs IH] using SwiftNode_nested_ind; [done|].
  cbn [findAndExtractMembers preorderNodes List.find fst snd].
  destruct (matchesSymbol t symbolName); [done|].
  induction IH as [|c subs Hc _ IHsubs]; [done|].
  cbn [flat_map]. rewrite Hc.
  destruct (List.find (fun n => matchesSymbol n.1 symbolName) (preorderNodes c))
    as [n|] eqn:E.
  - rewrite (find_app_Some _ _ _ _ E).
    destruct (extractMembers n.2); reflexivity.
  - rewrite (find_app_None _ _ _ E). exact IHsubs.
Qed.

(** X5. [findAndExtractMembers] returns the members of the first node,
    in pre-order, that has a non-empty kind and exactly the requested
    name - whatever its kind and wherever it sits in the tree - and
    [null] when there is no such node; it raises only when a direct child
    of that node is [null]. *)
Theorem findAndExtractMembers_first_match node symbolName :
  findAndExtractMembers node symbolName
  = match List.find (fun n => matchesSymbol n.1 symbolName) (preorderNodes node) with
    | Some n => ms ← extractMembers n.2; Ok (Some ms)
    | None => Ok None
    end.
Proof. apply findAndExtractMembers_find. Qed.






(** ** The Shape B extractor as a whole *)





Lemma objcEntriesOf_fields filePath t b s :
  (b, s) ∈ objcEntriesOf filePath t ->
  file s = filePath /\ accessibility s = Some (objcAccess filePath)
  /\ typeName s = None /\ name s <> ""
  /\ (b = BClasses \/ b = BProtocols \/ b = BExtensions)
  /\ (b = BExtensions ->
      exists target category,
        extendedType s = Some target
        /\ name s = (target +:+ "(" +:+ category +:+ ")")%string
        /\ target <> "" /\ category <> ""
        /\ o_name t = Some category
        /\ (o_interface t ≫= ref_name) = Some target)
  /\ (b <> BExtensions -> extendedType s = None /\ o_name t = Some (name s)).
Proof.
  unfold objcEntriesOf. rewrite !elem_of_app. intros [H|[H|H]].
  - destruct (namedAs "ObjCInterfaceDecl" t) as [nm|] eqn:E; [|by apply elem_of_nil in H].
    destruct (o_isImplicit t); [by apply elem_of_nil in H|].
    apply list_elem_of_singleton in H. injection H as -> ->.
    apply namedAs_Some in E as (_ & Hn & Hn0). repeat split; try done; eauto.
  - destruct (namedAs "ObjCProtocolDecl" t) as [nm|] eqn:E; [|by apply elem_of_nil in H].
    destruct (o_isImplicit t); [by apply elem_of_nil in H|].
    apply list_elem_of_singleton in H. injection H as -> ->.
    apply namedAs_Some in E as (_ & Hn & Hn0). repeat split; try done; eauto.
  - destruct (namedAs "ObjCCategoryDecl" t) as [nm|] eqn:E; [|by apply elem_of_nil in H].
    destruct (o_isImplicit t); [by apply elem_of_nil in H|].
    destruct (o_interface t ≫= ref_name) as [target|] eqn:Et; [|by apply elem_of_nil in H].
    destruct (truthy (Some target)) eqn:Etr; [|by apply elem_of_nil in H].
    apply list_elem_of_singleton in H. injection H as -> ->.
    apply namedAs_Some in E as (_ & Hn & Hn0).
    assert (target <> "") by (intros ->; discriminate).
    repeat split; try done; eauto.
    + apply category_name_nonempty.
    + intros _. exists target, nm. done.
Qed.

Lemma objcBucketEntries_elem filePath b ts s :
  s ∈ objcBucketEntries filePath b ts
  <-> exists t, t ∈ ts /\ (b, s) ∈ objcEntriesOf filePath t.
Proof.
  unfold objcBucketEntries. rewrite elem_of_flat_map. split.
  - intros (t & Ht & H). exists t. split; [done|].
    apply list_elem_of_fmap in H as ([b' s'] & -> & H).
    apply list_elem_of_filter in H as [Hb H]. simpl in Hb. by subst b'.
  - intros (t & Ht & H). exists t. split; [done|].
    apply list_elem_of_fmap. exists (b, s). split; [done|].
    by apply list_elem_of_filter.
Qed.



(** ** The run of the index loop *)

Lemma get_ordinary {V} (m : gmap string V) k :
  JsObject.ordinary k = true ->
  JsObject.get m k = match m !! k with
                     | Some v => JsObject.Own v
                     | None => JsObject.Undefined
                     end.
Proof.
  unfold JsObject.get, JsObject.ordinary. intros H.
  destruct (m !! k); [done|]. by destruct (JsObject.inherited k).
Qed.

Lemma get_not_ordinary {V} (m : gmap string V) k :
  JsObject.ordinary k = false -> m !! k = None ->
  exists i, JsObject.inherited k = Some i /\ JsObject.get m k = JsObject.Inherits i.
Proof.
  unfold JsObject.get, JsObject.ordinary. intros H ->.
  destruct (JsObject.inherited k) as [i|]; [by exists i|done].
Qed.

Lemma ordinaryKeys_empty {V} : ordinaryKeys (∅ : gmap string V).
Proof. intros k [v H]. by rewrite lookup_empty in H. Qed.

Lemma ordinaryKeys_push {V} k (x : V) m :
  ordinaryKeys m -> JsObject.ordinary k = true -> ordinaryKeys (map_push k x m).
Proof.
  intros Hm Hk k' H. unfold map_push in H.
  destruct (decide (k = k')) as [<-|Hne]; [done|].
  rewrite lookup_insert_ne in H by done. by apply Hm.
Qed.

Lemma push_spec {V} k (x : V) m :
  ordinaryKeys m ->
  Run.push k x m = if JsObject.ordinary k then Ok (map_push k x m) else Throw.
Proof.
  intros Hm. unfold Run.push, map_push.
  destruct (JsObject.ordinary k) eqn:Hk.
  - rewrite get_ordinary by done. by destruct (m !! k).
  - destruct (m !! k) as [l|] eqn:E.
    + rewrite (Hm k) in Hk by eauto. done.
    + by destruct (get_not_ordinary m k Hk E) as (i & _ & ->).
Qed.

Lemma append_spec {V} k (x : V) m :
  is_Some (m !! k) -> Run.append k x m = Ok (map_push k x m).
Proof.
  intros [l E]. unfold Run.append, map_push, JsObject.get. by rewrite E.
Qed.

Lemma map_push_is_Some {V} k k' (x : V) m :
  is_Some (m !! k') -> is_Some (map_push k x m !! k').
Proof.
  intros H. unfold map_push. destruct (decide (k = k')) as [->|Hne].
  - rewrite lookup_insert_eq. eauto.
  - by rewrite lookup_insert_ne.
Qed.

Lemma indexSymbol_run rel knd ix s :
  indexReady rel knd ix ->
  Run.indexSymbol rel knd ix s
  = if JsObject.ordinary (name s) then Ok (indexSymbol rel knd ix s) else Throw.
Proof.
  intros (Hn & Hk & Hf). unfold Run.indexSymbol, indexSymbol.
  rewrite push_spec by done. destruct (JsObject.ordinary (name s)); [|done].
  cbv [mbind Result_bind rbind]. by rewrite !append_spec.
Qed.

Lemma indexSymbol_ready rel knd ix s :
  indexReady rel knd ix -> JsObject.ordinary (name s) = true ->
  indexReady rel knd (indexSymbol rel knd ix s).
Proof.
  intros (Hn & Hk & Hf) Hs. unfold indexSymbol. split; [|split]; cbn.
  - by apply ordinaryKeys_push.
  - by apply map_push_is_Some.
  - by apply map_push_is_Some.
Qed.

Lemma indexSymbols_run rel knd l ix :
  indexReady rel knd ix ->
  fold_left (fun acc symbol => ix ← acc; Run.indexSymbol rel knd ix symbol) l (Ok ix)
  = if forallb (fun s => JsObject.ordinary (name s)) l
    then Ok (fold_left (indexSymbol rel knd) l ix) else Throw.
Proof.
  revert ix. induction l as [|s l IH]; intros ix Hix; [done|].
  cbn [fold_left forallb].
  change (ix ← Ok ix; Run.indexSymbol rel knd ix s) with (Run.indexSymbol rel knd ix s).
  rewrite indexSymbol_run by done.
  destruct (JsObject.ordinary (name s)) eqn:Hs; cbn [andb].
  - apply IH. by apply indexSymbol_ready.
  - clear. induction l as [|s' l IH]; [done|]. exact IH.
Qed.

Lemma indexSymbols_ready rel knd l ix :
  indexReady rel knd ix ->
  forallb (fun s => JsObject.ordinary (name s)) l = true ->
  indexReady rel knd (fold_left (indexSymbol rel knd) l ix).
Proof.
  revert ix. induction l as [|s l IH]; intros ix Hix Hl; [done|].
  cbn [fold_left]. cbn [forallb] in Hl. apply andb_true_iff in Hl as [Hs Hl].
  apply IH; [|done]. by apply indexSymbol_ready.
Qed.

Lemma processSymbols_start rel knd ix :
  unitReady rel ix -> JsObject.ordinary knd = true ->
  match JsObject.get (byKind ix) knd with
  | JsObject.Undefined => mkIndexes (byName ix) (<[knd := []]> (byKind ix)) (byFile ix)
  | _ => ix
  end
  = match byKind ix !! knd with
    | Some _ => ix
    | None => mkIndexes (byName ix) (<[knd := []]> (byKind ix)) (byFile ix)
    end
  /\ indexReady rel knd
       match byKind ix !! knd with
       | Some _ => ix
       | None => mkIndexes (byName ix) (<[knd := []]> (byKind ix)) (byFile ix)
       end.
Proof.
  intros (Hn & Hf) Hk. rewrite get_ordinary by done.
  destruct (byKind ix !! knd) as [l|] eqn:E.
  - split; [done|]. repeat split; [done| |done]. rewrite E. eauto.
  - split; [done|]. repeat split; [done| |done]. cbn. rewrite lookup_insert_eq. eauto.
Qed.

Lemma processSymbols_run rel l knd ix :
  unitReady rel ix -> JsObject.ordinary knd = true ->
  Run.processSymbols rel l knd ix
  = if forallb (fun s => JsObject.ordinary (name s)) l
    then Ok (processSymbols rel l knd ix) else Throw.
Proof.
  intros Hix Hk. unfold Run.processSymbols, processSymbols.
  destruct (processSymbols_start rel knd ix Hix Hk) as [-> Hready].
  by apply indexSymbols_run.
Qed.

Lemma processSymbols_ready rel l knd ix :
  unitReady rel ix -> JsObject.ordinary knd = true ->
  forallb (fun s => JsObject.ordinary (name s)) l = true ->
  unitReady rel (processSymbols rel l knd ix).
Proof.
  intros Hix Hk Hl. unfold processSymbols.
  destruct (processSymbols_start rel knd ix Hix Hk) as [_ Hready].
  destruct (indexSymbols_ready rel knd l _ Hready Hl) as (H1 & _ & H3). by split.
Qed.

Lemma ordinary_indexEntries fd :
  forallb (fun ks => JsObject.ordinary (name ks.2)) (indexEntries fd)
  = (forallb (fun s => JsObject.ordinary (name s)) (classes (symbols fd))
     && (forallb (fun s => JsObject.ordinary (name s)) (structs (symbols fd))
         && (forallb (fun s => JsObject.ordinary (name s)) (protocols (symbols fd))
             && (forallb (fun s => JsObject.ordinary (name s)) (enums (symbols fd))
                 && forallb (fun s => JsObject.ordinary (name s))
                      (functions (symbols fd))))))%bool.
Proof.
  unfold indexEntries, indexedKinds. cbn [flat_map fst snd bucket].
  rewrite app_nil_r, !forallb_app.
  assert (forall k (l : list Symbol),
    forallb (fun ks : string * Symbol => JsObject.ordinary (name ks.2))
      ((fun s => (k, s)) <$> l)
    = forallb (fun s => JsObject.ordinary (name s)) l) as E.
  { intros k l. induction l as [|s l IH]; [done|]. cbn. by rewrite <- IH. }
  by rewrite !E.
Qed.

Lemma indexFile_run repo ix entry :
  ordinaryKeys (byName ix) ->
  Run.indexFile repo (Ok ix) entry
  = if forallb (fun ks => JsObject.ordinary (name ks.2)) (indexEntries entry.2)
    then Ok (indexFile repo ix entry) else Throw.
Proof.
  intros Hn. unfold Run.indexFile, indexFile. rewrite ordinary_indexEntries.
  set (rel := getRelativePath repo entry.1).
  set (ix0 := mkIndexes (byName ix) (byKind ix) (<[rel := []]> (byFile ix))).
  assert (unitReady rel ix0) as H0.
  { split; [done|]. cbn. rewrite lookup_insert_eq. eauto. }
  cbv [mbind Result_bind rbind].
  rewrite (processSymbols_run rel _ "class" ix0 H0 eq_refl).
  destruct (forallb _ (classes _)) eqn:E1; [|done]. cbn [andb].
  pose proof (processSymbols_ready rel _ "class" ix0 H0 eq_refl E1) as H1.
  rewrite (processSymbols_run rel _ "struct" _ H1 eq_refl).
  destruct (forallb _ (structs _)) eqn:E2; [|done]. cbn [andb].
  pose proof (processSymbols_ready rel _ "struct" _ H1 eq_refl E2) as H2.
  rewrite (processSymbols_run rel _ "protocol" _ H2 eq_refl).
  destruct (forallb _ (protocols _)) eqn:E3; [|done]. cbn [andb].
  pose proof (processSymbols_ready rel _ "protocol" _ H2 eq_refl E3) as H3.
  rewrite (processSymbols_run rel _ "enum" _ H3 eq_refl).
  destruct (forallb _ (enums _)) eqn:E4; [|done]. cbn [andb].
  pose proof (processSymbols_ready rel _ "enum" _ H3 eq_refl E4) as H4.
  apply (processSymbols_run rel _ "function" _ H4 eq_refl).
Qed.

Lemma indexFile_ready repo ix entry :
  ordinaryKeys (byName ix) ->
  forallb (fun ks => JsObject.ordinary (name ks.2)) (indexEntries entry.2) = true ->
  ordinaryKeys (byName (indexFile repo ix entry)).
Proof.
  intros Hn Hall. rewrite ordinary_indexEntries in Hall.
  apply andb_true_iff in Hall as [E1 Hall]. apply andb_true_iff in Hall as [E2 Hall].
  apply andb_true_iff in Hall as [E3 Hall]. apply andb_true_iff in Hall as [E4 E5].
  unfold indexFile.
  set (rel := getRelativePath repo entry.1).
  set (ix0 := mkIndexes (byName ix) (byKind ix) (<[rel := []]> (byFile ix))).
  assert (unitReady rel ix0) as H0.
  { split; [done|]. cbn. rewrite lookup_insert_eq. eauto. }
  pose proof (processSymbols_ready rel _ "class" ix0 H0 eq_refl E1) as H1.
  pose proof (processSymbols_ready rel _ "struct" _ H1 eq_refl E2) as H2.
  pose proof (processSymbols_ready rel _ "protocol" _ H2 eq_refl E3) as H3.
  pose proof (processSymbols_ready rel _ "enum" _ H3 eq_refl E4) as H4.
  by destruct (processSymbols_ready rel _ "function" _ H4 eq_refl E5) as [? _].
Qed.

Lemma buildIndexes_fold_run repo fs ix :
  ordinaryKeys (byName ix) ->
  fold_left (Run.indexFile repo) fs (Ok ix)
  = if ordinaryNames fs then Ok (fold_left (indexFile repo) fs ix) else Throw.
Proof.
  revert ix. induction fs as [|entry fs IH]; intros ix Hn; [done|].
  cbn [fold_left ordinaryNames forallb]. rewrite indexFile_run by done.
  destruct (forallb _ (indexEntries entry.2)) eqn:E; cbn [andb].
  - apply IH. by apply indexFile_ready.
  - clear. induction fs as [|e fs IH]; [done|]. exact IH.
Qed.

(** The index loop completes exactly when no indexed symbol is named
    like a property of [Object.prototype], and then it has built
    [buildIndexes]. *)
Lemma buildIndexes_run repo fs :
  Run.buildIndexes repo fs
  = if ordinaryNames fs then Ok (buildIndexes repo fs) else Throw.
Proof.
  unfold Run.buildIndexes, buildIndexes.
  apply (buildIndexes_fold_run repo fs (mkIndexes ∅ ∅ ∅)).
  exact ordinaryKeys_empty.
Qed.

Lemma buildGraph_run repo fs :
  Run.buildGraph repo fs = if ordinaryNames fs then Ok (buildGraph repo fs) else Throw.
Proof.
  unfold Run.buildGraph. rewrite buildIndexes_run. by destruct (ordinaryNames fs).
Qed.

Lemma buildGraph_completes repo fs g :
  Run.buildGraph repo fs = Ok g <-> ordinaryNames fs = true /\ g = buildGraph repo fs.
Proof.
  rewrite buildGraph_run. destruct (ordinaryNames fs); [|intuition discriminate].
  split; [intros [= <-]; done|intros [_ ->]; done].
Qed.

Lemma ordinaryNames_elem fs :
  ordinaryNames fs = true
  <-> forall u ks, u ∈ fs -> ks ∈ indexEntries u.2 -> JsObject.ordinary (name ks.2) = true.
Proof.
  unfold ordinaryNames. rewrite forallb_forall. split.
  - intros H u ks Hu Hks. apply list_elem_of_In in Hu. specialize (H u Hu).
    rewrite forallb_forall in H. apply H. by apply list_elem_of_In.
  - intros H u Hu. apply forallb_forall. intros ks Hks.
    apply (H u ks); by apply list_elem_of_In.
Qed.

(** ** The type map of a built graph *)

Lemma typeEntries_elem repo entry ti :
  ti ∈ typeEntries repo entry
  <-> exists b, (b, ti_kind ti) ∈ typeKinds
                /\ ti_symbol ti ∈ bucket b (symbols entry.2)
                /\ ti_file ti = getRelativePath repo entry.1.
Proof.
  unfold typeEntries, typeKinds. rewrite !elem_of_app, !list_elem_of_fmap. split.
  - intros [H|[H|[H|H]]]; destruct H as (s & -> & Hs); simpl;
      [exists BClasses|exists BStructs|exists BProtocols|exists BEnums];
      (split; [|done]); apply list_elem_of_In; simpl; tauto.
  - intros (b & Hb & Hs & Hf). destruct ti as [f k s]. simpl in *. subst f.
    apply list_elem_of_In in Hb. simpl in Hb.
    destruct Hb as [[= <- <-]|[[= <- <-]|[[= <- <-]|[[= <- <-]|[]]]]]; eauto 10.
Qed.

(** Every symbol of every unit produced by the parse loops carries the
    unit's path. *)
Lemma parseAll_symbol_file clang swift objc p fd b s :
  (p, fd) ∈ parseAll clang swift objc -> s ∈ bucket b (symbols fd) -> file s = p.
Proof.
  intros Hin. revert b s.
  change ((fun q gd => forall b s, s ∈ bucket b (symbols gd) -> file s = q) p fd).
  revert p fd Hin. unfold parseAll.
  set (P := fun (q : string) (gd : FileData) =>
              forall b s, s ∈ bucket b (symbols gd) -> file s = q).
  assert (forall fs, (forall q gd, (q, gd) ∈ fs -> P q gd) ->
            forall q gd, (q, gd) ∈ fold_left processSwift swift fs -> P q gd) as Hswift.
  { induction swift as [|[path r] swift IH]; intros fs Hfs q gd; [apply Hfs|].
    simpl. apply IH. clear IH q gd. intros q gd. rewrite processSwift_outcome.
    destruct (swiftOutcome (path, r)) as [fd|] eqn:E; [|apply Hfs].
    assert (P path fd) as HP.
    { unfold swiftOutcome in E. simpl in E. destruct r as [ast|]; [|done].
      change (Ok ast ≫= _)
        with (md ← extractMemberData ast (extractSymbols ast path);
              Ok (mkFileData (extractSymbols ast path) md "swift")) in E.
      destruct (extractMemberData ast (extractSymbols ast path)) as [md|]; [|done].
      injection E as <-. intros b s Hs. simpl in Hs.
      apply bucket_symbol_node in Hs as (t & _ & He).
      by apply entryOf_fields in He as (? & _). }
    intros H. apply elem_of_obj_set in H as [[= -> ->]|[(? & _ & [= -> ->])|H]];
      [done..|by eapply Hfs]. }
  assert (forall fs, (forall q gd, (q, gd) ∈ fs -> P q gd) ->
            forall q gd, (q, gd) ∈ fold_left processObjC objc fs -> P q gd) as Hobjc.
  { induction objc as [|[path r] objc IH]; intros fs Hfs q gd; [apply Hfs|].
    simpl. apply IH. clear IH q gd. intros q gd. rewrite processObjC_outcome.
    destruct (objcOutcome (path, r)) as [fd|] eqn:E; [|apply Hfs].
    assert (P path fd) as HP.
    { unfold objcOutcome in E. simpl in E. destruct r as [ast|]; [|done].
      change (Ok ast ≫= _)
        with ('(syms, md) ← extractObjCSymbols ast path;
              Ok (mkFileData syms md "objc")) in E.
      destruct (extractObjCSymbols ast path) as [[syms md]|] eqn:Ex; [|done].
      injection E as <-. intros b s Hs. simpl in Hs.
      rewrite (extractObjCSymbols_spec _ _ _ _ b Ex) in Hs.
      apply objcBucketEntries_elem in Hs as (t & _ & Ht).
      by apply objcEntriesOf_fields in Ht as (? & _). }
    intros H. apply elem_of_obj_set in H as [[= -> ->]|[(? & _ & [= -> ->])|H]];
      [done..|by eapply Hfs]. }
  assert (forall q gd, (q, gd) ∈ fold_left processSwift swift [] -> P q gd) as H0.
  { apply Hswift. intros q gd H. by apply elem_of_nil in H. }
  destruct clang; [|apply H0]. by apply Hobjc.
Qed.

Lemma typeMap_entry_unit repo fs n ti :
  buildTypeMap repo fs !! n = Some ti ->
  exists u, u ∈ fs /\ ti ∈ typeEntries repo u /\ name (ti_symbol ti) = n.
Proof.
  rewrite typeMap_lookup. intros H.
  apply last_Some_elem_of in H. apply list_elem_of_filter in H as [Hn H].
  apply elem_of_flat_map in H as (u & Hu & H). by exists u.
Qed.

Lemma typeKinds_indexed b k : (b, k) ∈ typeKinds -> (b, k) ∈ indexedKinds.
Proof.
  intros H. apply list_elem_of_In in H. apply list_elem_of_In. simpl in *. tauto.
Qed.

Lemma indexEntries_of_bucket fd b k s :
  (b, k) ∈ indexedKinds -> s ∈ bucket b (symbols fd) -> (k, s) ∈ indexEntries fd.
Proof.
  intros Hbk Hs. unfold indexEntries. apply elem_of_flat_map. exists (b, k).
  split; [done|]. apply list_elem_of_fmap. by exists s.
Qed.

(** When the run completes, every key of the type map is an ordinary
    one: no entry has been installed as prototype. *)
Lemma typeMap_ordinary repo fs :
  ordinaryNames fs = true -> ordinaryKeys (buildTypeMap repo fs).
Proof.
  intros Hfs n [ti Hti]. apply typeMap_entry_unit in Hti as (u & Hu & Hti & <-).
  apply typeEntries_elem in Hti as (b & Hb & Hs & _).
  apply (proj1 (ordinaryNames_elem fs) Hfs u (ti_kind ti, ti_symbol ti) Hu).
  apply (indexEntries_of_bucket _ b); [by apply typeKinds_indexed|done].
Qed.

Lemma typeMap_entry repo fs n ti :
  buildTypeMap repo fs !! n = Some ti ->
  name (ti_symbol ti) = n
  /\ exists u b, u ∈ fs /\ (b, ti_kind ti) ∈ typeKinds
                 /\ ti_symbol ti ∈ bucket b (symbols u.2)
                 /\ ti_file ti = getRelativePath repo u.1.
Proof.
  intros H. apply typeMap_entry_unit in H as (u & Hu & H & Hn).
  apply typeEntries_elem in H as (b & Hb & Hs & Hf). split; [done|]. by exists u, b.
Qed.

Lemma typeMap_is_Some repo fs n :
  is_Some (buildTypeMap repo fs !! n) <-> exists u, u ∈ fs /\ declaresType u.2 n.
Proof.
  split.
  - intros [ti Hti]. destruct (typeMap_entry _ _ _ _ Hti) as (Hn & u & b & Hu & Hb & Hs & Hf).
    exists u. split; [done|]. apply (typeEntries_declares repo). exists ti.
    split; [|done]. apply typeEntries_elem. by exists b.
  - intros (u & Hu & Hd). rewrite typeMap_lookup. apply last_is_Some. intros E.
    apply (typeEntries_declares repo) in Hd as (ti & Hti & Hn).
    assert (ti ∈ filter (fun ti => name (ti_symbol ti) = n)
                   (flat_map (typeEntries repo) fs)) as Hin.
    { apply list_elem_of_filter. split; [done|]. apply elem_of_flat_map. by exists u. }
    rewrite E in Hin. by apply elem_of_nil in Hin.
Qed.

(** X8. When the graph construction completes, the type map has an
    entry for exactly the names found in the classes, structs, protocols
    or enums bucket of some unit; a symbol of the functions, extensions
    or variables bucket gives none.  An entry holds a symbol of that
    name, the kind of the bucket the symbol sits in and the relative path
    of its unit, which is the relative form of the path the symbol
    itself records.  The buckets are chosen by substring of the kind tag:
    a class method, whose kind contains "class", sits in the classes
    bucket and has an entry of kind [class]. *)
Theorem typeMap_declared_types :
  (forall repo fs g n,
      Run.buildGraph repo fs = Ok g ->
      is_Some (typeMap g !! n) <-> exists u, u ∈ fs /\ declaresType u.2 n)
  /\ (forall repo fs g n ti,
         Run.buildGraph repo fs = Ok g ->
         typeMap g !! n = Some ti ->
         name (ti_symbol ti) = n
         /\ exists u b, u ∈ fs /\ (b, ti_kind ti) ∈ typeKinds
                        /\ ti_symbol ti ∈ bucket b (symbols u.2)
                        /\ ti_file ti = getRelativePath repo u.1)
  /\ (forall repo clang swift objc g n ti,
         Run.init_swift_repo repo clang swift objc = Ok g ->
         typeMap g !! n = Some ti ->
         ti_file ti = getRelativePath repo (file (ti_symbol ti)))
  /\ (classify "source.lang.swift.decl.function.method.class" = Some BClasses
      /\ Run.buildGraph "/r" (files Fixtures.factoryGraph) = Ok Fixtures.factoryGraph
      /\ (fun ti => (ti_kind ti, kind (ti_symbol ti), ti_file ti))
           <$> typeMap Fixtures.factoryGraph !! "make()"
         = Some ("class", "source.lang.swift.decl.function.method.class", "B.swift")).
Proof.
  split; [|split; [|split]].
  - intros repo fs g n Hg. apply buildGraph_completes in Hg as [_ ->].
    apply typeMap_is_Some.
  - intros repo fs g n ti Hg. apply buildGraph_completes in Hg as [_ ->].
    apply typeMap_entry.
  - intros repo clang swift objc g n ti Hg H.
    apply buildGraph_completes in Hg as [_ ->]. simpl in H.
    destruct (typeMap_entry _ _ _ _ H) as (_ & [p fd] & b & Hu & _ & Hs & ->).
    simpl. by rewrite (parseAll_symbol_file _ _ _ _ _ _ _ Hu Hs).
  - by vm_compute.
Qed.

(** ** The kind index and the statistics *)

Lemma byKind_indexSymbols rel knd l ix :
  byKind (fold_left (indexSymbol rel knd) l ix)
  = fold_left (fun m s => map_push knd (name s) m) l (byKind ix).
Proof.
  revert ix. induction l as [|s l IH]; intros ix; simpl; [done|]. by rewrite IH.
Qed.

Lemma byKind_processSymbols rel l knd ix k :
  byKind (processSymbols rel l knd ix) !! k
  = if decide (k = knd)
    then Some (default [] (byKind ix !! k) ++ (name <$> l))
    else byKind ix !! k.
Proof.
  unfold processSymbols. rewrite byKind_indexSymbols.
  destruct (decide (k = knd)) as [->|Hk].
  - destruct (byKind ix !! knd) as [l0|] eqn:E.
    + by rewrite (fold_push_same_key _ name _ _ l0).
    + rewrite (fold_push_same_key _ name _ _ []); [done|apply lookup_insert_eq].
  - rewrite fold_push_other_key by done.
    destruct (byKind ix !! knd); [done|]. simpl. by rewrite lookup_insert_ne.
Qed.

Lemma byKind_processSymbols_default rel l knd ix k :
  default [] (byKind (processSymbols rel l knd ix) !! k)
  = default [] (byKind ix !! k) ++ (if decide (k = knd) then name <$> l else []).
Proof.
  rewrite byKind_processSymbols. destruct (decide (k = knd)); [done|by rewrite app_nil_r].
Qed.

Lemma byKind_indexFile repo ix entry k :
  default [] (byKind (indexFile repo ix entry) !! k)
  = default [] (byKind ix !! k) ++ kindNames k entry.2.
Proof.
  unfold indexFile, kindNames, indexedKinds. cbn [flat_map fst snd bucket].
  rewrite !byKind_processSymbols_default. cbn [byKind]. by rewrite app_nil_r, <- !app_assoc.
Qed.

Lemma byKind_indexFile_is_Some repo ix entry k :
  is_Some (byKind (indexFile repo ix entry) !! k)
  <-> is_Some (byKind ix !! k) \/ k ∈ snd <$> indexedKinds.
Proof.
  unfold indexFile, indexedKinds. rewrite !byKind_processSymbols. cbn [byKind fmap list_fmap snd].
  rewrite !elem_of_cons, elem_of_nil.
  repeat (destruct (decide _) as [->|?]; [split; eauto 10|]).
  split; [by left|]. intros [?|[?|[?|[?|[?|[?|[]]]]]]]; done.
Qed.

Lemma byKind_lookup repo fs k :
  default [] (byKind (buildIndexes repo fs) !! k) = flat_map (fun u => kindNames k u.2) fs.
Proof.
  unfold buildIndexes.
  assert (forall ix,
    default [] (byKind (fold_left (indexFile repo) fs ix) !! k)
    = default [] (byKind ix !! k) ++ flat_map (fun u => kindNames k u.2) fs) as H.
  { induction fs as [|u fs IH]; intros ix; simpl; [by rewrite app_nil_r|].
    by rewrite IH, byKind_indexFile, <- app_assoc. }
  rewrite H. simpl. by rewrite lookup_empty.
Qed.

Lemma byKind_keys repo fs k :
  is_Some (byKind (buildIndexes repo fs) !! k)
  <-> fs <> [] /\ k ∈ snd <$> indexedKinds.
Proof.
  unfold buildIndexes.
  assert (forall ix,
    is_Some (byKind (fold_left (indexFile repo) fs ix) !! k)
    <-> is_Some (byKind ix !! k) \/ (fs <> [] /\ k ∈ snd <$> indexedKinds)) as H.
  { induction fs as [|u fs IH]; intros ix; simpl.
    - split; [by left|]. intros [?|[? _]]; done.
    - rewrite IH, byKind_indexFile_is_Some. split.
      + intros [[?|?]|[_ ?]]; [by left|by right..].
      + intros [?|[_ ?]]; [by left; left|by left; right]. }
  rewrite H. simpl. rewrite lookup_empty. split.
  - intros [[? ?]|?]; done.
  - by right.
Qed.

Lemma insertBySize_Permutation x l : insertBySize x l ≡ₚ x :: l.
Proof.
  induction l as [|y l IH]; simpl; [done|].
  destruct (Nat.ltb (fs_count x) (fs_count y)); [|done].
  rewrite IH. apply Permutation_swap.
Qed.

Lemma sortBySize_Permutation l : sortBySize l ≡ₚ l.
Proof.
  induction l as [|x l IH]; simpl; [done|].
  by rewrite insertBySize_Permutation, IH.
Qed.

Lemma statsStep_fold repo fs acc :
  let r := fold_left (statsStep repo) fs acc in
  st_classes r = st_classes acc + length (flat_map (fun u => classes (symbols u.2)) fs)
  /\ st_structs r = st_structs acc + length (flat_map (fun u => structs (symbols u.2)) fs)
  /\ st_protocols r
     = st_protocols acc + length (flat_map (fun u => protocols (symbols u.2)) fs)
  /\ st_enums r = st_enums acc + length (flat_map (fun u => enums (symbols u.2)) fs)
  /\ st_functions r
     = st_functions acc + length (flat_map (fun u => functions (symbols u.2)) fs)
  /\ st_extensions r
     = st_extensions acc + length (flat_map (fun u => extensions (symbols u.2)) fs)
  /\ st_fileSizes r = st_fileSizes acc ++ (unitSize repo <$> fs).
Proof.
  revert acc. induction fs as [|u fs IH]; intros acc.
  - simpl. rewrite app_nil_r. repeat split; lia.
  - cbn [fold_left flat_map]. specialize (IH (statsStep repo acc u)). cbv zeta in *.
    destruct IH as (H1 & H2 & H3 & H4 & H5 & H6 & H7).
    rewrite H1, H2, H3, H4, H5, H6, H7. rewrite !length_app. cbn [statsStep st_classes
      st_structs st_protocols st_enums st_functions st_extensions st_fileSizes].
    rewrite fmap_cons, <- app_assoc. repeat split; lia.
Qed.

Lemma sum_unit_sizes repo fs :
  sum_list (fs_count <$> (unitSize repo <$> fs))
  = length (flat_map (fun u => classes (symbols u.2)) fs)
    + length (flat_map (fun u => structs (symbols u.2)) fs)
    + length (flat_map (fun u => protocols (symbols u.2)) fs)
    + length (flat_map (fun u => enums (symbols u.2)) fs)
    + length (flat_map (fun u => functions (symbols u.2)) fs).
Proof.
  induction fs as [|u fs IH]; [done|].
  cbn [fmap list_fmap sum_list sum_list_with flat_map]. rewrite !length_app.
  change (sum_list_with id (fs_count <$> (unitSize repo <$> fs)))
    with (sum_list (fs_count <$> (unitSize repo <$> fs))).
  rewrite IH. unfold unitSize. simpl. lia.
Qed.

Lemma kindNames_length repo fs b k :
  (b, k) ∈ indexedKinds ->
  length (default [] (byKind (buildIndexes repo fs) !! k))
  = length (flat_map (fun u => bucket b (symbols u.2)) fs).
Proof.
  intros Hbk. rewrite byKind_lookup.
  assert (forall fd, kindNames k fd = name <$> bucket b (symbols fd)) as E.
  { intros fd. apply list_elem_of_In in Hbk. simpl in Hbk.
    destruct Hbk as [[= <- <-]|[[= <- <-]|[[= <- <-]|[[= <- <-]|[[= <- <-]|[]]]]]];
      unfold kindNames, indexedKinds; cbn [flat_map fst snd];
      repeat (destruct (decide _) as [?|?]; try discriminate; try done);
      by rewrite ?app_nil_r. }
  induction fs as [|u fs IH]; [done|].
  cbn [flat_map]. rewrite !length_app, IH, E. by rewrite length_fmap.
Qed.

(** X9. In a built graph, [byKind] has the five keys class, struct,
    protocol, enum and function as soon as there is one unit, and no
    other key; under each it lists, unit by unit, the names of that
    bucket.  The figures of [get_codebase_stats] agree with it: each
    count is the length of the [byKind] list of its kind, the type total
    leaves functions and extensions out, and the per-file sizes add up
    to the five indexed counts. *)
Theorem stats_agree_with_kind_index repo fs :
  (forall k, is_Some (byKind (indexes (buildGraph repo fs)) !! k)
             <-> fs <> [] /\ k ∈ snd <$> indexedKinds)
  /\ (forall k, default [] (byKind (indexes (buildGraph repo fs)) !! k)
                = flat_map (fun u => kindNames k u.2) fs)
  /\ exists st,
      get_codebase_stats (Some (buildGraph repo fs)) = Some st
      /\ st_fileCount st = length fs
      /\ st_classes st = length (default [] (byKind (indexes (buildGraph repo fs)) !! "class"))
      /\ st_structs st = length (default [] (byKind (indexes (buildGraph repo fs)) !! "struct"))
      /\ st_protocols st
         = length (default [] (byKind (indexes (buildGraph repo fs)) !! "protocol"))
      /\ st_enums st = length (default [] (byKind (indexes (buildGraph repo fs)) !! "enum"))
      /\ st_functions st
         = length (default [] (byKind (indexes (buildGraph repo fs)) !! "function"))
      /\ st_extensions st = length (flat_map (fun u => extensions (symbols u.2)) fs)
      /\ st_total st = st_classes st + st_structs st + st_protocols st + st_enums st
      /\ sum_list (fs_count <$> st_fileSizes st)
         = st_classes st + st_structs st + st_protocols st + st_enums st + st_functions st.
Proof.
  split; [intros k; apply byKind_keys|]. split; [intros k; apply byKind_lookup|].
  eexists. split; [reflexivity|]. cbn [st_fileCount st_classes st_structs st_protocols
    st_enums st_functions st_extensions st_total st_fileSizes buildGraph files repoPath
    indexes].
  pose proof (statsStep_fold repo fs (mkStats 0 0 0 0 0 0 0 0 [] [])) as H.
  cbv zeta in H. destruct H as (H1 & H2 & H3 & H4 & H5 & H6 & H7).
  rewrite H1, H2, H3, H4, H5, H6, H7. cbn [st_classes st_structs st_protocols st_enums
    st_functions st_extensions st_fileSizes app].
  rewrite (kindNames_length repo fs BClasses "class") by (apply list_elem_of_In; simpl; tauto).
  rewrite (kindNames_length repo fs BStructs "struct") by (apply list_elem_of_In; simpl; tauto).
  rewrite (kindNames_length repo fs BProtocols "protocol")
    by (apply list_elem_of_In; simpl; tauto).
  rewrite (kindNames_length repo fs BEnums "enum") by (apply list_elem_of_In; simpl; tauto).
  rewrite (kindNames_length repo fs BFunctions "function")
    by (apply list_elem_of_In; simpl; tauto).
  cbn [bucket]. repeat split; try done.
  rewrite (sortBySize_Permutation (unitSize repo <$> fs)). apply sum_unit_sizes.
Qed.


(** ** Edges *)

Lemma ordinary_proto : JsObject.ordinary "__proto__" = false.
Proof. reflexivity. Qed.

(** Reading a type map that has only ordinary keys. *)
Lemma readTypeMap_ordinary tm k :
  ordinaryKeys tm ->
  readTypeMap tm k
  = match tm !! k with
    | Some ti => TypeEntry ti
    | None => if JsObject.ordinary k then Falsy else OtherValue None
    end.
Proof.
  intros Htm. unfold readTypeMap. destruct (tm !! k); [done|].
  destruct (tm !! "__proto__") as [e|] eqn:E; [|done].
  assert (JsObject.ordinary "__proto__" = true) as H by (apply Htm; eauto).
  by rewrite ordinary_proto in H.
Qed.

Lemma buildEdges_elem repo tm fs e :
  e ∈ buildEdges repo tm fs
  <-> exists u s,
        u ∈ fs /\ s ∈ edgeSources u.2 /\ toSymbol e ∈ inheritedTypes s
        /\ e_from e = getRelativePath repo u.1 /\ fromSymbol e = name s
        /\ match readTypeMap tm (toSymbol e) with
           | TypeEntry ti => e_to e = Some (ti_file ti)
           | OtherValue itsFile => e_to e = itsFile
           | Falsy => False
           end.
Proof.
  rewrite buildEdges_spec, elem_of_flat_map. unfold edgeSources. split.
  - intros (u & Hu & H). apply elem_of_flat_map in H as (s & Hs & H).
    unfold symbolEdges in H. apply elem_of_flat_map in H as (inh & Hinh & H).
    exists u, s.
    destruct (readTypeMap tm inh) as [ti|f|] eqn:E; [| |by apply elem_of_nil in H];
      apply list_elem_of_singleton in H; subst e; cbn; by rewrite E.
  - intros (u & s & Hu & Hs & Hinh & Hfrom & Hsym & Hto). exists u. split; [done|].
    apply elem_of_flat_map. exists s. split; [done|].
    unfold symbolEdges. apply elem_of_flat_map. exists (toSymbol e). split; [done|].
    destruct e as [f t fs' ts]. cbn in *. subst f fs'.
    destruct (readTypeMap tm ts) as [ti|f|]; [subst t; left|subst t; left|done].
Qed.

(** The edges of a completed run. *)
Lemma edges_completed repo fs e :
  ordinaryNames fs = true ->
  e ∈ buildEdges repo (buildTypeMap repo fs) fs
  <-> exists u s,
        u ∈ fs /\ s ∈ edgeSources u.2 /\ toSymbol e ∈ inheritedTypes s
        /\ e_from e = getRelativePath repo u.1 /\ fromSymbol e = name s
        /\ ((exists ti, buildTypeMap repo fs !! toSymbol e = Some ti
                        /\ e_to e = Some (ti_file ti))
            \/ (buildTypeMap repo fs !! toSymbol e = None
                /\ JsObject.ordinary (toSymbol e) = false /\ e_to e = None)).
Proof.
  intros Hfs. rewrite buildEdges_elem.
  rewrite (readTypeMap_ordinary _ _ (typeMap_ordinary repo fs Hfs)).
  split; intros (u & s & Hu & Hs & Hinh & Hfrom & Hsym & Hto); exists u, s;
    repeat (split; [done|]).
  - destruct (buildTypeMap repo fs !! toSymbol e) as [ti|]; [left; eauto|right].
    by destruct (JsObject.ordinary (toSymbol e)).
  - destruct Hto as [(ti & -> & Hto)|(-> & -> & Hto)]; done.
Qed.

(** C1. The guard of the edge loop is the truthiness of
    [typeMap[inherited]], and [typeMap] is a plain object: for a class
    that names [toString] and [External] in its inheritance clause the
    run completes, neither name is a key of the type map, [External]
    gives no edge and [toString] gives an edge whose [to] is
    [undefined].  In general the edges of a constructed graph are those
    that resolve through the type map and those whose target is named
    like a property of [Object.prototype]; any other name missing from
    the type map is the target of no edge. *)
Theorem C1_dangling_edges :
  (Run.init_swift_repo "/r" true [Fixtures.prototypeUnit] [] = Ok Fixtures.prototypeGraph
   /\ typeMap Fixtures.prototypeGraph !! "toString" = None
   /\ typeMap Fixtures.prototypeGraph !! "External" = None
   /\ edges Fixtures.prototypeGraph = [mkEdge "A.swift" None "Foo" "toString"])
  /\ (Run.init_swift_repo "/r" true [Fixtures.baseUnit; Fixtures.childUnit] []
      = Ok Fixtures.inheritanceGraph
      /\ edges Fixtures.inheritanceGraph
         = [mkEdge "B.swift" (Some "A.swift") "Child" "Base"])
  /\ (forall repo fs g e,
         Run.buildGraph repo fs = Ok g ->
         e ∈ edges g ->
         (exists ti, typeMap g !! toSymbol e = Some ti /\ e_to e = Some (ti_file ti))
         \/ (typeMap g !! toSymbol e = None
             /\ JsObject.ordinary (toSymbol e) = false /\ e_to e = None))
  /\ (forall repo fs g inherited e,
         Run.buildGraph repo fs = Ok g ->
         typeMap g !! inherited = None -> JsObject.ordinary inherited = true ->
         e ∈ edges g -> toSymbol e <> inherited).
Proof.
  split; [by vm_compute|]. split; [by vm_compute|]. split.
  - intros repo fs g e Hg He. apply buildGraph_completes in Hg as [Hfs ->].
    cbn [edges typeMap buildGraph] in *.
    by apply (edges_completed repo fs e Hfs) in He as (u & s & _ & _ & _ & _ & _ & H).
  - intros repo fs g inherited e Hg Htm Hord He <-.
    apply buildGraph_completes in Hg as [Hfs ->]. cbn [edges typeMap buildGraph] in *.
    apply (edges_completed repo fs e Hfs) in He as (u & s & _ & _ & _ & _ & _ & H).
    destruct H as [(ti & H & _)|(_ & H & _)]; congruence.
Qed.



(** ** Duplicate names *)

(** C2 (as written): the name index holds one entry per declaring unit.
    Unit A nests one [enum CodingKeys] and unit B nests two: both units
    declare the name, and the index holds three locations for it. *)
Lemma C2_counterexample :
  ~ (forall repo fs n g,
        length fs = 2 ->
        (forall u, u ∈ fs -> declaresType u.2 n) ->
        Run.buildGraph repo fs = Ok g ->
        length <$> byName (indexes g) !! n = Some 2).
Proof.
  intros H.
  specialize (H "/r" Fixtures.codingKeysFiles "CodingKeys"
                (buildGraph "/r" Fixtures.codingKeysFiles) eq_refl).
  assert (length <$> byName (indexes (buildGraph "/r" Fixtures.codingKeysFiles))
                       !! "CodingKeys" = Some 3) as E by (vm_compute; reflexivity).
  rewrite H in E; [discriminate| |vm_compute; reflexivity].
  intros u Hu. unfold declaresType.
  assert (exists s, s ∈ enums (symbols u.2) /\ name s = "CodingKeys") as (s & Hs & Hn).
  { vm_compute in Hu.
    apply elem_of_cons in Hu as [->|Hu]; [eexists; split; [left|reflexivity]|].
    apply list_elem_of_singleton in Hu. subst u. eexists; split; [left|reflexivity]. }
  exists s. split; [|done]. rewrite !elem_of_app. auto.
Qed.

(** C2 (amended). Two units processed in that order both declare a
    class, struct, protocol or enum named [n], no later unit does, and
    no indexed symbol is named like a property of [Object.prototype].
    Then the run completes; the type map entry of [n] is the one written
    by the second unit; and [indexes.byName] keeps, in processing order
    and without dedup, one location per declaration of [n] in every
    unit: at least one for each of the two units, and exactly two when
    the two units are the whole input and each declares the name once. *)
Theorem C2_duplicate_names repo fs pre u1 mid u2 post n :
  fs = pre ++ u1 :: mid ++ u2 :: post ->
  declaresType u1.2 n ->
  declaresType u2.2 n ->
  (forall u, u ∈ post -> ~ declaresType u.2 n) ->
  ordinaryNames fs = true ->
  exists g,
    Run.buildGraph repo fs = Ok g
    /\ (exists ti, typeMap g !! n = Some ti
                   /\ ti ∈ typeEntries repo u2
                   /\ ti_file ti = getRelativePath repo u2.1
                   /\ name (ti_symbol ti) = n)
    /\ (exists locs, byName (indexes g) !! n = Some locs
                     /\ locs = flat_map (nameLocs repo n) fs
                     /\ nameLocs repo n u1 <> []
                     /\ nameLocs repo n u2 <> []
                     /\ 2 <= length locs)
    /\ (pre = [] -> mid = [] -> post = [] ->
        length (nameLocs repo n u1) = 1 -> length (nameLocs repo n u2) = 1 ->
        exists k1 k2,
          byName (indexes g) !! n
          = Some [mkLoc (getRelativePath repo u1.1) k1; mkLoc (getRelativePath repo u2.1) k2]).
Proof.
  intros -> Hd1 Hd2 Hpost Hord.
  exists (buildGraph repo (pre ++ u1 :: mid ++ u2 :: post)).
  split; [by apply buildGraph_completes|]. cbn [typeMap indexes buildGraph].
  assert (exists locs,
    byName (buildIndexes repo (pre ++ u1 :: mid ++ u2 :: post)) !! n = Some locs
    /\ locs = flat_map (nameLocs repo n) (pre ++ u1 :: mid ++ u2 :: post)) as Hlocs.
  { destruct (byName (buildIndexes repo (pre ++ u1 :: mid ++ u2 :: post)) !! n)
      as [locs|] eqn:E.
    - exists locs. split; [done|]. by rewrite <- byName_lookup, E.
    - apply byName_lookup_None in E. rewrite flat_map_app in E. simpl in E.
      apply app_eq_nil in E as [_ E]. apply app_eq_nil in E as [E _].
      by apply nameLocs_declares in E. }
  split; [|split].
  - replace (pre ++ u1 :: mid ++ u2 :: post) with ((pre ++ u1 :: mid) ++ u2 :: post)
      by (by rewrite <- app_assoc).
    destruct (typeMap_last_wins repo (pre ++ u1 :: mid) u2 post n Hd2 Hpost)
      as (ti & H1 & H2 & H3).
    exists ti. repeat split; try done. by apply typeEntries_file in H2.
  - destruct Hlocs as (locs & H1 & H2). exists locs.
    pose proof (nameLocs_declares repo n u1 Hd1) as N1.
    pose proof (nameLocs_declares repo n u2 Hd2) as N2.
    repeat split; try done.
    rewrite H2, flat_map_app. cbn [flat_map]. rewrite flat_map_app. cbn [flat_map].
    rewrite !length_app.
    destruct (nameLocs repo n u1); [done|]. destruct (nameLocs repo n u2); [done|].
    simpl. lia.
  - intros -> -> -> L1 L2. destruct Hlocs as (locs & H1 & H2).
    rewrite H1, H2. simpl. rewrite app_nil_r.
    unfold nameLocs in *.
    destruct (filter (fun ks => name ks.2 = n) (indexEntries u1.2)) as [|[k1 s1] [|? ?]];
      try done.
    destruct (filter (fun ks => name ks.2 = n) (indexEntries u2.2)) as [|[k2 s2] [|? ?]];
      try done.
    by exists k1, k2.
Qed.

Lemma C2_duplicate_names_witness :
  exists g,
    Run.buildGraph "/r" Fixtures.duplicateFiles = Ok g
    /\ (exists ti, typeMap g !! "Foo" = Some ti /\ ti_file ti = "B.swift")
    /\ (exists k1 k2, byName (indexes g) !! "Foo"
                      = Some [mkLoc "A.swift" k1; mkLoc "B.swift" k2]).
Proof.
  pose (foo := fun path =>
          mkSymbol "Foo" "source.lang.swift.decl.class" path [] (Some "internal")
            None None None None).
  pose (fd := fun path =>
          mkFileData (mkSymbols [foo path] [] [] [] [] [] []) {["Foo" := noMembers]} "swift").
  destruct (C2_duplicate_names "/r" Fixtures.duplicateFiles
              [] ("/r/A.swift", fd "/r/A.swift") [] ("/r/B.swift", fd "/r/B.swift") [] "Foo")
    as (g & Hg & (ti & H1 & H2 & H3 & H4) & _ & H5).
  - vm_compute. reflexivity.
  - exists (foo "/r/A.swift"). split; [left|reflexivity].
  - exists (foo "/r/B.swift"). split; [left|reflexivity].
  - intros u Hu. by apply elem_of_nil in Hu.
  - vm_compute. reflexivity.
  - exists g. split; [exact Hg|]. split.
    + exists ti. split; [exact H1|exact H3].
    + exact (H5 eq_refl eq_refl eq_refl eq_refl eq_refl).
Defined.

(** ** Resolving a name *)

Lemma lastIs_append c a b : b <> "" -> lastIs c (a +:+ b) = lastIs c b.
Proof.
  intros Hb. induction a as [|x a IH]; [done|].
  change ((String x a) +:+ b) with (String x (a +:+ b)).
  destruct (a +:+ b) as [|y r] eqn:E.
  - destruct a; [change ("" +:+ b) with b in E; congruence|discriminate].
  - cbn [lastIs]. exact IH.
Qed.

(** The names of the properties of [Object.prototype] end neither in
    [s] nor in a bracket. *)
Lemma inherited_last key i :
  JsObject.inherited key = Some i ->
  lastIs "s" key = false /\ lastIs "}" key = false /\ lastIs "]" key = false.
Proof.
  unfold JsObject.inherited.
  destruct (String.eqb_spec key "__proto__") as [->|_]; [done|].
  destruct (List.find _ JsObject.prototypeFunctions) as [f|] eqn:E; [|done].
  intros _. apply find_some in E as [Hin Hk]. apply String.eqb_eq in Hk. subst key.
  simpl in Hin.
  repeat (destruct Hin as [<-|Hin]; [done|]). done.
Qed.

(** The key computed from a kind never names a property that the
    [symbols] object inherits. *)
Lemma symbolsByKey_pluralKind knd s i :
  symbolsByKey (pluralKind knd) s <> JsObject.Inherits i.
Proof.
  unfold symbolsByKey.
  repeat match goal with
         | |- context [if String.eqb ?k ?l then _ else _] => destruct (String.eqb k l); [done|]
         end.
  destruct (JsObject.inherited (pluralKind knd)) as [j|] eqn:E; [|done].
  exfalso. apply inherited_last in E as (Hs & Hb & Hk).
  unfold pluralKind, JsObject.get in *.
  destruct (kindToPlural !! knd) as [plural|] eqn:Ep.
  - apply elem_of_list_to_map_2, list_elem_of_In in Ep. simpl in Ep.
    repeat (destruct Ep as [[= <- <-]|Ep]; [done|]). done.
  - destruct (JsObject.inherited knd) as [[fname len|]|].
    + unfold JsObject.inheritedText in Hb.
      rewrite lastIs_append in Hb by (by destruct fname).
      rewrite lastIs_append in Hb; done.
    + done.
    + rewrite lastIs_append in Hs; done.
Qed.

Lemma indexedKinds_bucket b k syms :
  (b, k) ∈ indexedKinds ->
  symbolsByKey (pluralKind k) syms = JsObject.Own (bucket b syms).
Proof.
  intros H. apply list_elem_of_In in H. simpl in H.
  by destruct H as [[= <- <-]|[[= <- <-]|[[= <- <-]|[[= <- <-]|[[= <- <-]|[]]]]]].
Qed.

(** The index path raises only for a name inherited from
    [Object.prototype]. *)
Lemma findByIndex_ordinary pj d n :
  JsObject.ordinary n = true -> exists r, findByIndex pj d n = Ok r.
Proof.
  intros Hn. unfold findByIndex. rewrite get_ordinary by done.
  destruct (byName (indexes d) !! n) as [[|loc rest]|]; [eauto| |eauto].
  destruct (readFile (files d) _) as [fd| |]; [|eauto..].
  destruct (symbolsByKey _ _) as [l|i|] eqn:E; [| |eauto].
  - destruct (List.find _ l); eauto.
  - by apply symbolsByKey_pluralKind in E.
Qed.

Lemma findByTypeMap_ordinary d n :
  JsObject.ordinary n = true ->
  findByTypeMap d n
  = (fun ti => FoundSymbol (mkResolved (withFile (ti_symbol ti) (ti_file ti)) (ti_kind ti)))
      <$> typeMap d !! n.
Proof.
  intros Hn. unfold findByTypeMap. rewrite get_ordinary by done.
  by destruct (typeMap d !! n).
Qed.

(** What [findSymbol] does with a name that is in neither map. *)
Lemma findSymbol_missing pj d n :
  byName (indexes d) !! n = None -> typeMap d !! n = None ->
  findSymbol pj (Some d) n
  = match JsObject.inherited n with
    | None => Ok None
    | Some (JsObject.InheritedFunction _ (S _)) => Throw
    | Some _ => Ok (Some FoundInherited)
    end.
Proof.
  intros Hidx Htm. cbn [findSymbol]. unfold findSymbolIn, findByIndex, findByTypeMap.
  unfold JsObject.get. rewrite Hidx, Htm.
  destruct (JsObject.inherited n) as [[fname [|len]|]|]; reflexivity.
Qed.

(** C3. For a name that [Object.prototype] does not define,
    [findSymbol] does what the claim says and never raises: it takes the
    first location recorded in [byName], looks for the first symbol of
    that exact name in the bucket named by the pluralized kind and
    returns it with the location's file and kind; without a location it
    answers from the type map; it answers "not found" exactly when both
    miss.  The lookups are reads of plain objects, though: for a name
    that is in neither map, [findSymbol] raises when [Object.prototype]
    holds a function of non-zero [length] under it ([constructor],
    [hasOwnProperty], ...) and returns an object without file and kind
    when it holds another value ([toString], [valueOf], [__proto__],
    ...), on which [explain_symbol] raises. *)
Theorem C3_resolve pj d n :
  (JsObject.ordinary n = true ->
   (exists r, findSymbol pj (Some d) n = Ok r)
   /\ (forall loc rest fd lst l1 s l2,
          byName (indexes d) !! n = Some (loc :: rest) ->
          obj_get (pj (repoPath d) (loc_file loc)) (files d) = Some fd ->
          symbolsByKey (pluralKind (loc_kind loc)) (symbols fd) = JsObject.Own lst ->
          lst = l1 ++ s :: l2 -> name s = n -> (forall x, x ∈ l1 -> name x <> n) ->
          findSymbol pj (Some d) n
          = Ok (Some (FoundSymbol (mkResolved (withFile s (loc_file loc)) (loc_kind loc)))))
   /\ (byName (indexes d) !! n = None \/ byName (indexes d) !! n = Some [] ->
       findSymbol pj (Some d) n
       = Ok ((fun ti => FoundSymbol
                          (mkResolved (withFile (ti_symbol ti) (ti_file ti)) (ti_kind ti)))
               <$> typeMap d !! n))
   /\ (findSymbol pj (Some d) n = Ok None
       <-> findByIndex pj d n = Ok None /\ typeMap d !! n = None)
   /\ (byName (indexes d) !! n = None -> typeMap d !! n = None ->
       findSymbol pj (Some d) n = Ok None
       /\ explain_symbol pj (Some d) n = Ok SymbolNotFound))
  /\ (forall fd, symbolsByKey (pluralKind "class") (symbols fd)
                 = JsObject.Own (classes (symbols fd))
                 /\ symbolsByKey (pluralKind "struct") (symbols fd)
                    = JsObject.Own (structs (symbols fd))
                 /\ symbolsByKey (pluralKind "protocol") (symbols fd)
                    = JsObject.Own (protocols (symbols fd))
                 /\ symbolsByKey (pluralKind "enum") (symbols fd)
                    = JsObject.Own (enums (symbols fd))
                 /\ symbolsByKey (pluralKind "function") (symbols fd)
                    = JsObject.Own (functions (symbols fd)))
  /\ (byName (indexes d) !! n = None -> typeMap d !! n = None ->
      findSymbol pj (Some d) n
      = match JsObject.inherited n with
        | None => Ok None
        | Some (JsObject.InheritedFunction _ (S _)) => Throw
        | Some _ => Ok (Some FoundInherited)
        end)
  /\ (findSymbol Fixtures.simple_join (Some Fixtures.userGraph) "UserViewModel"
      = Ok (Some (FoundSymbol
                    (mkResolved
                       (mkSymbol "UserViewModel" "source.lang.swift.decl.class" "A.swift" []
                          (Some "internal") None None None None) "class")))
      /\ findSymbol Fixtures.simple_join (Some Fixtures.inheritanceGraph) "NoSuchType" = Ok None
      /\ explain_symbol Fixtures.simple_join (Some Fixtures.inheritanceGraph) "NoSuchType"
         = Ok SymbolNotFound
      /\ byName (indexes Fixtures.inheritanceGraph) !! "constructor" = None
      /\ typeMap Fixtures.inheritanceGraph !! "constructor" = None
      /\ findSymbol Fixtures.simple_join (Some Fixtures.inheritanceGraph) "constructor" = Throw
      /\ explain_symbol Fixtures.simple_join (Some Fixtures.inheritanceGraph) "constructor"
         = Throw
      /\ byName (indexes Fixtures.inheritanceGraph) !! "toString" = None
      /\ typeMap Fixtures.inheritanceGraph !! "toString" = None
      /\ findSymbol Fixtures.simple_join (Some Fixtures.inheritanceGraph) "toString"
         = Ok (Some FoundInherited)
      /\ explain_symbol Fixtures.simple_join (Some Fixtures.inheritanceGraph) "toString"
         = Throw).
Proof.
  split; [|split; [|split; [|by vm_compute]]].
  - intros Hn.
    destruct (findByIndex_ordinary pj d n Hn) as [r Hr].
    assert (findSymbol pj (Some d) n
            = Ok match r with
                 | Some symbol => Some (FoundSymbol symbol)
                 | None => findByTypeMap d n
                 end) as Hfind.
    { cbn [findSymbol]. unfold findSymbolIn. rewrite Hr. by destruct r. }
    split; [eauto|]. split; [|split; [|split]].
    + intros loc rest fd lst l1 s l2 Hidx Hfile Hbucket -> Hs Hl1.
      cbn [findSymbol]. unfold findSymbolIn, findByIndex, readFile.
      rewrite get_ordinary by done.
      rewrite Hidx, Hfile, Hbucket, (find_first_named n l1 l2 s Hs Hl1). reflexivity.
    + intros H. rewrite <- findByTypeMap_ordinary by done.
      cbn [findSymbol]. unfold findSymbolIn, findByIndex.
      rewrite get_ordinary by done. by destruct H as [-> | ->].
    + rewrite Hfind, Hr, findByTypeMap_ordinary by done.
      destruct r; [split; [discriminate|intros [[=] _]]|].
      destruct (typeMap d !! n); [split; [discriminate|intros [_ [=]]]|done].
    + intros Hidx Htm. rewrite (findSymbol_missing pj d n Hidx Htm).
      assert (JsObject.inherited n = None) as E.
      { unfold JsObject.ordinary in Hn. by destruct (JsObject.inherited n). }
      split; [by rewrite E|]. unfold explain_symbol.
      rewrite (findSymbol_missing pj d n Hidx Htm), E. reflexivity.
  - intros fd. repeat split.
  - apply findSymbol_missing.
Qed.

(** ** Resolving names of a built graph *)

Lemma obj_get_NoDup {V} (o : list (string * V)) p v :
  NoDup (fst <$> o) -> (p, v) ∈ o -> obj_get p o = Some v.
Proof.
  induction o as [|[k w] o IH]; intros Hnd Hin; [by apply elem_of_nil in Hin|].
  rewrite fmap_cons in Hnd. apply NoDup_cons in Hnd as [Hk Hnd]. cbn [obj_get].
  apply elem_of_cons in Hin as [[= -> ->]|Hin].
  - by rewrite String.eqb_refl.
  - destruct (String.eqb_spec k p) as [->|_]; [|by apply IH].
    exfalso. apply Hk. apply list_elem_of_fmap. by exists (p, v).
Qed.

Lemma indexEntries_elem fd k s :
  (k, s) ∈ indexEntries fd
  <-> exists b, (b, k) ∈ indexedKinds /\ s ∈ bucket b (symbols fd).
Proof.
  unfold indexEntries. rewrite elem_of_flat_map. split.
  - intros ([b k'] & Hbk & H). apply list_elem_of_fmap in H as (s' & [= -> ->] & Hs).
    by exists b.
  - intros (b & Hbk & Hs). exists (b, k). split; [done|].
    apply list_elem_of_fmap. by exists s.
Qed.

Lemma find_named n (l : list Symbol) s :
  s ∈ l -> name s = n ->
  exists s', List.find (fun x => String.eqb (name x) n) l = Some s'
             /\ s' ∈ l /\ name s' = n.
Proof.
  intros Hs Hn.
  destruct (List.find (fun x => String.eqb (name x) n) l) as [s'|] eqn:E.
  - apply find_some in E as [H1 H2]. exists s'. split; [done|].
    split; [by apply list_elem_of_In|by apply String.eqb_eq].
  - apply list_elem_of_In in Hs. pose proof (find_none _ _ E _ Hs) as H. simpl in H.
    apply String.eqb_neq in H. done.
Qed.

Lemma flat_map_nil_prefix {A B} (f : A -> list B) (pre : list A) :
  (forall u, u ∈ pre -> f u = []) -> flat_map f pre = [].
Proof.
  induction pre as [|u pre IH]; intros H; [done|].
  simpl. rewrite (H u) by left. apply IH. intros v Hv. apply H. by right.
Qed.

(** The first unit that contributes a location for a name. *)
Lemma first_declaring_unit repo n (fs : list (string * FileData)) v :
  v ∈ fs -> nameLocs repo n v <> [] ->
  exists pre u0 post,
    fs = pre ++ u0 :: post
    /\ (forall u, u ∈ pre -> nameLocs repo n u = [])
    /\ nameLocs repo n u0 <> [].
Proof.
  intros Hv Hvn. induction fs as [|w fs IH]; [by apply elem_of_nil in Hv|].
  destruct (decide (nameLocs repo n w = [])) as [Hw|Hw].
  - apply elem_of_cons in Hv as [->|Hv]; [done|].
    destruct (IH Hv) as (pre & u0 & post & -> & Hpre & Hu0).
    exists (w :: pre), u0, post. split; [done|]. split; [|done].
    intros u Hu. apply elem_of_cons in Hu as [->|Hu]; [done|by apply Hpre].
  - exists [], w, fs. split; [done|]. split; [|done].
    intros u Hu. by apply elem_of_nil in Hu.
Qed.

Lemma nameLocs_ordinary repo fs n u :
  ordinaryNames fs = true -> u ∈ fs -> nameLocs repo n u <> [] ->
  JsObject.ordinary n = true.
Proof.
  intros Hfs Hu Hne. unfold nameLocs in Hne.
  destruct (filter (fun ks => name ks.2 = n) (indexEntries u.2)) as [|ks rest] eqn:E;
    [done|].
  assert (ks ∈ filter (fun ks => name ks.2 = n) (indexEntries u.2)) as Hin
    by (rewrite E; left).
  apply list_elem_of_filter in Hin as [<- Hin].
  by apply (proj1 (ordinaryNames_elem fs) Hfs u ks).
Qed.

(** X11. In a constructed graph whose units have distinct paths that
    [path.join] restores from their relative form, [findSymbol] answers
    "not found" exactly for the names that no unit declares as a class,
    struct, protocol, enum or function and that [Object.prototype] does
    not define.  For a declared name the answer comes from the first
    unit, in processing order, that declares it: a symbol of that name
    from one of the five indexed buckets of that unit, with the unit's
    relative path as its file.  A name that [Object.prototype] defines
    is declared by no unit of a constructed graph; for it [findSymbol]
    raises when the inherited value is a function of non-zero [length]
    and returns an object without file and kind otherwise. *)
Theorem findSymbol_built pj repo fs g n :
  Run.buildGraph repo fs = Ok g ->
  NoDup (fst <$> fs) ->
  (forall p, p ∈ fst <$> fs -> pj repo (getRelativePath repo p) = p) ->
  (findSymbol pj (Some g) n = Ok None
   <-> (forall u, u ∈ fs -> nameLocs repo n u = []) /\ JsObject.ordinary n = true)
  /\ (forall pre u0 post,
         fs = pre ++ u0 :: post ->
         (forall u, u ∈ pre -> nameLocs repo n u = []) ->
         nameLocs repo n u0 <> [] ->
         exists b k s,
           findSymbol pj (Some g) n
           = Ok (Some (FoundSymbol
                         (mkResolved (withFile s (getRelativePath repo u0.1)) k)))
           /\ (b, k) ∈ indexedKinds /\ s ∈ bucket b (symbols u0.2) /\ name s = n)
  /\ (JsObject.ordinary n = false ->
      (forall u, u ∈ fs -> nameLocs repo n u = [])
      /\ findSymbol pj (Some g) n
         = match JsObject.inherited n with
           | Some (JsObject.InheritedFunction _ (S _)) => Throw
           | _ => Ok (Some FoundInherited)
           end).
Proof.
  intros Hg Hnd Hpj. apply buildGraph_completes in Hg as [Hfs ->].
  assert (forall pre u0 post,
    fs = pre ++ u0 :: post ->
    (forall u, u ∈ pre -> nameLocs repo n u = []) ->
    nameLocs repo n u0 <> [] ->
    exists b k s,
      findSymbol pj (Some (buildGraph repo fs)) n
      = Ok (Some (FoundSymbol (mkResolved (withFile s (getRelativePath repo u0.1)) k)))
      /\ (b, k) ∈ indexedKinds /\ s ∈ bucket b (symbols u0.2) /\ name s = n) as Hfound.
  { intros pre [p0 fd0] post Hfs' Hpre Hu0. cbn [fst snd].
    assert ((p0, fd0) ∈ fs) as Hu0in by (rewrite Hfs'; apply elem_of_app; right; left).
    pose proof (nameLocs_ordinary repo fs n _ Hfs Hu0in Hu0) as Hord.
    destruct (filter (fun ks => name ks.2 = n) (indexEntries fd0)) as [|[k0 s0] rest0] eqn:Ef.
    { exfalso. apply Hu0. unfold nameLocs. cbn [fst snd]. by rewrite Ef. }
    assert ((k0, s0) ∈ filter (fun ks => name ks.2 = n) (indexEntries fd0)) as Hin
      by (rewrite Ef; left).
    apply list_elem_of_filter in Hin as [Hn0 Hin]. simpl in Hn0.
    apply indexEntries_elem in Hin as (b0 & Hbk & Hs0).
    destruct (find_named n (bucket b0 (symbols fd0)) s0 Hs0 Hn0) as (s & Hfind & Hs & Hn).
    exists b0, k0, s. split; [|done].
    assert (exists rest, byName (buildIndexes repo fs) !! n
                         = Some (mkLoc (getRelativePath repo p0) k0 :: rest)) as [rest Hidx].
    { pose proof (byName_lookup repo fs n) as Hl.
      rewrite Hfs', flat_map_app in Hl. cbn [flat_map] in Hl.
      rewrite (flat_map_nil_prefix _ pre Hpre) in Hl. unfold nameLocs at 1 in Hl.
      cbn [fst snd] in Hl. rewrite Ef in Hl. cbn [fmap list_fmap app fst] in Hl.
      rewrite <- Hfs' in Hl.
      destruct (byName (buildIndexes repo fs) !! n) as [l|]; [|done].
      simpl in Hl. subst l. eauto. }
    cbn [findSymbol]. unfold findSymbolIn, findByIndex, readFile.
    cbn [indexes buildGraph repoPath files].
    rewrite get_ordinary by done. rewrite Hidx. cbn [loc_file loc_kind].
    rewrite Hpj by (apply list_elem_of_fmap; by exists (p0, fd0)).
    rewrite (obj_get_NoDup fs p0 fd0 Hnd Hu0in).
    by rewrite (indexedKinds_bucket b0 k0 _ Hbk), Hfind. }
  assert ((forall u, u ∈ fs -> nameLocs repo n u = []) ->
          byName (buildIndexes repo fs) !! n = None
          /\ buildTypeMap repo fs !! n = None) as Hmiss.
  { intros Hall. split.
    - apply byName_lookup_None. by apply flat_map_nil_prefix.
    - destruct (buildTypeMap repo fs !! n) as [ti|] eqn:Et; [|done].
      exfalso. apply typeMap_entry_unit in Et as (u & Hu & Hti & Hn).
      assert (declaresType u.2 n) as Hd by (apply (typeEntries_declares repo u n); eauto).
      by apply (nameLocs_declares repo n u Hd), Hall. }
  assert (JsObject.ordinary n = false -> forall u, u ∈ fs -> nameLocs repo n u = [])
    as Hnone.
  { intros Hord u Hu. destruct (decide (nameLocs repo n u = [])) as [|Hne]; [done|].
    rewrite (nameLocs_ordinary repo fs n u Hfs Hu Hne) in Hord. done. }
  split; [|split; [exact Hfound|]].
  - split.
    + intros Hres.
      assert (forall u, u ∈ fs -> nameLocs repo n u = []) as Hall.
      { intros u Hu. destruct (decide (nameLocs repo n u = [])) as [|Hne]; [done|].
        exfalso.
        destruct (first_declaring_unit repo n fs u Hu Hne) as (pre & u0 & post & E & Hpre & Hu0).
        destruct (Hfound pre u0 post E Hpre Hu0) as (b & k & s & Hres' & _). congruence. }
      split; [exact Hall|].
      destruct (Hmiss Hall) as [Hidx Htm].
      rewrite (findSymbol_missing pj (buildGraph repo fs) n Hidx Htm) in Hres.
      unfold JsObject.ordinary.
      by destruct (JsObject.inherited n) as [[fname [|len]|]|].
    + intros [Hall Hord]. destruct (Hmiss Hall) as [Hidx Htm].
      rewrite (findSymbol_missing pj (buildGraph repo fs) n Hidx Htm).
      unfold JsObject.ordinary in Hord. by destruct (JsObject.inherited n).
  - intros Hord. pose proof (Hnone Hord) as Hall. split; [exact Hall|].
    destruct (Hmiss Hall) as [Hidx Htm].
    rewrite (findSymbol_missing pj (buildGraph repo fs) n Hidx Htm).
    unfold JsObject.ordinary in Hord.
    by destruct (JsObject.inherited n) as [[fname [|len]|]|].
Qed.

Lemma findSymbol_built_witness :
  (exists b k s,
      findSymbol Fixtures.simple_join (Some Fixtures.userGraph) "UserViewModel"
      = Ok (Some (FoundSymbol (mkResolved (withFile s "A.swift") k)))
      /\ (b, k) ∈ indexedKinds /\ name s = "UserViewModel")
  /\ (findSymbol Fixtures.simple_join (Some Fixtures.userGraph) "Missing" = Ok None)
  /\ findSymbol Fixtures.simple_join (Some Fixtures.userGraph) "hasOwnProperty" = Throw.
Proof.
  assert (Run.buildGraph "/r" (files Fixtures.userGraph) = Ok Fixtures.userGraph)
    as Hg by (vm_compute; reflexivity).
  assert (exists u0 u1, files Fixtures.userGraph = [u0; u1] /\ u0.1 = "/r/A.swift"
                        /\ u1.1 = "/r/B.swift"
                        /\ nameLocs "/r" "UserViewModel" u0 <> []
                        /\ nameLocs "/r" "Missing" u0 = []
                        /\ nameLocs "/r" "Missing" u1 = [])
    as (u0 & u1 & Efs & E0 & E1 & Hu0 & Hm0 & Hm1).
  { vm_compute. eexists _, _. repeat split. discriminate. }
  assert (NoDup (fst <$> files Fixtures.userGraph)) as Hnd
    by (apply (bool_decide_unpack _); vm_compute; exact I).
  assert (forall p, p ∈ fst <$> files Fixtures.userGraph ->
                    Fixtures.simple_join "/r" (getRelativePath "/r" p) = p) as Hpj.
  { intros p Hp. rewrite Efs in Hp. cbn in Hp. rewrite E0, E1 in Hp.
    apply elem_of_cons in Hp as [->|Hp]; [reflexivity|].
    apply list_elem_of_singleton in Hp. subst p. reflexivity. }
  split; [|split].
  - destruct (findSymbol_built Fixtures.simple_join "/r" _ _ "UserViewModel" Hg Hnd Hpj)
      as (_ & Hfound & _).
    destruct (Hfound [] u0 [u1] Efs) as (b & k & s & H1 & H2 & _ & H4).
    + intros u Hu. inversion Hu.
    + exact Hu0.
    + exists b, k, s. rewrite E0 in H1. split; [exact H1|]. split; [exact H2|exact H4].
  - apply (findSymbol_built Fixtures.simple_join "/r" _ _ "Missing" Hg Hnd Hpj).
    split; [|reflexivity]. intros u Hu. rewrite Efs in Hu.
    apply elem_of_cons in Hu as [->|Hu]; [exact Hm0|].
    apply list_elem_of_singleton in Hu. subst u. exact Hm1.
  - destruct (findSymbol_built Fixtures.simple_join "/r" _ _ "hasOwnProperty" Hg Hnd Hpj)
      as (_ & _ & Hproto).
    destruct (Hproto eq_refl) as [_ H]. exact H.
Defined.

(** ** More on search *)

Lemma sublist_flat_map {A B} (f g : A -> list B) (l : list A) :
  (forall x, f x `sublist_of` g x) -> flat_map f l `sublist_of` flat_map g l.
Proof.
  intros H. induction l as [|x l IH]; simpl; [done|]. by apply sublist_app.
Qed.

Lemma fileHits_filter_sublist lower repo q K entry :
  fileHits lower repo q K entry `sublist_of` fileHits lower repo q "all" entry.
Proof.
  unfold fileHits. apply sublist_flat_map. intros [b k]. simpl.
  destruct (wants K k); [done|apply sublist_nil_l].
Qed.

Lemma lower_ascii_idemp c : lower_ascii (lower_ascii c) = lower_ascii c.
Proof. by destruct c as [[] [] [] [] [] [] [] []]. Qed.

Lemma toLowerCase_idemp s : toLowerCase (toLowerCase s) = toLowerCase s.
Proof.
  induction s as [|c s IH]; [done|].
  change (toLowerCase (String c s)) with (String (lower_ascii c) (toLowerCase s)).
  change (toLowerCase (String (lower_ascii c) (toLowerCase s)))
    with (String (lower_ascii (lower_ascii c)) (toLowerCase (toLowerCase s))).
  by rewrite lower_ascii_idemp, IH.
Qed.

Lemma includes_empty s : includes "" s = true.
Proof. by destruct s. Qed.

Lemma hitsOf_empty_query lower rel knd l :
  length (hitsOf lower "" rel knd l) = length l.
Proof.
  unfold hitsOf. rewrite length_fmap. f_equal.
  induction l as [|s l IH]; [done|].
  rewrite filter_cons_True by apply includes_empty. by rewrite IH.
Qed.

(** X12. On ASCII text, where [toLowerCase] is the host's lower-casing:
    a kind filter only removes hits: the filtered result is a
    sub-sequence of the unfiltered one, in the same order.  The letter
    case of the query is irrelevant.  The empty query matches every
    class, struct, protocol, function and enum of the graph, and a
    filter that is none of the five kinds matches nothing. *)
Theorem search_filter_refines d query K :
  exists unfiltered hits,
    search_symbols toLowerCase (Some d) query None = Some unfiltered
    /\ search_symbols toLowerCase (Some d) query (Some K) = Some hits
    /\ hits `sublist_of` unfiltered
    /\ search_symbols toLowerCase (Some d) (toLowerCase query) (Some K) = Some hits
    /\ (query = "" ->
        length unfiltered
        = length (flat_map (fun u => classes (symbols u.2) ++ structs (symbols u.2)
                                     ++ protocols (symbols u.2) ++ functions (symbols u.2)
                                     ++ enums (symbols u.2)) (files d)))
    /\ (K <> "all" -> K ∉ snd <$> searchedKinds -> hits = []).
Proof.
  eexists _, _. split; [apply search_spec|]. split; [apply search_spec|].
  split; [|split; [|split]].
  - apply sublist_flat_map. intros u. apply fileHits_filter_sublist.
  - rewrite search_spec. by rewrite toLowerCase_idemp.
  - intros ->. change (toLowerCase "") with "". simpl.
    induction (files d) as [|u l IH]; [done|].
    cbn [flat_map]. rewrite !length_app, IH. f_equal.
    unfold fileHits, searchedKinds. cbn [flat_map fst snd bucket].
    unfold wants. simpl. rewrite app_nil_r, !length_app, !hitsOf_empty_query. lia.
  - intros Hall HK. simpl.
    assert (forall u, fileHits toLowerCase (repoPath d) (toLowerCase query) K u = []) as E.
    { intros u. unfold fileHits.
      apply flat_map_nil_prefix. intros [b k] Hbk. simpl.
      destruct (wants K k) eqn:Ew; [|done]. exfalso.
      apply wants_spec in Ew as [? | ->]; [done|]. apply HK.
      apply list_elem_of_fmap. by exists (b, k). }
    induction (files d) as [|u l IH]; [done|]. cbn [flat_map]. by rewrite E, IH.
Qed.

(** ** The largest files of the statistics *)

Lemma insertBySize_sorted x l :
  StronglySorted bySizeDesc l -> StronglySorted bySizeDesc (insertBySize x l).
Proof.
  induction 1 as [|y l Hs IH Hy]; simpl; [by repeat constructor|].
  destruct (Nat.ltb_spec (fs_count x) (fs_count y)) as [Hlt|Hge].
  - constructor; [done|]. rewrite insertBySize_Permutation. constructor; [|done].
    unfold bySizeDesc. lia.
  - constructor; [by constructor|]. constructor; [unfold bySizeDesc; lia|].
    eapply Forall_impl; [exact Hy|]. unfold bySizeDesc. intros z Hz. simpl in *. lia.
Qed.

Lemma sortBySize_sorted l : StronglySorted bySizeDesc (sortBySize l).
Proof.
  induction l as [|x l IH]; simpl; [constructor|]. by apply insertBySize_sorted.
Qed.

Lemma insertBySize_stable c x l :
  filter (fun z => fs_count z = c) (insertBySize x l)
  = filter (fun z => fs_count z = c) (x :: l).
Proof.
  induction l as [|y l IH]; simpl; [done|].
  destruct (Nat.ltb_spec (fs_count x) (fs_count y)) as [Hlt|Hge]; [|done].
  destruct (decide (fs_count y = c)) as [Hy|Hy].
  - rewrite (filter_cons_True _ y) by done. rewrite IH.
    rewrite (filter_cons_False _ x) by lia.
    rewrite (filter_cons_False _ x) by lia. by rewrite filter_cons_True.
  - rewrite (filter_cons_False _ y) by done. rewrite IH.
    destruct (decide (fs_count x = c)).
    + rewrite !(filter_cons_True _ x) by done. by rewrite filter_cons_False.
    + rewrite !(filter_cons_False _ x) by done. by rewrite filter_cons_False.
Qed.

Lemma sortBySize_stable c l :
  filter (fun z => fs_count z = c) (sortBySize l) = filter (fun z => fs_count z = c) l.
Proof.
  induction l as [|x l IH]; simpl; [done|].
  rewrite insertBySize_stable. destruct (decide (fs_count x = c)).
  - rewrite !(filter_cons_True _ x) by done. by rewrite IH.
  - rewrite !(filter_cons_False _ x) by done. by rewrite IH.
Qed.

Lemma StronglySorted_app_order {A} (R : A -> A -> Prop) (l1 l2 : list A) a b :
  StronglySorted R (l1 ++ l2) -> a ∈ l1 -> b ∈ l2 -> R a b.
Proof.
  induction l1 as [|x l1 IH]; intros Hs Ha Hb; [by apply elem_of_nil in Ha|].
  simpl in Hs. apply StronglySorted_inv in Hs as [Hs Hx].
  apply elem_of_cons in Ha as [->|Ha]; [|by apply IH].
  apply (proj1 (Forall_forall _ _) Hx). apply elem_of_app. by right.
Qed.

Lemma statsStep_sizes repo fs acc :
  st_fileSizes (fold_left (statsStep repo) fs acc)
  = st_fileSizes acc ++ (unitSize repo <$> fs).
Proof. apply statsStep_fold. Qed.

(** X13. The file sizes of [get_codebase_stats] are the sizes of all
    units rearranged by decreasing count; units of equal count keep
    their processing order; the files displayed are the first five, and
    no file left out is larger than a displayed one. *)
Theorem stats_largest_files d :
  exists st,
    get_codebase_stats (Some d) = Some st
    /\ StronglySorted bySizeDesc (st_fileSizes st)
    /\ st_fileSizes st ≡ₚ unitSize (repoPath d) <$> files d
    /\ (forall c, filter (fun z => fs_count z = c) (st_fileSizes st)
                  = filter (fun z => fs_count z = c) (unitSize (repoPath d) <$> files d))
    /\ st_largest st = take MAX_DISPLAY_FILES (st_fileSizes st)
    /\ length (st_largest st) = Nat.min 5 (length (files d))
    /\ (forall a b, a ∈ st_largest st -> b ∈ skipn MAX_DISPLAY_FILES (st_fileSizes st) ->
                    fs_count b <= fs_count a).
Proof.
  eexists. split; [reflexivity|]. cbn [st_fileSizes st_largest].
  rewrite statsStep_sizes. cbn [st_fileSizes app].
  split; [apply sortBySize_sorted|]. split; [apply sortBySize_Permutation|].
  split; [intros c; apply sortBySize_stable|]. split; [done|]. split.
  - rewrite length_take, (Permutation_length (sortBySize_Permutation _)), length_fmap.
    done.
  - intros a b Ha Hb.
    apply (StronglySorted_app_order bySizeDesc
             (take MAX_DISPLAY_FILES (sortBySize (unitSize (repoPath d) <$> files d)))
             (skipn MAX_DISPLAY_FILES (sortBySize (unitSize (repoPath d) <$> files d)))
             a b); [|done..].
    rewrite take_drop. apply sortBySize_sorted.
Qed.

(** ** The file overview *)

Lemma obj_get_is_Some {V} (o : list (string * V)) p :
  p ∈ fst <$> o -> is_Some (obj_get p o).
Proof.
  induction o as [|[k v] o IH]; intros H; [by apply elem_of_nil in H|].
  cbn [obj_get]. rewrite fmap_cons in H. cbn [fst] in H.
  destruct (String.eqb_spec k p) as [->|Hk]; [done|].
  apply elem_of_cons in H as [->|H]; [done|by apply IH].
Qed.

Lemma matchingFiles_elem lower d input p :
  p ∈ matchingFiles lower d input
  <-> p ∈ fst <$> files d /\ includes (lower input) (lower p) = true.
Proof.
  unfold matchingFiles. rewrite list_elem_of_In, filter_In, <- list_elem_of_In. tauto.
Qed.

Lemma startsWith_refl s : startsWith s s = true.
Proof.
  induction s as [|c s IH]; [done|].
  change (startsWith (String c s) (String c s))
    with (if Ascii.eqb c c then startsWith s s else false).
  by rewrite Ascii.eqb_refl.
Qed.

Lemma includes_refl s : includes s s = true.
Proof. destruct s; unfold includes; by rewrite startsWith_refl. Qed.

Lemma two_in_list {A} (l : list A) x y : x ∈ l -> y ∈ l -> x <> y -> 2 <= length l.
Proof.
  intros Hx Hy Hne. destruct l as [|a [|b l]]; simpl; [by apply elem_of_nil in Hx| |lia].
  apply list_elem_of_singleton in Hx, Hy. congruence.
Qed.

Lemma shownSections_elem s sec :
  sec ∈ shownSections s ->
  exists items,
    (sec_name sec, items) ∈ overviewSections s /\ items <> []
    /\ sec_items sec = take MAX_DISPLAY_METHODS items
    /\ length (sec_items sec) + sec_more sec = length items
    /\ length (sec_items sec) <= 10.
Proof.
  unfold shownSections. rewrite elem_of_flat_map. intros ([nm items] & Hin & H).
  simpl in H. destruct (Nat.ltb_spec 0 (length items)) as [Hlen|Hlen];
    [|by apply elem_of_nil in H].
  apply list_elem_of_singleton in H. subst sec. simpl. exists items.
  split; [done|]. split; [by destruct items; [simpl in Hlen; lia|]|].
  split; [done|]. rewrite length_take. unfold MAX_DISPLAY_METHODS. lia.
Qed.

Section OverviewFacts.

Variable lower : string -> string.
Hypothesis lower_empty : lower "" = "".

(** X14. For any lower-casing that leaves the empty string empty,
    [get_file_overview] selects a file by substring match of
    the lower-cased input in the lower-cased full path: it answers with
    the file when exactly one path matches, with "no match" when none
    does and with the list of candidates when several do - so a path
    that is contained in another file's path can never be selected by
    typing it, and the empty input matches every file.  A displayed
    section is one of the six titled buckets, is never empty and shows
    at most ten items, the first ones of the bucket. *)
Theorem file_overview_selection d input :
  (forall p, p ∈ matchingFiles lower d input
             <-> p ∈ fst <$> files d
                 /\ includes (lower input) (lower p) = true)
  /\ (get_file_overview lower (Some d) input = OverviewNoMatch
      <-> matchingFiles lower d input = [])
  /\ (forall p, matchingFiles lower d input = [p] ->
                exists fd, obj_get p (files d) = Some fd
                           /\ get_file_overview lower (Some d) input
                              = OverviewFile (getRelativePath (repoPath d) p)
                                  (shownSections (symbols fd)))
  /\ (2 <= length (matchingFiles lower d input) ->
      get_file_overview lower (Some d) input
      = OverviewMultiple (getRelativePath (repoPath d) <$> matchingFiles lower d input))
  /\ (forall p1 p2, p1 ∈ fst <$> files d -> p2 ∈ fst <$> files d -> p1 <> p2 ->
                    includes (lower p1) (lower p2) = true ->
                    exists ms, get_file_overview lower (Some d) p1 = OverviewMultiple ms)
  /\ (input = "" -> matchingFiles lower d input = fst <$> files d)
  /\ (forall s sec, sec ∈ shownSections s ->
                    exists items,
                      (sec_name sec, items) ∈ overviewSections s /\ items <> []
                      /\ sec_items sec = take MAX_DISPLAY_METHODS items
                      /\ length (sec_items sec) + sec_more sec = length items
                      /\ length (sec_items sec) <= 10).
Proof.
  assert (forall i p, matchingFiles lower d i = [p] ->
            exists fd, obj_get p (files d) = Some fd) as Hkey.
  { intros i p E. apply obj_get_is_Some.
    assert (p ∈ matchingFiles lower d i) as H by (rewrite E; left).
    by apply matchingFiles_elem in H as [? _]. }
  assert (forall i, 2 <= length (matchingFiles lower d i) ->
            get_file_overview lower (Some d) i
            = OverviewMultiple (getRelativePath (repoPath d) <$> matchingFiles lower d i))
    as Hmulti.
  { intros i H. unfold get_file_overview.
    destruct (matchingFiles lower d i) as [|a [|b l]]; simpl in H; [lia|lia|done]. }
  split; [apply matchingFiles_elem|]. split; [|split; [|split; [|split; [|split]]]].
  - unfold get_file_overview. destruct (matchingFiles lower d input) as [|a [|b l]] eqn:E.
    + done.
    + destruct (Hkey input a E) as [fd ->]. split; discriminate.
    + split; discriminate.
  - intros p E. destruct (Hkey input p E) as [fd Hfd]. exists fd. split; [done|].
    unfold get_file_overview. by rewrite E, Hfd.
  - apply Hmulti.
  - intros p1 p2 H1 H2 Hne Hinc. eexists. apply Hmulti.
    apply (two_in_list _ p1 p2); [| |done]; apply matchingFiles_elem; split; try done.
    apply includes_refl.
  - intros ->. unfold matchingFiles. rewrite lower_empty.
    induction (fst <$> files d) as [|k l IH]; [done|].
    simpl. rewrite includes_empty. by rewrite IH.
  - apply shownSections_elem.
Qed.

End OverviewFacts.

Lemma file_overview_selection_witness :
  get_file_overview toLowerCase (Some Fixtures.userGraph) "a.SWIFT"
  = OverviewFile "A.swift"
      [mkSection "Classes"
         [mkSymbol "UserManager" "source.lang.swift.decl.class" "/r/A.swift" []
            (Some "internal") None None None None;
          mkSymbol "UserViewModel" "source.lang.swift.decl.class" "/r/A.swift" []
            (Some "internal") None None None None] 0]
  /\ matchingFiles toLowerCase Fixtures.userGraph "" = ["/r/A.swift"; "/r/B.swift"].
Proof.
  destruct (file_overview_selection toLowerCase eq_refl Fixtures.userGraph "a.SWIFT")
    as (_ & _ & Hone & _).
  destruct (file_overview_selection toLowerCase eq_refl Fixtures.userGraph "")
    as (_ & _ & _ & _ & _ & Hall & _).
  split.
  - destruct (Hone "/r/A.swift") as (fd & Hfd & ->); [vm_compute; reflexivity|].
    assert (obj_get "/r/A.swift" (files Fixtures.userGraph)
            = Some (mkFileData
                      (mkSymbols
                         [mkSymbol "UserManager" "source.lang.swift.decl.class" "/r/A.swift" []
                            (Some "internal") None None None None;
                          mkSymbol "UserViewModel" "source.lang.swift.decl.class" "/r/A.swift"
                            [] (Some "internal") None None None None] [] [] [] [] [] [])
                      {["UserManager" := noMembers; "UserViewModel" := noMembers]} "swift"))
      as E by (vm_compute; reflexivity).
    rewrite E in Hfd. injection Hfd as <-. vm_compute. reflexivity.
  - rewrite (Hall eq_refl). vm_compute. reflexivity.
Defined.

(** ** Project detection *)

Section HostPathFacts.

Variable path_join : string -> string -> string.
Variable basename : string -> string -> string.
Hypothesis path_join_nonempty : forall a b, path_join a b <> "".

Lemma truthy_path a b : truthy (Some (path_join a b)) = true.
Proof.
  simpl. by rewrite (proj2 (String.eqb_neq _ _) (path_join_nonempty a b)).
Qed.

Lemma detect_fold projectPath entries acc :
  let found := fold_left (detectStep path_join projectPath) entries acc in
  (found.1 = match last (filter (fun e => isWorkspaceDir e = true) entries) with
             | Some e => Some (path_join projectPath (entryName e))
             | None => acc.1
             end)
  /\ (found.2 = match last (filter (fun e => isWorkspaceDir e = false
                                             /\ isProjectDir e = true) entries) with
                | Some e => Some (path_join projectPath (entryName e))
                | None => acc.2
                end).
Proof.
  cbv zeta. induction entries as [|e entries IH] using rev_ind; [done|].
  rewrite fold_left_app, !filter_app. cbn [fold_left]. unfold detectStep at 1 3.
  destruct IH as [IH1 IH2].
  destruct (isWorkspaceDir e) eqn:Ew.
  - rewrite (filter_cons_True (fun e => isWorkspaceDir e = true)) by done.
    rewrite (filter_cons_False (fun e => isWorkspaceDir e = false /\ _))
      by (rewrite Ew; intros [? _]; done).
    rewrite !filter_nil, last_snoc, app_nil_r. done.
  - rewrite (filter_cons_False (fun e => isWorkspaceDir e = true)) by (by rewrite Ew).
    rewrite filter_nil, app_nil_r.
    destruct (isProjectDir e) eqn:Ep.
    + rewrite (filter_cons_True (fun e => isWorkspaceDir e = false /\ _)) by done.
      rewrite filter_nil, last_snoc. done.
    + rewrite (filter_cons_False (fun e => isWorkspaceDir e = false /\ _))
        by (rewrite Ep; intros [_ ?]; done).
      rewrite filter_nil, app_nil_r. done.
Qed.

Lemma last_filter_None {A} (P : A -> Prop) `{!forall x, Decision (P x)} (l : list A) :
  last (filter P l) = None <-> forall x, x ∈ l -> ~ P x.
Proof.
  rewrite last_None. split.
  - intros E x Hx HP. by apply (filter_nil_not_elem_of P l x E HP).
  - intros Hall. destruct (filter P l) as [|x r] eqn:E; [done|].
    assert (x ∈ filter P l) as Hx by (rewrite E; left).
    apply list_elem_of_filter in Hx as [HP Hx]. by destruct (Hall x Hx).
Qed.

Lemma last_filter_decompose {A} (P : A -> Prop) `{!forall x, Decision (P x)}
    (pre : list A) e (post : list A) :
  P e -> (forall x, x ∈ post -> ~ P x) -> last (filter P (pre ++ e :: post)) = Some e.
Proof.
  intros He Hpost. rewrite filter_app, filter_cons_True by done.
  assert (filter P post = []) as ->.
  { destruct (filter P post) as [|x r] eqn:E; [done|].
    assert (x ∈ filter P post) as Hx by (rewrite E; left).
    apply list_elem_of_filter in Hx as [HP Hx]. by destruct (Hpost x Hx). }
  apply last_snoc.
Qed.

(** X15. [detectProjectType] answers [null] exactly when the folder has
    no directory named [*.xcworkspace] or [*.xcodeproj]; a workspace wins
    over a project wherever the two appear in the listing; and among
    several candidates of the winning kind the last one listed is
    reported. *)
Theorem detectProjectType_priority projectPath entries :
  (detectProjectType path_join basename projectPath entries = None
   <-> forall e, e ∈ entries -> isWorkspaceDir e = false /\ isProjectDir e = false)
  /\ (forall pre e post,
         entries = pre ++ e :: post -> isWorkspaceDir e = true ->
         (forall x, x ∈ post -> isWorkspaceDir x = false) ->
         detectProjectType path_join basename projectPath entries
         = Some (mkProjectInfo "xcworkspace" (path_join projectPath (entryName e))
                   (basename (path_join projectPath (entryName e)) ".xcworkspace")))
  /\ (forall pre e post,
         entries = pre ++ e :: post ->
         (forall x, x ∈ entries -> isWorkspaceDir x = false) ->
         isProjectDir e = true ->
         (forall x, x ∈ post -> isProjectDir x = false) ->
         detectProjectType path_join basename projectPath entries
         = Some (mkProjectInfo "xcodeproj" (path_join projectPath (entryName e))
                   (basename (path_join projectPath (entryName e)) ".xcodeproj"))).
Proof.
  unfold detectProjectType.
  pose proof (detect_fold projectPath entries (None, None)) as H. cbv zeta in H.
  destruct H as [H1 H2]. rewrite H1, H2. cbn [fst snd]. clear H1 H2.
  split; [|split].
  - destruct (last (filter (fun e => isWorkspaceDir e = true) entries)) as [w|] eqn:Ew.
    + rewrite truthy_path. split; [done|]. intros H.
      apply last_Some_elem_of, list_elem_of_filter in Ew as [Hw Hin].
      destruct (H w Hin) as [? _]. congruence.
    + cbn [truthy].
      destruct (last (filter (fun e => isWorkspaceDir e = false /\ isProjectDir e = true)
                        entries)) as [p|] eqn:Ep.
      * rewrite truthy_path. split; [done|]. intros H.
        apply last_Some_elem_of, list_elem_of_filter in Ep as [[_ Hp] Hin].
        destruct (H p Hin) as [_ ?]. congruence.
      * cbn [truthy]. split; [|done]. intros _ e He.
        pose proof (proj1 (last_filter_None _ _) Ew e He) as Hw.
        pose proof (proj1 (last_filter_None _ _) Ep e He) as Hp.
        clear Ew Ep. simpl in Hw, Hp.
        destruct (isWorkspaceDir e); [done|]. destruct (isProjectDir e); [|done].
        by destruct Hp.
  - intros pre e post -> He Hpost.
    rewrite (last_filter_decompose (fun e => isWorkspaceDir e = true) pre e post He).
    + by rewrite truthy_path.
    + intros x Hx. rewrite (Hpost x Hx). done.
  - intros pre e post -> Hnows He Hpost.
    assert (last (filter (fun e => isWorkspaceDir e = true) (pre ++ e :: post)) = None) as ->.
    { apply (last_filter_None (fun e => isWorkspaceDir e = true)).
      intros x Hx. rewrite (Hnows x Hx). done. }
    cbn [truthy].
    rewrite (last_filter_decompose
               (fun e => isWorkspaceDir e = false /\ isProjectDir e = true) pre e post).
    + by rewrite truthy_path.
    + split; [|done]. apply Hnows. apply elem_of_app. right. left.
    + intros x Hx [_ Hp]. rewrite (Hpost x Hx) in Hp. done.
Qed.

End HostPathFacts.

Lemma simple_join_nonempty a b : Fixtures.simple_join a b <> "".
Proof. unfold Fixtures.simple_join. destruct a; discriminate. Qed.

Lemma detectProjectType_priority_witness :
  detectProjectType Fixtures.simple_join HostFixtures.simple_basename "/repo"
    HostFixtures.sampleFolder
  = Some (mkProjectInfo "xcworkspace" "/repo/App.xcworkspace" "App").
Proof.
  destruct (detectProjectType_priority Fixtures.simple_join HostFixtures.simple_basename
              simple_join_nonempty "/repo" HostFixtures.sampleFolder) as (_ & Hws & _).
  rewrite (Hws [FsNode "App.xcodeproj" true false []]
               (FsNode "App.xcworkspace" true false [])
               (skipn 2 HostFixtures.sampleFolder)).
  - vm_compute. reflexivity.
  - reflexivity.
  - vm_compute. reflexivity.
  - intros x Hx. vm_compute in Hx.
    apply elem_of_cons in Hx as [->|Hx]; [vm_compute; reflexivity|].
    apply elem_of_cons in Hx as [->|Hx]; [vm_compute; reflexivity|].
    by apply elem_of_nil in Hx.
Defined.

(** ** Source discovery *)

Lemma FsEntry_nested_ind (P : FsEntry -> Prop) :
  (forall n isDir isFile children,
      Forall P children -> P (FsNode n isDir isFile children)) ->
  forall e, P e.
Proof.
  intros Hnode. fix IH 1. intros [n isDir isFile children]. apply Hnode.
  induction children as [|c children IHl]; constructor; [apply IH|apply IHl].
Qed.

Lemma addSource_swift fp n isFile acc p :
  p ∈ sf_swift (addSource fp n isFile acc)
  <-> p ∈ sf_swift acc \/ (isFile = true /\ endsWith ".swift" n = true /\ p = fp).
Proof.
  unfold addSource. destruct isFile; [|intuition congruence].
  destruct (endsWith ".swift" n); simpl.
  - rewrite elem_of_app, list_elem_of_singleton. intuition.
  - destruct (endsWith ".m" n || endsWith ".h" n)%bool; simpl; intuition congruence.
Qed.

Lemma addSource_objc fp n isFile acc p :
  p ∈ sf_objc (addSource fp n isFile acc)
  <-> p ∈ sf_objc acc
      \/ (isFile = true
          /\ (negb (endsWith ".swift" n) && (endsWith ".m" n || endsWith ".h" n))%bool = true
          /\ p = fp).
Proof.
  unfold addSource. destruct isFile; [|intuition congruence].
  destruct (endsWith ".swift" n); simpl; [intuition congruence|].
  destruct (endsWith ".m" n || endsWith ".h" n)%bool; simpl.
  - rewrite elem_of_app, list_elem_of_singleton. intuition.
  - intuition congruence.
Qed.

Section ScanFacts.

Variable path_join : string -> string -> string.

Lemma scan_fold_elem (sel : SourceFiles -> list string) (want : string -> bool)
    (dir : string) (children : list FsEntry) :
  Forall (fun c => forall dir acc p,
              p ∈ sel (scanEntry path_join dir c acc)
              <-> p ∈ sel acc \/ fileBranch path_join dir c want p) children ->
  forall acc p,
    p ∈ sel (fold_left (fun acc c => scanEntry path_join dir c acc) children acc)
    <-> p ∈ sel acc \/ exists c, c ∈ children /\ fileBranch path_join dir c want p.
Proof.
  induction 1 as [|c children Hc _ IH]; intros acc p; cbn [fold_left].
  - split; [by left|]. intros [?|(c & Hin & _)]; [done|by apply elem_of_nil in Hin].
  - rewrite IH, Hc. split.
    + intros [[?|?]|(c' & Hin & ?)]; [by left| |].
      * right. exists c. split; [left|done].
      * right. exists c'. split; [by right|done].
    + intros [?|(c' & Hin & ?)]; [by left; left|].
      apply elem_of_cons in Hin as [->|Hin]; [by left; right|].
      right. by exists c'.
Qed.

Lemma scanEntry_elem (sel : SourceFiles -> list string) (want : string -> bool) :
  (forall fp n isFile acc p,
      p ∈ sel (addSource fp n isFile acc)
      <-> p ∈ sel acc \/ (isFile = true /\ want n = true /\ p = fp)) ->
  forall e dir acc p,
    p ∈ sel (scanEntry path_join dir e acc)
    <-> p ∈ sel acc \/ fileBranch path_join dir e want p.
Proof.
  intros Hadd. induction e as [n isDir isFile children IH] using FsEntry_nested_ind.
  intros dir acc p. cbn [scanEntry]. cbv zeta.
  destruct (isDir && negb (skipped n))%bool eqn:Econd.
  - apply andb_true_iff in Econd as [-> Hskip]. apply negb_true_iff in Hskip.
    rewrite (scan_fold_elem sel want _ children IH). apply or_iff_compat_l. split.
    + intros (c & Hin & d & n' & isDir' & ch' & Hr & Hrest).
      exists d, n', isDir', ch'. split; [|done]. by eapply reaches_child.
    + intros (d & n' & isDir' & ch' & Hr & Hcond & Hrest).
      inversion Hr; subst.
      * rewrite Hskip in Hcond. discriminate.
      * eexists. split; [eassumption|]. by exists d, n', isDir', ch'.
  - rewrite Hadd. apply or_iff_compat_l. split.
    + intros (-> & Hw & ->). exists dir, n, isDir, children. repeat split; try done.
      constructor.
    + intros (d & n' & isDir' & ch' & Hr & Hcond & Hw & ->).
      inversion Hr; subst; [done|].
      match goal with H : skipped _ = false |- _ => rewrite H in Econd end.
      discriminate.
Qed.

Lemma scan_fold_prune dir (children : list FsEntry) :
  Forall (fun c => forall dir acc,
              scanEntry path_join dir (pruneSkipped c) acc
              = scanEntry path_join dir c acc) children ->
  forall acc,
    fold_left (fun acc c => scanEntry path_join dir c acc) (pruneSkipped <$> children) acc
    = fold_left (fun acc c => scanEntry path_join dir c acc) children acc.
Proof.
  induction 1 as [|c children Hc _ IH]; intros acc; [done|].
  rewrite fmap_cons. cbn [fold_left]. by rewrite Hc, IH.
Qed.

Lemma scanEntry_prune e :
  forall dir acc,
    scanEntry path_join dir (pruneSkipped e) acc = scanEntry path_join dir e acc.
Proof.
  induction e as [n isDir isFile children IH] using FsEntry_nested_ind.
  intros dir acc. cbn [pruneSkipped].
  destruct (isDir && skipped n)%bool eqn:Eskip.
  - apply andb_true_iff in Eskip as [-> Hskip]. cbn [scanEntry]. by rewrite Hskip.
  - cbn [scanEntry]. cbv zeta. destruct (isDir && negb (skipped n))%bool; [|done].
    by apply scan_fold_prune.
Qed.

(** X16. [findSourceFiles] reports exactly the files that lie below the
    scanned folder through directories that are not on the skip list:
    those named [*.swift] as Swift sources and, of the others, those
    named [*.m] or [*.h] as Objective-C sources, each under the path
    joined from its directory.  Nothing below [Pods], [.build], [build],
    [DerivedData], [.git], [Carthage] or [node_modules] has any
    influence on the result. *)
Theorem findSourceFiles_reachable dir entries :
  (forall p,
      p ∈ sf_swift (findSourceFiles path_join dir entries)
      <-> exists e d n isDir ch,
            e ∈ entries
            /\ reaches path_join dir e d (FsNode n isDir true ch)
            /\ (isDir && negb (skipped n))%bool = false
            /\ endsWith ".swift" n = true /\ p = path_join d n)
  /\ (forall p,
         p ∈ sf_objc (findSourceFiles path_join dir entries)
         <-> exists e d n isDir ch,
               e ∈ entries
               /\ reaches path_join dir e d (FsNode n isDir true ch)
               /\ (isDir && negb (skipped n))%bool = false
               /\ (negb (endsWith ".swift" n)
                   && (endsWith ".m" n || endsWith ".h" n))%bool = true
               /\ p = path_join d n)
  /\ findSourceFiles path_join dir (pruneSkipped <$> entries)
     = findSourceFiles path_join dir entries.
Proof.
  unfold findSourceFiles. split; [|split].
  - intros p.
    rewrite (scan_fold_elem sf_swift (endsWith ".swift") dir entries).
    + cbn [sf_swift]. split.
      * intros [H|(e & Hin & d & n & isDir & ch & H)]; [by apply elem_of_nil in H|].
        by exists e, d, n, isDir, ch.
      * intros (e & d & n & isDir & ch & Hin & H). right. exists e. split; [done|].
        by exists d, n, isDir, ch.
    + apply Forall_forall. intros c _.
      apply (scanEntry_elem sf_swift (endsWith ".swift")). apply addSource_swift.
  - intros p.
    rewrite (scan_fold_elem sf_objc
               (fun n => (negb (endsWith ".swift" n)
                          && (endsWith ".m" n || endsWith ".h" n))%bool) dir entries).
    + cbn [sf_objc]. split.
      * intros [H|(e & Hin & d & n & isDir & ch & H)]; [by apply elem_of_nil in H|].
        by exists e, d, n, isDir, ch.
      * intros (e & d & n & isDir & ch & Hin & H). right. exists e. split; [done|].
        by exists d, n, isDir, ch.
    + apply Forall_forall. intros c _.
      apply (scanEntry_elem sf_objc
               (fun n => (negb (endsWith ".swift" n)
                          && (endsWith ".m" n || endsWith ".h" n))%bool)).
      apply addSource_objc.
  - apply scan_fold_prune. apply Forall_forall. intros c _. apply scanEntry_prune.
Qed.

End ScanFacts.
